(** * NAU assistant: retrieval-and-validation pipeline

    A shallow embedding of the retrieval core of the assistant
    ([database.py], [query_router.py], [result_validator.py],
    [assistant.py], and the history utilities of [utils.py]) and the
    properties of its specification.

    Conventions of the embedding:
    - a Python [str] is the list of its Unicode code points, so that [len],
      [in], [count] and [split] count characters as Python does;
    - a Python [float] score is an exact rational ([Q]); the statements
      below are about the arithmetic the code writes down, not about
      rounding;
    - a [dict] whose iteration order matters is an association list kept
      in insertion order;
    - calls that may raise are results in the [Exc] type, and a
      [try/except Exception] is a match on it;
    - the reasoning service, the vector encoder and the document store are
      parameters (Section variables): every theorem holds for all of them. *)

From Stdlib Require Import String Ascii List ZArith NArith QArith Qminmax Bool Lia Arith.
From Stdlib Require Import Sorted Permutation DecimalString Lqa.
Import ListNotations.
Close Scope Q_scope.

Set Implicit Arguments.

(* ===================================================================== *)
(** ** Python primitives used by the code *)
(* ===================================================================== *)

Module Py.

(** A Python string: its code points. *)
Definition str := list N.

Definition str_eqb (a b : str) : bool :=
  if list_eq_dec N.eq_dec a b then true else false.

Lemma str_eqb_eq (a b : str) : str_eqb a b = true <-> a = b.
Proof.
  unfold str_eqb. destruct (list_eq_dec N.eq_dec a b); split; congruence.
Qed.

Lemma str_eqb_refl (a : str) : str_eqb a a = true.
Proof. now apply str_eqb_eq. Qed.

(** Literals of the source are written as UTF-8 text and decoded. *)
Fixpoint utf8_decode (bs : list N) : str :=
  match bs with
  | [] => []
  | b0 :: r0 =>
    if (b0 <? 128)%N then b0 :: utf8_decode r0
    else match r0 with
    | [] => [b0]
    | b1 :: r1 =>
      if (b0 <? 224)%N then ((b0 - 192) * 64 + (b1 - 128))%N :: utf8_decode r1
      else match r1 with
      | [] => [b0; b1]
      | b2 :: r2 =>
        if (b0 <? 240)%N
        then ((b0 - 224) * 4096 + (b1 - 128) * 64 + (b2 - 128))%N :: utf8_decode r2
        else match r2 with
        | [] => [b0; b1; b2]
        | b3 :: r3 =>
          ((b0 - 240) * 262144 + (b1 - 128) * 4096
           + (b2 - 128) * 64 + (b3 - 128))%N :: utf8_decode r3
        end
      end
    end
  end.

Definition u (s : string) : str :=
  utf8_decode (map N_of_ascii (list_ascii_of_string s)).

(** [str.isspace] on one code point. *)
Definition isspace (c : N) : bool :=
  ((9 <=? c) && (c <=? 13) || (28 <=? c) && (c <=? 32)
   || (c =? 133) || (c =? 160) || (c =? 5760)
   || (8192 <=? c) && (c <=? 8202)
   || (c =? 8232) || (c =? 8233) || (c =? 8239) || (c =? 8287)
   || (c =? 12288))%N.

(** [s.split()]: maximal runs of non-space characters; [cur] is the
    current run, reversed. *)
Fixpoint split_aux (cur : str) (s : str) : list str :=
  match s with
  | [] => match cur with [] => [] | _ => [rev cur] end
  | c :: r =>
    if isspace c
    then match cur with
         | [] => split_aux [] r
         | _ => rev cur :: split_aux [] r
         end
    else split_aux (c :: cur) r
  end.

Definition split (s : str) : list str := split_aux [] s.

(** [" ".join(parts)]. *)
Fixpoint join (sep : str) (parts : list str) : str :=
  match parts with
  | [] => []
  | [p] => p
  | p :: rest => p ++ sep ++ join sep rest
  end.

Fixpoint startswith (p s : str) : bool :=
  match p, s with
  | [], _ => true
  | _ :: _, [] => false
  | c :: p', d :: s' => (c =? d)%N && startswith p' s'
  end.

(** [sub in s]. *)
Fixpoint contains (sub s : str) : bool :=
  startswith sub s
  || match s with [] => false | _ :: r => contains sub r end.

(** [s.count(sub)]: occurrences that do not overlap, scanning from the
    left; the empty string occurs [len(s) + 1] times. *)
Fixpoint count_from (sub s : str) (skip : nat) : nat :=
  match s with
  | [] => 0
  | _ :: r =>
    match skip with
    | S k => count_from sub r k
    | O => if startswith sub s
           then S (count_from sub r (length sub - 1))
           else count_from sub r 0
    end
  end.

Definition count (s sub : str) : nat :=
  match sub with
  | [] => S (length s)
  | _ => count_from sub s 0
  end.

(** [s.lower()] and [s.upper()] on the Latin and Cyrillic alphabets (the
    alphabets of the corpus); other code points are left as they are.
    The scorer and the router are stated for any case mapping; this one
    is used to run them. *)
Definition lower_cp (c : N) : N :=
  if ((65 <=? c) && (c <=? 90))%N then (c + 32)%N
  else if ((1040 <=? c) && (c <=? 1071))%N then (c + 32)%N
  else if ((1024 <=? c) && (c <=? 1039))%N then (c + 80)%N
  else if (c =? 1168)%N then 1169%N
  else c.

Definition upper_cp (c : N) : N :=
  if ((97 <=? c) && (c <=? 122))%N then (c - 32)%N
  else if ((1072 <=? c) && (c <=? 1103))%N then (c - 32)%N
  else if ((1104 <=? c) && (c <=? 1119))%N then (c - 80)%N
  else if (c =? 1169)%N then 1168%N
  else c.

Definition lower (s : str) : str := map lower_cp s.
Definition upper (s : str) : str := map upper_cp s.

(** [any(p(x) for x in l)]. *)
Definition any {A} (p : A -> bool) (l : list A) : bool := existsb p l.

(** [a > b] on scores. *)
Definition Qgtb (a b : Q) : bool := negb (Qle_bool a b).

(** [max(0, x)]: Python returns its first argument unless a later one
    is strictly greater. *)
Definition max0 (x : Q) : Q := if Qgtb x 0 then x else 0%Q.

(** A dict read only through [get]: an association list. *)
Definition dict (V : Type) := list (str * V).

Fixpoint dict_get {V} (d : dict V) (k : str) : option V :=
  match d with
  | [] => None
  | (k', v) :: r => if str_eqb k' k then Some v else dict_get r k
  end.

(** [l[:k]] for an [int] k: a negative k counts from the end. *)
Definition slice_to {A} (l : list A) (k : Z) : list A :=
  if (0 <=? k)%Z then firstn (Z.to_nat k) l
  else firstn (length l - Z.to_nat (- k)) l.

(** Longest common subsequence, for [rapidfuzz.fuzz.ratio]. *)
Fixpoint lcs (a b : str) : nat :=
  match a with
  | [] => 0
  | x :: a' =>
    (fix inner (b : str) : nat :=
       match b with
       | [] => 0
       | y :: b' =>
         if (x =? y)%N then S (lcs a' b')
         else Nat.max (lcs a' b) (inner b')
       end) b
  end.

(** [rapidfuzz.fuzz.ratio]: the normalised Indel similarity on the scale
    0-100, [100 * 2 * lcs / (len a + len b)], and 100 for two empty
    strings.  The library is not part of the repository; the scorer is
    stated for any similarity function and this one is used to run it. *)
Definition indel_ratio (a b : str) : Q :=
  match (length a + length b)%nat with
  | O => 100%Q
  | S n => (Z.of_nat (200 * lcs a b) # Pos.of_succ_nat n)%Q
  end.

End Py.

Import Py.

(* ===================================================================== *)
(** ** Exceptions, JSON values and the trace of calls *)
(* ===================================================================== *)

Module Effects.

(** The exceptions the modelled code can meet. *)
Inductive Exn :=
| TypeError
| AttributeError
| IndexError
| KeyError
| ValidationError
| ServiceError (msg : str).

(** [str(e)] of an exception; for the built-in ones only the name is
    kept. *)
Definition exn_str (e : Exn) : str :=
  match e with
  | TypeError => u "TypeError"
  | AttributeError => u "AttributeError"
  | IndexError => u "IndexError"
  | KeyError => u "KeyError"
  | ValidationError => u "ValidationError"
  | ServiceError msg => msg
  end.

(** [str(z)] of an [int]. *)
Definition str_of_Z (z : Z) : str :=
  map N_of_ascii (list_ascii_of_string (NilZero.string_of_int (Z.to_int z))).

(** A computation that returns or raises. *)
Inductive Exc (A : Type) :=
| Ok (a : A)
| Err (e : Exn).
Arguments Ok {A} a.
Arguments Err {A} e.

(** What [json.loads] produces; the fields of a decision built from the
    reasoning service's reply are such values, whatever their
    annotations say. *)
#[warnings="-register-all"]
Inductive JValue :=
| JNull
| JBool (b : bool)
| JInt (z : Z)
| JFloat (q : Q)
| JStr (s : str)
| JList (l : list JValue)
| JDict (d : list (str * JValue)).

(** Truth value of an object in an [if]. *)
Definition truthy (v : JValue) : bool :=
  match v with
  | JNull => false
  | JBool b => b
  | JInt z => negb (z =? 0)%Z
  | JFloat q => negb (Qeq_bool q 0)
  | JStr s => match s with [] => false | _ => true end
  | JList l => match l with [] => false | _ => true end
  | JDict d => match d with [] => false | _ => true end
  end.

(** Truth value of an [Optional[str]]. *)
Definition truthy_str (o : option str) : bool :=
  match o with
  | Some (_ :: _) => true
  | _ => false
  end.

(** [parsed.get(key, default)]. *)
Definition get_default (d : dict JValue) (key : string) (default : JValue)
  : JValue :=
  match dict_get d (u key) with
  | Some v => v
  | None => default
  end.

(** One call of the reasoning service.  Through Gemini the status is not
    looked at; through LM Studio a status other than 200 is an error.
    Reading the text of the reply may raise as well. *)
Inductive Reply :=
| CallRaises (e : Exn)
| Replied (status : Z) (text : Exc str).

(** The calls one exchange makes, in order. *)
Inductive Event :=
| EvRouteLLM (retry : nat)
| EvSearch (attempt : nat) (query : JValue)
| EvValidate (attempt : nat)
| EvValidateLLM (attempt retry : nat).

(** A computation that logs its calls and returns or raises. *)
Definition M (A : Type) : Type := list Event * Exc A.

Definition ret {A} (a : A) : M A := ([], Ok a).
Definition raise {A} (e : Exn) : M A := ([], Err e).
Definition emit (ev : Event) : M unit := ([ev], Ok tt).
Definition lift {A} (r : Exc A) : M A := ([], r).

Definition bind {A B} (m : M A) (f : A -> M B) : M B :=
  match m with
  | (log, Ok a) => let (log', r) := f a in (log ++ log', r)
  | (log, Err e) => (log, Err e)
  end.

(** Sequencing of computations that may raise. *)
Definition ebind {A B} (r : Exc A) (f : A -> Exc B) : Exc B :=
  match r with
  | Ok a => f a
  | Err e => Err e
  end.

(** [l[i]]. *)
Definition index {A} (l : list A) (i : nat) : Exc A :=
  match nth_error l i with
  | Some a => Ok a
  | None => Err IndexError
  end.

(** [[f(x) for x in l]] for an [f] that may raise. *)
Fixpoint mapE {A B} (f : A -> Exc B) (l : list A) : Exc (list B) :=
  match l with
  | [] => Ok []
  | x :: r =>
    ebind (f x) (fun y => ebind (mapE f r) (fun ys => Ok (y :: ys)))
  end.

Definition trace {A} (m : M A) : list Event := fst m.
Definition outcome {A} (m : M A) : Exc A := snd m.

Definition is_validate (ev : Event) : bool :=
  match ev with EvValidate _ => true | _ => false end.
Definition is_search (ev : Event) : bool :=
  match ev with EvSearch _ _ => true | _ => false end.
Definition is_validate_llm (ev : Event) : bool :=
  match ev with EvValidateLLM _ _ => true | _ => false end.
Definition is_route_llm (ev : Event) : bool :=
  match ev with EvRouteLLM _ => true | _ => false end.

Definition count_events (p : Event -> bool) (log : list Event) : nat :=
  List.length (filter p log).

Lemma count_events_app p l1 l2 :
  count_events p (l1 ++ l2) = count_events p l1 + count_events p l2.
Proof. unfold count_events. now rewrite filter_app, length_app. Qed.

Lemma trace_bind {A B} (m : M A) (f : A -> M B) :
  trace (bind m f)
  = match outcome m with
    | Ok a => trace m ++ trace (f a)
    | Err _ => trace m
    end.
Proof.
  destruct m as [log [a|e]]; simpl; [|reflexivity].
  destruct (f a); reflexivity.
Qed.

(** [bounded p n m]: the computation [m] logs at most [n] events that
    satisfy [p]. *)
Definition bounded {A} (p : Event -> bool) (n : nat) (m : M A) : Prop :=
  count_events p (trace m) <= n.

Lemma bounded_ret {A} p (a : A) : bounded p 0 (ret a).
Proof. unfold bounded, count_events. simpl. lia. Qed.

Lemma bounded_lift {A} p (r : Exc A) : bounded p 0 (lift r).
Proof. unfold bounded, count_events. simpl. lia. Qed.

Lemma bounded_emit p ev : bounded p (if p ev then 1 else 0) (emit ev).
Proof.
  unfold bounded, count_events. simpl. destruct (p ev); simpl; lia.
Qed.

Lemma bounded_weaken {A} p n n' (m : M A) :
  n <= n' -> bounded p n m -> bounded p n' m.
Proof. unfold bounded. lia. Qed.

Lemma bounded_bind {A B} p n1 n2 (m : M A) (f : A -> M B) :
  bounded p n1 m -> (forall a, bounded p n2 (f a)) ->
  bounded p (n1 + n2) (bind m f).
Proof.
  unfold bounded. intros H1 H2. rewrite trace_bind.
  destruct (outcome m) as [a|e]; [|lia].
  rewrite count_events_app. specialize (H2 a). lia.
Qed.

Lemma outcome_bind {A B} (m : M A) (f : A -> M B) :
  outcome (bind m f)
  = match outcome m with
    | Ok a => outcome (f a)
    | Err e => Err e
    end.
Proof.
  destruct m as [log [a|e]]; simpl; [|reflexivity].
  destruct (f a); reflexivity.
Qed.

End Effects.

Import Effects.

Notation "x <- m ;; k" := (bind m (fun x => k))
  (at level 61, m at next level, right associativity).
Notation "m ;;; k" := (bind m (fun _ => k))
  (at level 61, right associativity).
Notation "x <~ r ;; k" := (ebind r (fun x => k))
  (at level 61, r at next level, right associativity).

(* ===================================================================== *)
(** ** query_router.py *)
(* ===================================================================== *)

Module QueryRouter.

Local Open Scope Q_scope.

(** [class RouteDecision(BaseModel)]. *)
Record RouteDecision := mkRouteDecision {
  search_scope : str;
  search_level : str;
  target_entity : option str;
  search_intent : str;
  enhancement_keywords : list str;
  confidence : Q;
  reasoning : str;
  needs_database_search : bool
}.

(** An entity as the router reads it from
    [nau_structure.extract_entities_from_text]: the keys ["type"],
    ["code"], ["faculty_code"], ["matched_alias"] and ["full_name"]. *)
Record Entity := mkEntity {
  type : str;
  code : str;
  faculty_code : str;
  matched_alias : str;
  full_name : str
}.

(** One message of the history: [{"role": ..., "content": ...}]. *)
Record Message := mkMessage {
  role : str;
  content : str
}.

(** The arguments of the [RouteDecision(...)] call of [_llm_routing], as
    read from the parsed reply. *)
Record RouteFields := mkRouteFields {
  f_search_scope : JValue;
  f_search_level : JValue;
  f_target_entity : JValue;
  f_search_intent : JValue;
  f_enhancement_keywords : JValue;
  f_confidence : JValue;
  f_reasoning : JValue;
  f_needs_database_search : JValue
}.

(** What one pass through the body of a retry loop does. *)
Inductive Step (A : Type) :=
| Return (a : A)
| Continue.
Arguments Return {A} a.
Arguments Continue {A}.

Section Router.

(** [str.lower] and [str.upper]. *)
Variable lower upper : str -> str.

(** [nau_structure.extract_entities_from_text]; the module is not among
    the sources, the router is stated for any extractor. *)
Variable extract_entities_from_text : str -> list Entity.

(** [list(set(l))]: the elements of [l] in the iteration order of the
    set, which Python does not fix. *)
Variable list_of_set : list str -> list str.

(** [settings.USE_GEMINI]. *)
Variable USE_GEMINI : bool.

(** The reasoning service: its reply to the call of retry [n]. *)
Variable llm : nat -> Reply.

(** [_extract_json_from_llm], built from [re.search] and [json.loads]:
    the parsed object, or [None]. *)
Variable _extract_json_from_llm : str -> option (dict JValue).

(** Validation of the fields by pydantic when [RouteDecision(...)] is
    built; it raises on fields it does not accept. *)
Variable pydantic_RouteDecision : RouteFields -> Exc RouteDecision.

Definition semantic_expansions : list (str * list str) :=
  [ (u "політ", [u "конференція"; u "захід"; u "зустріч"; u "семінар"; u "форум"; u "збори"]);
    (u "зустріч", [u "засідання"; u "нарада"; u "конференція"; u "семінар"]);
    (u "подія", [u "захід"; u "конференція"; u "форум"; u "семінар"; u "святкування"]);
    (u "викладач", [u "професор"; u "доцент"; u "завідувач"; u "науковець"; u "педагог"]);
    (u "завідувач", [u "завкафедри"; u "керівник кафедри"; u "декан"; u "професор"]);
    (u "навчання", [u "освіта"; u "заняття"; u "пари"; u "лекції"; u "семінари"; u "курс"]);
    (u "розклад", [u "пари"; u "заняття"; u "графік"; u "час занять"]);
    (u "дослідження", [u "наука"; u "наукова робота"; u "публікації"; u "конференції"]);
    (u "конференція", [u "симпозіум"; u "форум"; u "наукова подія"; u "семінар"]);
    (u "вступ", [u "абітурієнт"; u "прийом"; u "документи"; u "конкурс"; u "зарахування"]);
    (u "контакти", [u "телефон"; u "адреса"; u "email"; u "зв'язок"; u "розташування"]) ].

Definition _detect_intent (query : str) : str :=
  let intent_patterns :=
    [ (u "schedule", [u "розклад"; u "пари"; u "заняття"; u "коли"; u "о котрій"]);
      (u "news", [u "новин"; u "подій"; u "останн"; u "що нового"; u "актуальн"]);
      (u "contacts", [u "контакт"; u "телефон"; u "адрес"; u "email"; u "де знаходиться"]);
      (u "events", [u "захід"; u "конференція"; u "семінар"; u "зустріч"; u "форум"; u "політ"]);
      (u "info", [u "інформац"; u "розкажи"; u "що"; u "як"; u "хто"; u "викладач"]) ] in
  match find (fun ip => any (fun pattern => contains pattern query) (snd ip))
             intent_patterns with
  | Some (intent, _) => intent
  | None => u "info"
  end.

Definition _generate_enhancement_keywords (query intent : str) : list str :=
  let keywords :=
    flat_map (fun ke => if contains (fst ke) query
                        then firstn 3 (snd ke) else [])
             semantic_expansions in
  let intent_keywords :=
    [ (u "schedule", [u "графік"; u "час"; u "аудиторія"]);
      (u "news", [u "подія"; u "оголошення"; u "інформація"]);
      (u "contacts", [u "зв'язок"; u "телефон"; u "адреса"]);
      (u "events", [u "подія"; u "зустріч"; u "захід"]);
      (u "info", [u "інформація"; u "дані"; u "відомості"]) ] in
  let keywords :=
    keywords ++ match dict_get intent_keywords intent with
                | Some l => l
                | None => []
                end in
  firstn 5 (list_of_set keywords).

Definition _build_reasoning (entities : list Entity)
    (context_scope context_entity : option str)
    (search_scope search_level : str) (target_entity : option str) : str :=
  match entities with
  | entity :: _ =>
    u "Знайдено: " ++ matched_alias entity ++ u " → " ++ full_name entity
  | [] =>
    match context_entity, context_scope with
    | Some ((_ :: _) as ce), _ => u "Контекст з історії: " ++ ce
    | _, Some ((_ :: _) as cs) => u "Контекст з історії: факультет " ++ cs
    | _, _ =>
      if negb (str_eqb search_scope (u "global"))
      then u "Визначено факультет: " ++ search_scope
      else u "Загальний запит про НАУ"
    end
  end.

(** The block "АНАЛІЗ ІСТОРІЇ" of [_heuristic_routing]: the locals
    [context_scope] and [context_entity]. *)
Definition history_context (history : option (list Message))
  : option str * option str :=
  match history with
  | Some ((_ :: _) as h) =>
    let recent_history :=
      if (6 <? List.length h)%nat then skipn (List.length h - 6) h else h in
    let history_text := join (u " ") (map content recent_history) in
    let history_entities := extract_entities_from_text history_text in
    match rev history_entities with
    | last_entity :: _ =>
      if str_eqb (type last_entity) (u "faculty")
      then (Some (code last_entity), None)
      else if str_eqb (type last_entity) (u "department")
      then (Some (faculty_code last_entity), Some (code last_entity))
      else (None, None)
    | [] => (None, None)
    end
  | _ => (None, None)
  end.

(** The block "ПРІОРИТЕТИ" of [_heuristic_routing]: the locals
    [search_scope], [search_level], [target_entity] and [confidence]
    after the [if / elif / elif] chain. *)
Definition priorities (entities : list Entity)
    (context_scope context_entity group_name : option str)
  : str * str * option str * Q :=
  let default := (u "global", u "general", @None str, 0.5) in
  match entities with
  | entity :: _ =>
    if str_eqb (type entity) (u "faculty")
    then (code entity, u "faculty", None, 0.95)
    else if str_eqb (type entity) (u "department")
    then (faculty_code entity, u "department", Some (code entity), 0.98)
    else default
  | [] =>
    match context_scope with
    | Some ((_ :: _) as cs) =>
      if truthy_str context_entity
      then (cs, u "department", context_entity, 0.75)
      else (cs, u "faculty", None, 0.70)
    | _ =>
      match group_name with
      | Some ((_ :: _) as g) =>
        if any (fun x => contains x (upper g))
               [u "ІР"; u "КІТ"; u "КІ"; u "ПМ"; u "КБ"]
        then (u "ФКНТ", u "faculty", None, 0.60)
        else default
      | _ => default
      end
    end
  end.

Definition _heuristic_routing (query : str) (history : option (list Message))
    (group_name : option str) : RouteDecision :=
  let query_lower := lower query in
  let entities := extract_entities_from_text query in
  let '(context_scope, context_entity) := history_context history in
  let '(search_scope, search_level, target_entity, confidence) :=
    priorities entities context_scope context_entity group_name in
  let search_intent := _detect_intent query_lower in
  let enhancement_keywords :=
    _generate_enhancement_keywords query_lower search_intent in
  let reasoning :=
    _build_reasoning entities context_scope context_entity
                     search_scope search_level target_entity in
  let greeting_words :=
    [u "привіт"; u "привет"; u "дякую"; u "спасибо"; u "пока"; u "бувай";
     u "hi"; u "hello"; u "bye"] in
  let question_words :=
    [u "що"; u "як"; u "коли"; u "де"; u "хто"; u "чому"; u "який"; u "яка";
     u "яке"; u "чи"] in
  let query_lower := lower query in
  let is_greeting := any (fun word => contains word query_lower) greeting_words in
  let has_question := any (fun word => contains word query_lower) question_words in
  let needs_search :=
    negb ((List.length (split query) <=? 3)%nat && is_greeting) || has_question in
  {| search_scope := search_scope;
     search_level := search_level;
     target_entity := target_entity;
     search_intent := search_intent;
     enhancement_keywords := enhancement_keywords;
     confidence := 0.5;
     reasoning := reasoning;
     needs_database_search := needs_search |}.

(** The fields [_llm_routing] passes to [RouteDecision(...)]. *)
Definition route_fields (parsed : dict JValue) : RouteFields :=
  {| f_search_scope := get_default parsed "search_scope" (JStr (u "global"));
     f_search_level := get_default parsed "search_level" (JStr (u "general"));
     f_target_entity := get_default parsed "target_entity" JNull;
     f_search_intent := get_default parsed "search_intent" (JStr (u "info"));
     f_enhancement_keywords := get_default parsed "enhancement_keywords" (JList []);
     f_confidence := get_default parsed "confidence" (JFloat 0.5);
     f_reasoning := get_default parsed "reasoning" (JStr (u "LLM routing"));
     f_needs_database_search :=
       get_default parsed "needs_database_search" (JBool true) |}.

(** The body of the retry loop of [_llm_routing] at one [attempt]; the
    [except Exception] branch is [on_exception]. *)
Definition routing_attempt (max_retries attempt : nat)
  : Step (option RouteDecision) :=
  let on_exception :=
    if (attempt <? max_retries)%nat then Continue else Return None in
  let on_text (text : Exc str) :=
    match text with
    | Err _ => on_exception
    | Ok llm_response =>
      match _extract_json_from_llm llm_response with
      | Some ((_ :: _) as parsed) =>
        match pydantic_RouteDecision (route_fields parsed) with
        | Ok decision => Return (Some decision)
        | Err _ => on_exception
        end
      | _ => if (attempt <? max_retries)%nat then Continue else Return None
      end
    end in
  match llm attempt with
  | CallRaises _ => on_exception
  | Replied status text =>
    if USE_GEMINI then on_text text
    else if (status =? 200)%Z then on_text text
    else if (attempt <? max_retries)%nat then Continue else Return None
  end.

(** [for attempt in range(1, max_retries + 1)] of [_llm_routing]. *)
Fixpoint routing_loop (max_retries : nat) (attempts : list nat)
  : M (option RouteDecision) :=
  match attempts with
  | [] => ret None
  | attempt :: rest =>
    emit (EvRouteLLM attempt) ;;;
    match routing_attempt max_retries attempt with
    | Return r => ret r
    | Continue => routing_loop max_retries rest
    end
  end.

Definition _llm_routing (query : str) (history : option (list Message))
    (group_name : option str) (max_retries : nat) : M (option RouteDecision) :=
  routing_loop max_retries (seq 1 max_retries).

Definition route_query (query : str) (history : option (list Message))
    (group_name : option str) : M RouteDecision :=
  llm_decision <- _llm_routing query history group_name 3 ;;
  match llm_decision with
  | Some decision => ret decision
  | None => ret (_heuristic_routing query history group_name)
  end.

(** *** Properties of the heuristic route *)

(** The local [confidence] of [_heuristic_routing] is 0.5 without a signal
    and one of the tiers 0.95, 0.98, 0.75, 0.70, 0.60 otherwise; the
    decision returned does not carry it. *)
Lemma priorities_confidence_tiers entities context_scope context_entity group_name :
  let c := snd (priorities entities context_scope context_entity group_name) in
  c = 0.5 \/ c = 0.95 \/ c = 0.98 \/ c = 0.75 \/ c = 0.70 \/ c = 0.60.
Proof.
  unfold priorities.
  destruct entities as [|entity ?].
  - destruct context_scope as [[|? ?]|]; simpl;
      try (destruct (truthy_str context_entity); simpl; tauto);
      destruct group_name as [[|? ?]|]; simpl; try tauto;
      match goal with |- context [if ?b then _ else _] => destruct b end;
      simpl; tauto.
  - destruct (str_eqb (type entity) (u "faculty")); simpl; [tauto|].
    destruct (str_eqb (type entity) (u "department")); simpl; tauto.
Qed.

(** The fields of the decision are the locals of the priority chain, and
    the confidence is the literal. *)
Lemma heuristic_routing_locals
    (query : str) (history : option (list Message)) (group_name : option str) :
  let d := _heuristic_routing query history group_name in
  let ctx := history_context history in
  let loc := priorities (extract_entities_from_text query)
                        (fst ctx) (snd ctx) group_name in
  confidence d = 0.5
  /\ search_scope d = fst (fst (fst loc))
  /\ search_level d = snd (fst (fst loc))
  /\ target_entity d = snd (fst loc).
Proof.
  unfold _heuristic_routing.
  destruct (history_context history) as [context_scope context_entity].
  cbn [fst snd].
  destruct (priorities (extract_entities_from_text query)
                       context_scope context_entity group_name)
    as [[[scope level] target] conf].
  cbn. repeat split.
Qed.

Lemma str_eqb_diff (a b : str) : a <> b -> str_eqb a b = false.
Proof.
  intro H. destruct (str_eqb a b) eqn:E; [|reflexivity].
  now apply str_eqb_eq in E.
Qed.

(** The history context in terms of the entities found in the last six
    messages. *)
Lemma history_context_last (history : option (list Message)) :
  history_context history
  = match
      rev (match history with
           | Some ((_ :: _) as h) =>
             extract_entities_from_text
               (join (u " ")
                  (map content
                     (if (6 <? List.length h)%nat
                      then skipn (List.length h - 6) h else h)))
           | _ => []
           end)
    with
    | last_entity :: _ =>
      if str_eqb (type last_entity) (u "faculty")
      then (Some (code last_entity), None)
      else if str_eqb (type last_entity) (u "department")
      then (Some (faculty_code last_entity), Some (code last_entity))
      else (None, None)
    | [] => (None, None)
    end.
Proof. destruct history as [[|m h]|]; reflexivity. Qed.

(** C1, as the code has it: every decision of the heuristic path carries
    the confidence 0.5, whether or not an entity, a history context or a
    group was found.  Scope, level and target entity follow the first
    signal found.  First the question: its first entity decides, a
    faculty with its code, a department with its faculty and its own
    code, and an entity of another type leaves the defaults, whatever
    history and group say.  Then, without an entity in the question, the
    history: the last entity found in the last six messages decides, if
    it gives a scope that is not empty, whatever the group says.  Last,
    without either, the group code: one of the five patterns in its upper
    case gives the faculty "ФКНТ", and otherwise the defaults stay. *)
Theorem heuristic_routing_confidence_is_half
    (query : str) (history : option (list Message)) (group_name : option str) :
  let d := _heuristic_routing query history group_name in
  let entities := extract_entities_from_text query in
  let history_entities :=
    match history with
    | Some ((_ :: _) as h) =>
      extract_entities_from_text
        (join (u " ")
           (map content
              (if (6 <? List.length h)%nat
               then skipn (List.length h - 6) h else h)))
    | _ => []
    end in
  let group_codes := [u "ІР"; u "КІТ"; u "КІ"; u "ПМ"; u "КБ"] in
  confidence d = 0.5
  /\ (forall entity others,
        entities = entity :: others ->
        (type entity = u "faculty" ->
         search_scope d = code entity /\ search_level d = u "faculty"
         /\ target_entity d = None)
        /\ (type entity = u "department" ->
            search_scope d = faculty_code entity
            /\ search_level d = u "department"
            /\ target_entity d = Some (code entity))
        /\ (type entity <> u "faculty" -> type entity <> u "department" ->
            search_scope d = u "global" /\ search_level d = u "general"
            /\ target_entity d = None))
  /\ (entities = [] ->
      forall earlier last,
        history_entities = earlier ++ [last] ->
        (type last = u "faculty" -> code last <> [] ->
         search_scope d = code last /\ search_level d = u "faculty"
         /\ target_entity d = None)
        /\ (type last = u "department" -> faculty_code last <> [] ->
            search_scope d = faculty_code last
            /\ (code last <> [] ->
                search_level d = u "department"
                /\ target_entity d = Some (code last))
            /\ (code last = [] ->
                search_level d = u "faculty" /\ target_entity d = None)))
  /\ (entities = [] ->
      (history_entities = []
       \/ exists earlier last,
            history_entities = earlier ++ [last]
            /\ (type last = u "faculty" -> code last = [])
            /\ (type last = u "department" -> faculty_code last = [])) ->
      (forall g x,
         group_name = Some g -> g <> [] ->
         In x group_codes -> contains x (upper g) = true ->
         search_scope d = u "ФКНТ" /\ search_level d = u "faculty"
         /\ target_entity d = None)
      /\ ((group_name = None \/ group_name = Some []
           \/ exists g, group_name = Some g
                /\ forall x, In x group_codes ->
                             contains x (upper g) = false) ->
          search_scope d = u "global" /\ search_level d = u "general"
          /\ target_entity d = None)).
Proof.
  cbv zeta.
  destruct (heuristic_routing_locals query history group_name)
    as (Hconf & Hscope & Hlevel & Htarget).
  cbv zeta in Hscope, Hlevel, Htarget.
  rewrite Hscope, Hlevel, Htarget. clear Hscope Hlevel Htarget.
  rewrite history_context_last.
  set (history_entities :=
         match history with
         | Some ((_ :: _) as h) =>
           extract_entities_from_text
             (join (u " ")
                (map content
                   (if (6 <? List.length h)%nat
                    then skipn (List.length h - 6) h else h)))
         | _ => []
         end).
  assert (Hdf : str_eqb (u "department") (u "faculty") = false)
    by (vm_compute; reflexivity).
  split; [exact Hconf|]. split; [|split].
  - intros entity others Hent. rewrite Hent. unfold priorities.
    split; [|split].
    + intro Ht. rewrite Ht, str_eqb_refl. cbn [fst snd]. repeat split.
    + intro Ht. rewrite Ht, Hdf, str_eqb_refl. cbn [fst snd]. repeat split.
    + intros Hf Hd. rewrite (str_eqb_diff Hf), (str_eqb_diff Hd).
      cbn [fst snd]. repeat split.
  - intros Hent earlier last Hhe. rewrite Hent, Hhe, rev_app_distr.
    cbn [rev app]. split.
    + intros Ht Hcode. rewrite Ht, str_eqb_refl. cbn [fst snd].
      unfold priorities. destruct (code last) as [|c r]; [now destruct Hcode|].
      cbn [truthy_str fst snd]. repeat split.
    + intros Ht Hfac. rewrite Ht, Hdf, str_eqb_refl. cbn [fst snd].
      unfold priorities.
      destruct (faculty_code last) as [|c r]; [now destruct Hfac|].
      destruct (code last) as [|c' r']; cbn [truthy_str fst snd].
      * split; [reflexivity|]. split; [intro H; now destruct H|].
        intros _. split; reflexivity.
      * split; [reflexivity|]. split; [intros _; split; reflexivity|].
        discriminate.
  - intros Hent Hnone. rewrite Hent.
    assert (Hctx : forall context_entity,
      let cs := fst (match rev history_entities with
                     | last_entity :: _ =>
                       if str_eqb (type last_entity) (u "faculty")
                       then (Some (code last_entity), None)
                       else if str_eqb (type last_entity) (u "department")
                       then (Some (faculty_code last_entity),
                             Some (code last_entity))
                       else (None, None)
                     | [] => (None, None)
                     end) in
      priorities [] cs context_entity group_name
      = priorities [] None context_entity group_name).
    { intro context_entity. cbv zeta.
      destruct Hnone as [Hhe|(earlier & last & Hhe & Hfac & Hdep)];
        rewrite Hhe; [reflexivity|].
      rewrite rev_app_distr. cbn [rev app].
      destruct (str_eqb (type last) (u "faculty")) eqn:Ef.
      - apply str_eqb_eq in Ef. rewrite (Hfac Ef). reflexivity.
      - destruct (str_eqb (type last) (u "department")) eqn:Ed;
          [|reflexivity].
        apply str_eqb_eq in Ed. rewrite (Hdep Ed). reflexivity. }
    cbv zeta in Hctx. rewrite Hctx. clear Hctx.
    unfold priorities. split.
    + intros g x Hg Hne Hin Hx. rewrite Hg.
      destruct g as [|c r]; [now destruct Hne|].
      assert (Hany : any (fun x0 => contains x0 (upper (c :: r)))
                         [u "ІР"; u "КІТ"; u "КІ"; u "ПМ"; u "КБ"] = true).
      { unfold any. apply existsb_exists. now exists x. }
      rewrite Hany. cbn [fst snd]. repeat split.
    + intros [Hg|[Hg|(g & Hg & Hno)]]; rewrite Hg;
        try (cbn [fst snd]; repeat split; fail).
      destruct g as [|c r]; [cbn [fst snd]; repeat split|].
      assert (Hany : any (fun x0 => contains x0 (upper (c :: r)))
                         [u "ІР"; u "КІТ"; u "КІ"; u "ПМ"; u "КБ"] = false).
      { unfold any. destruct (existsb _ _) eqn:E; [|reflexivity].
        apply existsb_exists in E. destruct E as (x & Hin & Hx).
        rewrite (Hno x Hin) in Hx. discriminate Hx. }
      rewrite Hany. cbn [fst snd]. repeat split.
Qed.

(** The model path calls the reasoning service at most [max_retries]
    times and returns a decision or [None]; it never raises. *)
Lemma llm_routing_bounded query history group_name max_retries :
  let m := _llm_routing query history group_name max_retries in
  bounded is_route_llm max_retries m
  /\ exists r, outcome m = Ok r.
Proof.
  cbv zeta. unfold _llm_routing.
  assert (H : forall attempts,
    bounded is_route_llm (List.length attempts)
            (routing_loop max_retries attempts)
    /\ exists r, outcome (routing_loop max_retries attempts) = Ok r).
  { induction attempts as [|attempt rest [IH1 [r IH2]]];
      cbn [routing_loop List.length].
    - split; [apply bounded_ret|now eexists].
    - destruct (routing_attempt max_retries attempt) as [r'|].
      + split; [unfold bounded, count_events; simpl; lia|now exists r'].
      + split.
        * apply (@bounded_bind _ _ is_route_llm 1 (List.length rest));
            [apply (bounded_emit is_route_llm)|intros _; exact IH1].
        * exists r. rewrite outcome_bind. exact IH2. }
  specialize (H (seq 1 max_retries)). now rewrite length_seq in H.
Qed.

(** Routing always hands a decision to its caller, after at most three
    calls of the reasoning service. *)
Lemma route_query_total query history group_name :
  let m := route_query query history group_name in
  bounded is_route_llm 3 m /\ exists d, outcome m = Ok d.
Proof.
  cbv zeta. unfold route_query.
  destruct (llm_routing_bounded query history group_name 3) as [Hb [r Hr]].
  split.
  - apply (@bounded_bind _ _ is_route_llm 3 0); [exact Hb|].
    intros [d|]; apply bounded_ret.
  - rewrite outcome_bind, Hr. destruct r as [d|]; now eexists.
Qed.

(** *** The model path: fallback and first usable reply *)

(** The decision one reply of the reasoning service yields: none when the
    call or the reading of the text raised, the status was not 200 (LM
    Studio), the text did not parse to a non-empty object, or pydantic
    refused the fields. *)
Definition reply_decision (r : Reply) : option RouteDecision :=
  match r with
  | CallRaises _ => None
  | Replied status text =>
    if USE_GEMINI || (status =? 200)%Z
    then match text with
         | Ok llm_response =>
           match _extract_json_from_llm llm_response with
           | Some ((_ :: _) as parsed) =>
             match pydantic_RouteDecision (route_fields parsed) with
             | Ok decision => Some decision
             | Err _ => None
             end
           | _ => None
           end
         | Err _ => None
         end
    else None
  end.

Lemma routing_attempt_reply max_retries attempt :
  routing_attempt max_retries attempt
  = match reply_decision (llm attempt) with
    | Some decision => Return (Some decision)
    | None => if (attempt <? max_retries)%nat then Continue else Return None
    end.
Proof.
  unfold routing_attempt, reply_decision.
  destruct (llm attempt) as [e|status [text|e]]; [reflexivity| |].
  - destruct USE_GEMINI; simpl.
    + destruct (_extract_json_from_llm text) as [[|kv parsed]|];
        try reflexivity.
      destruct (pydantic_RouteDecision _); reflexivity.
    + destruct (status =? 200)%Z; [|reflexivity].
      destruct (_extract_json_from_llm text) as [[|kv parsed]|];
        try reflexivity.
      destruct (pydantic_RouteDecision _); reflexivity.
  - destruct USE_GEMINI; simpl; [reflexivity|].
    destruct (status =? 200)%Z; reflexivity.
Qed.

(** When none of the three replies yields a decision, routing makes its
    three calls and answers with the heuristic decision. *)
Theorem route_query_falls_back_to_heuristic
    (query : str) (history : option (list Message)) (group_name : option str) :
  (forall attempt, (1 <= attempt <= 3)%nat ->
     reply_decision (llm attempt) = None) ->
  route_query query history group_name
  = ([EvRouteLLM 1; EvRouteLLM 2; EvRouteLLM 3],
     Ok (_heuristic_routing query history group_name)).
Proof.
  intro H. unfold route_query, _llm_routing.
  cbn [seq routing_loop]. rewrite !routing_attempt_reply.
  rewrite !H by lia. reflexivity.
Qed.

(** The first reply that yields a decision ends the routing: the decision
    is returned as it is, no further call is made and the heuristic is
    not consulted. *)
Theorem route_query_first_usable_reply
    (query : str) (history : option (list Message)) (group_name : option str)
    (k : nat) (decision : RouteDecision) :
  (1 <= k <= 3)%nat ->
  (forall attempt, (1 <= attempt < k)%nat ->
     reply_decision (llm attempt) = None) ->
  reply_decision (llm k) = Some decision ->
  route_query query history group_name
  = (map EvRouteLLM (seq 1 k), Ok decision).
Proof.
  intros Hk Hfail Hok. unfold route_query, _llm_routing.
  cbn [seq routing_loop]. rewrite !routing_attempt_reply.
  assert (Hcase : (k = 1 \/ k = 2 \/ k = 3)%nat) by lia.
  destruct Hcase as [-> | [-> | ->]].
  - rewrite Hok. reflexivity.
  - rewrite (Hfail 1%nat) by lia. rewrite Hok. reflexivity.
  - rewrite (Hfail 1%nat), (Hfail 2%nat) by lia. rewrite Hok. reflexivity.
Qed.

(** *** The shape of a heuristic decision *)

Lemma app_not_nil (B : Type) (a b : list B) : a <> [] -> a ++ b <> [].
Proof. destruct a; [congruence|discriminate]. Qed.

Lemma priorities_shape entities context_scope context_entity group_name :
  let loc := priorities entities context_scope context_entity group_name in
  let scope := fst (fst (fst loc)) in
  let level := snd (fst (fst loc)) in
  let target := snd (fst loc) in
  (level = u "faculty" /\ target = None)
  \/ (level = u "department" /\ target <> None)
  \/ (level = u "general" /\ target = None /\ scope = u "global").
Proof.
  cbv zeta. unfold priorities.
  destruct entities as [|entity others].
  - destruct context_scope as [[|c cs]|].
    + destruct group_name as [[|g gs]|]; cbn [fst snd]; try tauto.
      destruct (any _ _); cbn [fst snd]; tauto.
    + destruct context_entity as [[|e es]|]; cbn [truthy_str fst snd];
        try tauto.
      right; left. split; [reflexivity|discriminate].
    + destruct group_name as [[|g gs]|]; cbn [fst snd]; try tauto.
      destruct (any _ _); cbn [fst snd]; tauto.
  - destruct (str_eqb (type entity) (u "faculty")); cbn [fst snd]; [tauto|].
    destruct (str_eqb (type entity) (u "department")); cbn [fst snd];
      [|tauto].
    right; left. split; [reflexivity|discriminate].
Qed.

Lemma detect_intent_known query :
  In (_detect_intent query)
     [u "schedule"; u "news"; u "contacts"; u "events"; u "info"].
Proof.
  unfold _detect_intent.
  repeat (cbn [find fst snd];
          match goal with
          | |- context [if ?b then _ else _] => destruct b
          end;
          [cbn [In]; tauto|]).
  cbn [find In]. tauto.
Qed.

(** Every decision of the heuristic path is well formed: its level is
    one of faculty, department and general; it names a target entity
    exactly at department level; at general level its scope is "global";
    its intent is one of the five intents; it carries at most five
    keywords and a reasoning that is not empty. *)
Theorem heuristic_decision_well_formed
    (query : str) (history : option (list Message)) (group_name : option str) :
  let d := _heuristic_routing query history group_name in
  In (search_level d) [u "faculty"; u "department"; u "general"]
  /\ (target_entity d <> None <-> search_level d = u "department")
  /\ (search_level d = u "general" -> search_scope d = u "global")
  /\ In (search_intent d)
        [u "schedule"; u "news"; u "contacts"; u "events"; u "info"]
  /\ (List.length (enhancement_keywords d) <= 5)%nat
  /\ reasoning d <> [].
Proof.
  cbv zeta. unfold _heuristic_routing.
  destruct (history_context history) as [context_scope context_entity].
  pose proof (priorities_shape (extract_entities_from_text query)
                context_scope context_entity group_name) as Hshape.
  cbv zeta in Hshape.
  destruct (priorities (extract_entities_from_text query)
                       context_scope context_entity group_name)
    as [[[scope level] target] conf].
  cbn [fst snd] in Hshape.
  cbn [search_level target_entity search_scope search_intent
       enhancement_keywords reasoning].
  assert (Hfd : u "faculty" <> u "department")
    by (intro H; vm_compute in H; discriminate H).
  assert (Hgd : u "general" <> u "department")
    by (intro H; vm_compute in H; discriminate H).
  assert (Hfg : u "faculty" <> u "general")
    by (intro H; vm_compute in H; discriminate H).
  split; [|split; [|split; [|split; [|split]]]].
  - destruct Hshape as [[-> _] | [[-> _] | [-> _]]]; cbn [In]; tauto.
  - destruct Hshape as [[-> ->] | [[-> Ht] | [-> [-> _]]]]; split; intro H;
      congruence.
  - destruct Hshape as [[-> _] | [[-> _] | [_ [_ ->]]]]; intro H;
      [congruence|congruence|reflexivity].
  - apply detect_intent_known.
  - unfold _generate_enhancement_keywords. rewrite length_firstn. lia.
  - unfold _build_reasoning.
    assert (Hlit : forall s, u s <> [] -> forall t, u s ++ t <> [])
      by (intros s Hs t; now apply app_not_nil).
    destruct (extract_entities_from_text query) as [|entity others].
    + destruct context_entity as [[|e es]|];
        destruct context_scope as [[|c cs]|];
        try (apply Hlit; intro H; vm_compute in H; discriminate H);
        destruct (negb (str_eqb scope (u "global")));
        try (apply Hlit; intro H; vm_compute in H; discriminate H);
        intro H; vm_compute in H; discriminate H.
    + apply Hlit. intro H; vm_compute in H; discriminate H.
Qed.

(** An entity named in the question decides scope, level and target of
    the heuristic decision, whatever the history and the group say: a
    faculty gives its code as scope, a department its faculty as scope
    and its own code as target. *)
Theorem direct_mention_overrides_context
    (query : str) (entity : Entity) (others : list Entity)
    (history : option (list Message)) (group_name : option str) :
  extract_entities_from_text query = entity :: others ->
  let d := _heuristic_routing query history group_name in
  (type entity = u "faculty" ->
     search_scope d = code entity /\ search_level d = u "faculty"
     /\ target_entity d = None)
  /\ (type entity = u "department" ->
        search_scope d = faculty_code entity
        /\ search_level d = u "department"
        /\ target_entity d = Some (code entity)).
Proof.
  intros Hent. cbv zeta. unfold _heuristic_routing. rewrite Hent.
  destruct (history_context history) as [context_scope context_entity].
  unfold priorities.
  split; intro Htype; rewrite Htype.
  - rewrite str_eqb_refl. cbn. repeat split.
  - replace (str_eqb (u "department") (u "faculty")) with false
      by (vm_compute; reflexivity).
    rewrite str_eqb_refl. cbn. repeat split.
Qed.

End Router.

(** Modelled from the spec: [nau_structure.extract_entities_from_text] is
    not among the sources.  It extracts "organizational entities
    (faculty/department names or aliases) directly from the question
    text"; this instance knows the one alias "ФКНТ" of the faculty, which
    [test_heuristic_routing_with_faculty_mention] expects the real one to
    find.  It is used to run the router, the theorems hold for any
    extractor. *)
Definition sample_extract (text : str) : list Entity :=
  if contains (u "ФКНТ") text
  then [ {| type := u "faculty"; code := u "ФКНТ"; faculty_code := u "ФКНТ";
            matched_alias := u "ФКНТ";
            full_name := u "Факультет комп'ютерних наук та технологій" |} ]
  else [].

(** C1, as the specification states it, fails: the question names the
    faculty "ФКНТ", the entity is found and sets scope and level, and the
    confidence of the decision is 0.5, not 0.95 and not above 0.5. *)
Lemma heuristic_confidence_counterexample :
  let query := u "Розкажи про ФКНТ" in
  let d := _heuristic_routing Py.lower Py.upper sample_extract
             (nodup (list_eq_dec N.eq_dec)) query None None in
  List.length (sample_extract query) = 1%nat
  /\ search_scope d = u "ФКНТ"
  /\ search_level d = u "faculty"
  /\ confidence d = 0.5
  /\ ~ (0.5 < confidence d)
  /\ ~ (confidence d == 0.95).
Proof.
  vm_compute. repeat split; try reflexivity; intro H; discriminate H.
Qed.

(** The question names no entity, the history names the faculty: the
    history decides scope and level, and the confidence stays 0.5. *)
Lemma heuristic_routing_confidence_is_half_witness :
  let history := Some [mkMessage (u "user") (u "Розкажи про ФКНТ")] in
  let d := _heuristic_routing Py.lower Py.upper sample_extract
             (nodup (list_eq_dec N.eq_dec)) (u "А який там розклад?")
             history None in
  sample_extract (u "А який там розклад?") = []
  /\ confidence d = 0.5
  /\ search_scope d = u "ФКНТ" /\ search_level d = u "faculty"
  /\ target_entity d = None.
Proof.
  cbv zeta.
  assert (Hent : sample_extract (u "А який там розклад?") = [])
    by (vm_compute; reflexivity).
  split; [exact Hent|].
  pose proof (@heuristic_routing_confidence_is_half Py.lower Py.upper
                sample_extract (nodup (list_eq_dec N.eq_dec))
                (u "А який там розклад?")
                (Some [mkMessage (u "user") (u "Розкажи про ФКНТ")]) None)
    as H.
  cbv zeta in H. destruct H as (Hconf & _ & Hhist & _).
  split; [exact Hconf|].
  assert (Hlast : exists last,
            sample_extract
              (join (u " ")
                 (map content [mkMessage (u "user") (u "Розкажи про ФКНТ")]))
            = [] ++ [last]
            /\ type last = u "faculty" /\ code last = u "ФКНТ").
  { vm_compute. eexists. repeat split. }
  destruct Hlast as (last & Hhe & Htype & Hcode).
  rewrite <- Hcode.
  apply (proj1 (Hhist Hent [] last Hhe) Htype).
  rewrite Hcode. discriminate.
Defined.

(** The reasoning of a decision taken from the history names the whole
    code of the department, or of the faculty. *)
Example build_reasoning_history :
  _build_reasoning [] (Some (u "ФКНТ")) (Some (u "ІПЗ"))
                   (u "ФКНТ") (u "department") (Some (u "ІПЗ"))
  = u "Контекст з історії: ІПЗ"
  /\ _build_reasoning [] (Some (u "ФКНТ")) None
                      (u "ФКНТ") (u "faculty") None
     = u "Контекст з історії: факультет ФКНТ".
Proof. vm_compute. split; reflexivity. Qed.

(** *** Sample runs of the router *)

(** A reasoning service that is down. *)
Definition llm_down (attempt : nat) : Reply :=
  CallRaises (ServiceError (u "connection refused")).

(** A reasoning service that is down once and then replies. *)
Definition llm_second_try (attempt : nat) : Reply :=
  if (attempt =? 1)%nat then CallRaises (ServiceError (u "timeout"))
  else Replied 200 (Ok (u "(the reply of the reasoning service)")).

Definition sample_parse_route (text : str) : option (dict JValue) :=
  Some [(u "search_scope", JStr (u "ФКНТ")); (u "confidence", JFloat 0.9)].

Definition sample_decision : RouteDecision :=
  mkRouteDecision (u "ФКНТ") (u "general") None (u "info") [] 0.9
                  (u "LLM routing") true.

Definition sample_pydantic (fields : RouteFields) : Exc RouteDecision :=
  Ok sample_decision.

Lemma route_query_falls_back_to_heuristic_witness :
  (forall attempt, (1 <= attempt <= 3)%nat ->
     reply_decision false sample_parse_route sample_pydantic
                    (llm_down attempt) = None)
  /\ outcome (route_query Py.lower Py.upper sample_extract
                (nodup (list_eq_dec N.eq_dec)) false llm_down
                sample_parse_route sample_pydantic
                (u "Розкажи про ФКНТ") None None)
     = Ok (_heuristic_routing Py.lower Py.upper sample_extract
             (nodup (list_eq_dec N.eq_dec)) (u "Розкажи про ФКНТ") None None).
Proof.
  assert (H : forall attempt, (1 <= attempt <= 3)%nat ->
            reply_decision false sample_parse_route sample_pydantic
                           (llm_down attempt) = None)
    by (intros attempt _; reflexivity).
  split; [exact H|].
  rewrite (@route_query_falls_back_to_heuristic Py.lower Py.upper
             sample_extract (nodup (list_eq_dec N.eq_dec)) false llm_down
             sample_parse_route sample_pydantic
             (u "Розкажи про ФКНТ") None None H).
  reflexivity.
Defined.

Lemma route_query_first_usable_reply_witness :
  reply_decision false sample_parse_route sample_pydantic (llm_second_try 2)
  = Some sample_decision
  /\ route_query Py.lower Py.upper sample_extract
       (nodup (list_eq_dec N.eq_dec)) false llm_second_try
       sample_parse_route sample_pydantic (u "Розкажи про ФКНТ") None None
     = ([EvRouteLLM 1; EvRouteLLM 2], Ok sample_decision).
Proof.
  assert (Hk : (1 <= 2 <= 3)%nat) by lia.
  assert (Hfail : forall attempt, (1 <= attempt < 2)%nat ->
            reply_decision false sample_parse_route sample_pydantic
                           (llm_second_try attempt) = None).
  { intros attempt Ha. assert (attempt = 1)%nat as -> by lia. reflexivity. }
  assert (Hok : reply_decision false sample_parse_route sample_pydantic
                               (llm_second_try 2) = Some sample_decision)
    by reflexivity.
  split; [exact Hok|].
  exact (@route_query_first_usable_reply Py.lower Py.upper sample_extract
           (nodup (list_eq_dec N.eq_dec)) false llm_second_try
           sample_parse_route sample_pydantic (u "Розкажи про ФКНТ")
           None None 2 sample_decision Hk Hfail Hok).
Defined.

Lemma direct_mention_overrides_context_witness :
  let history := Some [mkMessage (u "user") (u "Що нового на ФАЕТ?")] in
  let d := _heuristic_routing Py.lower Py.upper sample_extract
             (nodup (list_eq_dec N.eq_dec)) (u "Розкажи про ФКНТ")
             history (Some (u "Б-171-22-1-ПМ")) in
  List.length (sample_extract (u "Розкажи про ФКНТ")) = 1%nat
  /\ search_scope d = u "ФКНТ" /\ search_level d = u "faculty"
  /\ target_entity d = None.
Proof.
  cbv zeta. split; [vm_compute; reflexivity|].
  assert (Hent : exists entity, sample_extract (u "Розкажи про ФКНТ")
                                = entity :: []
                                /\ type entity = u "faculty"
                                /\ code entity = u "ФКНТ").
  { vm_compute. eexists. repeat split. }
  destruct Hent as (entity & Hent & Htype & Hcode).
  rewrite <- Hcode.
  exact (proj1 (@direct_mention_overrides_context Py.lower Py.upper
                  sample_extract (nodup (list_eq_dec N.eq_dec))
                  (u "Розкажи про ФКНТ") entity []
                  (Some [mkMessage (u "user") (u "Що нового на ФАЕТ?")])
                  (Some (u "Б-171-22-1-ПМ")) Hent) Htype).
Defined.

(** *** [format_route_for_search] *)

(** The filters, in the order in which the keys are set. *)
Definition format_route_for_search (route : RouteDecision) : dict str :=
  let filters : dict str := [] in
  let filters :=
    if negb (str_eqb (search_scope route) (u "global"))
    then filters ++ [(u "faculty", search_scope route)] else filters in
  let filters :=
    match target_entity route with
    | Some ((_ :: _) as entity) => filters ++ [(u "department", entity)]
    | _ => filters
    end in
  let intent_to_category : dict (option str) :=
    [ (u "schedule", Some (u "schedule"));
      (u "news", Some (u "news"));
      (u "events", Some (u "events"));
      (u "contacts", Some (u "contacts"));
      (u "info", None) ] in
  let category :=
    match dict_get intent_to_category (search_intent route) with
    | Some c => c
    | None => None
    end in
  match category with
  | Some ((_ :: _) as c) => filters ++ [(u "category", c)]
  | _ => filters
  end.

End QueryRouter.

(* ===================================================================== *)
(** ** [list.sort(key=..., reverse=True)] *)
(* ===================================================================== *)

Module PySort.

Local Open Scope Q_scope.

Section Sort.

Variable A : Type.
Variable key : A -> Q.

(** [x] goes in front of the first element whose key is not greater than
    its own: elements with equal keys keep their order, as Python's
    stable sort guarantees also with [reverse=True]. *)
Fixpoint insert_desc (x : A) (l : list A) : list A :=
  match l with
  | [] => [x]
  | y :: r => if Qle_bool (key y) (key x) then x :: y :: r
              else y :: insert_desc x r
  end.

Fixpoint sort_desc (l : list A) : list A :=
  match l with
  | [] => []
  | x :: r => insert_desc x (sort_desc r)
  end.

(** No element is followed, anywhere later, by one with a greater key. *)
Definition descending (l : list A) : Prop :=
  StronglySorted (fun a b => key b <= key a) l.

Lemma insert_desc_perm x l : Permutation (x :: l) (insert_desc x l).
Proof.
  induction l as [|y r IH]; simpl.
  - apply Permutation_refl.
  - destruct (Qle_bool (key y) (key x)).
    + apply Permutation_refl.
    + eapply perm_trans; [apply perm_swap|]. now apply perm_skip.
Qed.

Lemma sort_desc_perm l : Permutation l (sort_desc l).
Proof.
  induction l as [|x r IH]; simpl.
  - apply perm_nil.
  - eapply perm_trans; [|apply insert_desc_perm]. now apply perm_skip.
Qed.

Lemma sort_desc_In x l : In x (sort_desc l) <-> In x l.
Proof.
  split; intro H.
  - eapply Permutation_in; [apply Permutation_sym, sort_desc_perm|exact H].
  - eapply Permutation_in; [apply sort_desc_perm|exact H].
Qed.

Lemma sort_desc_length l : List.length (sort_desc l) = List.length l.
Proof. symmetry. apply Permutation_length, sort_desc_perm. Qed.

Lemma insert_desc_descending x l :
  descending l -> descending (insert_desc x l).
Proof.
  unfold descending.
  induction l as [|y r IH]; simpl; intro Hs.
  - constructor; constructor.
  - inversion Hs as [|? ? Hr Hy]; subst.
    destruct (Qle_bool (key y) (key x)) eqn:E.
    + apply Qle_bool_iff in E.
      constructor; [exact Hs|].
      constructor; [exact E|].
      rewrite Forall_forall in *. intros z Hz.
      eapply Qle_trans; [apply Hy, Hz|exact E].
    + constructor; [now apply IH|].
      rewrite Forall_forall in *. intros z Hz.
      apply (Permutation_in _ (Permutation_sym (insert_desc_perm x r))) in Hz.
      destruct Hz as [<-|Hz]; [|now apply Hy].
      apply Qlt_le_weak, Qnot_le_lt. intro Hle.
      apply Qle_bool_iff in Hle. congruence.
Qed.

Lemma sort_desc_descending l : descending (sort_desc l).
Proof.
  induction l as [|x r IH]; simpl.
  - constructor.
  - now apply insert_desc_descending.
Qed.

Lemma In_firstn (B : Type) (x : B) n l : In x (firstn n l) -> In x l.
Proof.
  intro H. rewrite <- (firstn_skipn n l). apply in_or_app. now left.
Qed.

Lemma StronglySorted_app_r (B : Type) (R : B -> B -> Prop) l1 l2 :
  StronglySorted R (l1 ++ l2) -> StronglySorted R l2.
Proof.
  induction l1 as [|x r IH]; simpl; intro H; [exact H|].
  inversion H; subst. now apply IH.
Qed.

Lemma descending_firstn n l : descending l -> descending (firstn n l).
Proof.
  unfold descending. revert n.
  induction l as [|x r IH]; intros [|n] Hs; simpl; try constructor.
  - inversion Hs; subst. now apply IH.
  - inversion Hs as [|? ? _ Hx]; subst.
    rewrite Forall_forall in *. intros z Hz. apply Hx.
    eapply In_firstn, Hz.
Qed.

(** In a descending list an element with a strictly greater key stands
    before one with a smaller key. *)
Lemma descending_before x y l :
  descending l -> In x l -> In y l -> key y < key x ->
  exists l1 l2 l3, l = l1 ++ x :: l2 ++ y :: l3.
Proof.
  unfold descending. intros Hs Hx Hy Hlt.
  destruct (in_split _ _ Hx) as (l1 & l2 & ->).
  apply in_app_or in Hy.
  destruct Hy as [Hy|[Hy|Hy]].
  - exfalso.
    destruct (in_split _ _ Hy) as (m1 & m2 & ->).
    rewrite <- app_assoc in Hs. simpl in Hs.
    apply StronglySorted_app_r in Hs.
    inversion Hs as [|? ? _ Hall]; subst.
    rewrite Forall_forall in Hall.
    assert (Hin : In x (m2 ++ x :: l2)) by (apply in_or_app; right; now left).
    specialize (Hall _ Hin).
    apply (Qlt_irrefl (key y)). eapply Qlt_le_trans; eassumption.
  - exfalso. subst y. apply (Qlt_irrefl _ Hlt).
  - destruct (in_split _ _ Hy) as (m1 & m2 & ->).
    now exists l1, m1, m2.
Qed.

End Sort.

(** *** [list.sort(key=...)] *)

Section SortAscending.

Local Open Scope Q_scope.

Variable A : Type.
Variable key : A -> Q.

(** [x] goes in front of the first element whose key is not smaller than
    its own: the sort is stable. *)
Fixpoint insert_asc (x : A) (l : list A) : list A :=
  match l with
  | [] => [x]
  | y :: r => if Qle_bool (key x) (key y) then x :: y :: r
              else y :: insert_asc x r
  end.

Fixpoint sort_asc (l : list A) : list A :=
  match l with
  | [] => []
  | x :: r => insert_asc x (sort_asc r)
  end.

(** No element is followed, anywhere later, by one with a smaller key. *)
Definition ascending (l : list A) : Prop :=
  StronglySorted (fun a b => key a <= key b) l.

Lemma Qle_bool_opp (a b : Q) : Qle_bool (- b) (- a) = Qle_bool a b.
Proof.
  destruct (Qle_bool a b) eqn:E.
  - apply Qle_bool_iff, Qopp_le_compat. now apply Qle_bool_iff.
  - destruct (Qle_bool (- b) (- a)) eqn:E'; [|reflexivity].
    apply Qle_bool_iff, Qopp_le_compat in E'.
    rewrite !Qopp_involutive in E'. apply Qle_bool_iff in E'. congruence.
Qed.

Lemma sort_asc_desc l : sort_asc l = sort_desc (fun x => - key x) l.
Proof.
  induction l as [|x r IH]; simpl; [reflexivity|]. rewrite IH.
  generalize (sort_desc (fun x => - key x) r). intro s.
  induction s as [|y s IHs]; simpl; [reflexivity|].
  rewrite Qle_bool_opp. destruct (Qle_bool (key x) (key y)); [reflexivity|].
  now rewrite IHs.
Qed.

Lemma sort_asc_perm l : Permutation l (sort_asc l).
Proof. rewrite sort_asc_desc. apply sort_desc_perm. Qed.

Lemma sort_asc_In x l : In x (sort_asc l) <-> In x l.
Proof. rewrite sort_asc_desc. apply sort_desc_In. Qed.

Lemma sort_asc_length l : List.length (sort_asc l) = List.length l.
Proof. rewrite sort_asc_desc. apply sort_desc_length. Qed.

Lemma descending_opp_ascending l :
  descending (fun x => - key x) l -> ascending l.
Proof.
  unfold descending, ascending. induction 1 as [|x l Hs IH Hall]; constructor.
  - exact IH.
  - rewrite Forall_forall in *. intros y Hy.
    specialize (Hall y Hy). apply Qopp_le_compat in Hall.
    now rewrite !Qopp_involutive in Hall.
Qed.

Lemma sort_asc_ascending l : ascending (sort_asc l).
Proof.
  rewrite sort_asc_desc. apply descending_opp_ascending, sort_desc_descending.
Qed.

Lemma ascending_firstn n l : ascending l -> ascending (firstn n l).
Proof.
  unfold ascending. revert n.
  induction l as [|x r IH]; intros [|n] Hs; simpl; try constructor.
  - inversion Hs; subst. now apply IH.
  - inversion Hs as [|? ? _ Hx]; subst.
    rewrite Forall_forall in *. intros z Hz. apply Hx.
    eapply In_firstn, Hz.
Qed.

End SortAscending.

End PySort.

Import PySort.

(* ===================================================================== *)
(** ** database.py *)
(* ===================================================================== *)

Module Database.

Local Open Scope Q_scope.

(** The values of ["search_type"]. *)
Inductive SearchType :=
| routed
| embedding
| keyword
| hybrid.

(** A search hit: the dict the searches build.  A rank or bonus key that
    is absent or [None] is [None] here. *)
Record Hit := mkHit {
  content : str;
  metadata : dict str;
  distance : Q;
  relevance_score : Q;
  id : option str;
  search_type : SearchType;
  embedding_rank : option nat;
  keyword_rank : option nat;
  route_bonus : option Q
}.

Definition set_relevance_score (h : Hit) (score : Q) : Hit :=
  mkHit (content h) (metadata h) (distance h) score (id h) (search_type h)
        (embedding_rank h) (keyword_rank h) (route_bonus h).

Definition set_search_type (h : Hit) (t : SearchType) : Hit :=
  mkHit (content h) (metadata h) (distance h) (relevance_score h) (id h) t
        (embedding_rank h) (keyword_rank h) (route_bonus h).

Definition set_embedding_rank (h : Hit) (r : option nat) : Hit :=
  mkHit (content h) (metadata h) (distance h) (relevance_score h) (id h)
        (search_type h) r (keyword_rank h) (route_bonus h).

Definition set_keyword_rank (h : Hit) (r : option nat) : Hit :=
  mkHit (content h) (metadata h) (distance h) (relevance_score h) (id h)
        (search_type h) (embedding_rank h) r (route_bonus h).

Definition set_route_bonus (h : Hit) (b : option Q) : Hit :=
  mkHit (content h) (metadata h) (distance h) (relevance_score h) (id h)
        (search_type h) (embedding_rank h) (keyword_rank h) b.

(** A ChromaDB [where] filter. *)
#[warnings="-register-all"]
Inductive Where :=
| WEq (field value : str)
| WAnd (conditions : list Where).

(** The reply of [collection.query]; a key the store did not fill is
    [None]. *)
Record QueryResult := mkQueryResult {
  documents : option (list (list str));
  metadatas : option (list (list (dict str)));
  distances : option (list (list Q));
  ids : option (list (list str))
}.

(** [x[0][i]] on a field of the reply. *)
Definition at0 {A} (field : option (list (list A))) (i : nat) : Exc A :=
  match field with
  | None => Err TypeError
  | Some l => row <~ index l 0 ;; index row i
  end.

(** Truth value of a field of the reply. *)
Definition filled {A} (field : option (list A)) : bool :=
  match field with
  | Some (_ :: _) => true
  | _ => false
  end.

Definition option_str_eqb (a b : option str) : bool :=
  match a, b with
  | Some x, Some y => str_eqb x y
  | None, None => true
  | _, _ => false
  end.

Lemma option_str_eqb_eq a b : option_str_eqb a b = true <-> a = b.
Proof.
  destruct a, b; simpl; try (split; congruence).
  rewrite str_eqb_eq. split; congruence.
Qed.

(** *** The lexical scorer *)

Section LexicalScorer.

(** [str.lower] and [rapidfuzz.fuzz.ratio]. *)
Variable lower : str -> str.
Variable ratio : str -> str -> Q.

(** [for word in words: if fuzz.ratio(keyword, word) > 85: score += bonus;
    break]. *)
Fixpoint fuzzy_loop (bonus : Q) (keyword : str) (words : list str) (score : Q)
  : Q :=
  match words with
  | [] => score
  | word :: rest =>
    if Qgtb (ratio keyword word) 85 then score + bonus
    else fuzzy_loop bonus keyword rest score
  end.

(** The body of [for keyword in keywords]. *)
Definition keyword_step (content_lower title : str) (score : Q) (keyword : str)
  : Q :=
  let score := if contains keyword title then score + 30 else score in
  let content_count := count content_lower keyword in
  let score := score + inject_Z (Z.of_nat content_count) * 3 in
  if (3 <? List.length keyword)%nat
  then
    let score := fuzzy_loop 8 keyword (split title) score in
    fuzzy_loop 4 keyword (split content_lower) score
  else score.

Definition _calculate_keyword_score (content : str) (keywords : list str)
    (metadata : dict str) : Q :=
  let content_lower := lower content in
  let title :=
    lower (match dict_get metadata (u "title") with
           | Some t => t
           | None => []
           end) in
  fold_left (keyword_step content_lower title) keywords 0.

(** What one keyword adds to the score, in closed form. *)
Definition keyword_gain (content_lower title keyword : str) : Q :=
  (if contains keyword title then 30 else 0)
  + inject_Z (Z.of_nat (count content_lower keyword)) * 3
  + (if (3 <? List.length keyword)%nat
     then (if existsb (fun word => Qgtb (ratio keyword word) 85) (split title)
           then 8 else 0)
          + (if existsb (fun word => Qgtb (ratio keyword word) 85)
                        (split content_lower)
             then 4 else 0)
     else 0).

(** The score as the specification words it: the fuzzy bonuses for every
    keyword, whatever its length. *)
Definition claimed_keyword_gain (content_lower title keyword : str) : Q :=
  (if contains keyword title then 30 else 0)
  + inject_Z (Z.of_nat (count content_lower keyword)) * 3
  + (if existsb (fun word => Qgtb (ratio keyword word) 85) (split title)
     then 8 else 0)
  + (if existsb (fun word => Qgtb (ratio keyword word) 85) (split content_lower)
     then 4 else 0).

Definition Qsum (l : list Q) : Q := fold_right Qplus 0 l.

(** *** Properties of the lexical scorer *)

Lemma fuzzy_loop_existsb bonus keyword words score :
  fuzzy_loop bonus keyword words score
  = if existsb (fun word => Qgtb (ratio keyword word) 85) words
    then score + bonus else score.
Proof.
  induction words as [|word rest IH]; simpl; [reflexivity|].
  destruct (Qgtb (ratio keyword word) 85); simpl; [reflexivity|exact IH].
Qed.

Lemma keyword_step_gain content_lower title score keyword :
  keyword_step content_lower title score keyword
  == score + keyword_gain content_lower title keyword.
Proof.
  unfold keyword_step, keyword_gain.
  rewrite !fuzzy_loop_existsb.
  repeat match goal with
         | |- context [if ?b then _ else _] => destruct b
         end; ring.
Qed.

Lemma fold_keyword_step content_lower title keywords score :
  fold_left (keyword_step content_lower title) keywords score
  == score + Qsum (map (keyword_gain content_lower title) keywords).
Proof.
  revert score.
  induction keywords as [|keyword rest IH]; intro score; simpl.
  - ring.
  - rewrite IH, keyword_step_gain. ring.
Qed.

(** C7, as the code has it: the score is the sum over the keywords of +30
    for a keyword that is a substring of the title, +3 for each
    occurrence of the keyword in the body, and, only for a keyword of more
    than 3 characters, +8 if a title word and +4 (once) if a body word has
    a similarity above 85. *)
Theorem calculate_keyword_score_sum
    (content : str) (keywords : list str) (metadata : dict str) :
  let content_lower := lower content in
  let title := lower (match dict_get metadata (u "title") with
                      | Some t => t
                      | None => []
                      end) in
  _calculate_keyword_score content keywords metadata
  == Qsum (map (keyword_gain content_lower title) keywords).
Proof.
  cbv zeta. unfold _calculate_keyword_score.
  rewrite fold_keyword_step. ring.
Qed.

End LexicalScorer.

(** C7, as the specification states it, fails on a keyword of three
    characters: "нау" is in the title and in the body and equals a word of
    each, the stated score is 30 + 3 + 8 + 4 = 45, the code gives 33. *)
Lemma keyword_score_counterexample :
  let content := u "Новини НАУ" in
  let metadata := [(u "title", u "НАУ")] in
  let keywords := [u "нау"] in
  _calculate_keyword_score Py.lower indel_ratio content keywords metadata == 33
  /\ Qsum (map (claimed_keyword_gain indel_ratio (Py.lower content)
                                     (Py.lower (u "НАУ"))) keywords) == 45
  /\ ~ (_calculate_keyword_score Py.lower indel_ratio content keywords metadata
        == Qsum (map (claimed_keyword_gain indel_ratio (Py.lower content)
                                           (Py.lower (u "НАУ"))) keywords)).
Proof.
  vm_compute. repeat split; intro H; discriminate H.
Qed.

(** *** The result fuser *)

(** [combined]: a dict keyed by document id, in insertion order. *)
Definition odict := list (option str * Hit).

Fixpoint od_get (k : option str) (d : odict) : option Hit :=
  match d with
  | [] => None
  | (k', v) :: r => if option_str_eqb k' k then Some v else od_get k r
  end.

(** [d[k] = v]: a key already there keeps its place. *)
Fixpoint od_set (k : option str) (v : Hit) (d : odict) : odict :=
  match d with
  | [] => [(k, v)]
  | (k', v') :: r =>
    if option_str_eqb k' k then (k', v) :: r else (k', v') :: od_set k v r
  end.

Definition od_values (d : odict) : list Hit := map snd d.

(** The body of the first loop of [_combine_results] at index [i]. *)
Definition seed_step (i : nat) (result : Hit) (combined : odict) : odict :=
  let doc_id := id result in
  let result := set_embedding_rank result (Some (i + 1)%nat) in
  let result := set_keyword_rank result None in
  let distance := distance result in
  let base := max0 ((2 - distance) * 50) in
  let position_bonus := Z.max 0 ((10 - Z.of_nat i) * 5) in
  let result := set_relevance_score result (base + inject_Z position_bonus) in
  let result := set_search_type result embedding in
  od_set doc_id result combined.

Fixpoint seed_loop (i : nat) (embedding_results : list Hit) (combined : odict)
  : odict :=
  match embedding_results with
  | [] => combined
  | result :: rest => seed_loop (S i) rest (seed_step i result combined)
  end.

(** The body of the second loop of [_combine_results] at index [i]. *)
Definition merge_step (i : nat) (result : Hit) (combined : odict) : odict :=
  let doc_id := id result in
  match od_get doc_id combined with
  | Some existing =>
    let keyword_boost := relevance_score result * 2 in
    let existing :=
      set_relevance_score existing (relevance_score existing + keyword_boost) in
    let existing := set_search_type existing hybrid in
    let existing := set_keyword_rank existing (Some (i + 1)%nat) in
    od_set doc_id existing combined
  | None =>
    let result := set_keyword_rank result (Some (i + 1)%nat) in
    let result := set_embedding_rank result None in
    let result := set_relevance_score result (relevance_score result * 3) in
    let result := set_search_type result keyword in
    od_set doc_id result combined
  end.

Fixpoint merge_loop (i : nat) (keyword_results : list Hit) (combined : odict)
  : odict :=
  match keyword_results with
  | [] => combined
  | result :: rest => merge_loop (S i) rest (merge_step i result combined)
  end.

Definition _combine_results (embedding_results keyword_results : list Hit)
    (top_k : Z) : list Hit :=
  let combined := seed_loop 0 embedding_results [] in
  let combined := merge_loop 0 keyword_results combined in
  let final := od_values combined in
  let final := sort_desc relevance_score final in
  slice_to final top_k.

(** *** Properties of the result fuser *)


Lemma option_str_eqb_refl k : option_str_eqb k k = true.
Proof. now apply option_str_eqb_eq. Qed.




(** The hit the first loop stores for the result at index [i]. *)
Definition seed_hit (i : nat) (result : Hit) : Hit :=
  set_search_type
    (set_relevance_score
       (set_keyword_rank (set_embedding_rank result (Some (i + 1)%nat)) None)
       (max0 ((2 - distance result) * 50)
        + inject_Z (Z.max 0 ((10 - Z.of_nat i) * 5))))
    embedding.

(** The hit the second loop stores for the result at index [i], given
    what the dict holds for its id. *)
Definition merged_hit (i : nat) (result : Hit) (held : option Hit) : Hit :=
  match held with
  | Some existing =>
    set_keyword_rank
      (set_search_type
         (set_relevance_score existing
            (relevance_score existing + relevance_score result * 2))
         hybrid)
      (Some (i + 1)%nat)
  | None =>
    set_search_type
      (set_relevance_score
         (set_embedding_rank (set_keyword_rank result (Some (i + 1)%nat)) None)
         (relevance_score result * 3))
      keyword
  end.

Lemma seed_step_eq i result combined :
  seed_step i result combined = od_set (id result) (seed_hit i result) combined.
Proof. reflexivity. Qed.

Lemma merge_step_eq i result combined :
  merge_step i result combined
  = od_set (id result) (merged_hit i result (od_get (id result) combined))
           combined.
Proof.
  unfold merge_step, merged_hit.
  destruct (od_get (id result) combined); reflexivity.
Qed.







(** The dict keeps one entry for each key, and an entry's hit carries the
    key as its id. *)
Definition od_inv (d : odict) : Prop :=
  NoDup (map fst d) /\ forall k v, In (k, v) d -> id v = k.

Lemma od_set_In k v d kv :
  In kv (od_set k v d) -> kv = (k, v) \/ In kv d.
Proof.
  induction d as [|[k' v'] r IH]; simpl.
  - intros [<-|[]]. now left.
  - destruct (option_str_eqb k' k) eqn:E; simpl.
    + apply option_str_eqb_eq in E. subst k'.
      intros [<-|H]; [now left|right; now right].
    + intros [<-|H]; [right; now left|].
      destruct (IH H) as [->|H']; [now left|right; now right].
Qed.

Lemma od_set_keys k v d :
  forall k', In k' (map fst (od_set k v d)) -> k' = k \/ In k' (map fst d).
Proof.
  intros k' H. apply in_map_iff in H. destruct H as ([k0 v0] & <- & H).
  apply od_set_In in H. destruct H as [H|H].
  - left. now inversion H.
  - right. apply in_map_iff. now exists (k0, v0).
Qed.

Lemma od_set_inv k v d : id v = k -> od_inv d -> od_inv (od_set k v d).
Proof.
  intros <- [Hnd Hk]. split.
  - clear Hk. induction d as [|[k' v'] r IH]; simpl.
    + constructor; [intros []|constructor].
    + inversion Hnd as [|? ? Hnotin Hnd']; subst.
      destruct (option_str_eqb k' (id v)) eqn:E; simpl.
      * now constructor.
      * constructor; [|now apply IH].
        intro Hin. apply od_set_keys in Hin. destruct Hin as [->|Hin].
        -- now rewrite option_str_eqb_refl in E.
        -- now apply Hnotin.
  - intros k0 v0 H. apply od_set_In in H. destruct H as [H|H].
    + now inversion H; subst.
    + now apply Hk.
Qed.

Lemma seed_loop_inv l i c : od_inv c -> od_inv (seed_loop i l c).
Proof.
  revert i c. induction l as [|x r IH]; intros i c H; simpl; [exact H|].
  apply IH. rewrite seed_step_eq. now apply od_set_inv.
Qed.

Lemma merge_loop_inv l i c : od_inv c -> od_inv (merge_loop i l c).
Proof.
  revert i c. induction l as [|x r IH]; intros i c H; simpl; [exact H|].
  apply IH. rewrite merge_step_eq. apply od_set_inv; [|exact H].
  destruct (od_get (id x) c) as [existing|] eqn:E; simpl; [|reflexivity].
  destruct H as [_ Hk].
  clear - E Hk. induction c as [|[k' v'] r IH]; simpl in E; [discriminate|].
  destruct (option_str_eqb k' (id x)) eqn:E'.
  - apply option_str_eqb_eq in E'. inversion E; subst.
    apply Hk. now left.
  - apply IH; [|exact E]. intros k v H. apply Hk. now right.
Qed.


(** Every hit the fuser holds has one of its three origins. *)
Definition fused_origin (h : Hit) : Prop :=
  search_type h = embedding \/ search_type h = keyword
  \/ search_type h = hybrid.

Lemma od_set_origin k v d :
  fused_origin v -> Forall fused_origin (od_values d) ->
  Forall fused_origin (od_values (od_set k v d)).
Proof.
  intros Hv Hd. rewrite Forall_forall in *. intros h Hh.
  apply in_map_iff in Hh. destruct Hh as ([k0 v0] & <- & Hin).
  apply od_set_In in Hin. destruct Hin as [Heq|Hin].
  - now inversion Heq.
  - apply Hd. apply in_map_iff. now exists (k0, v0).
Qed.

Lemma seed_loop_origin l i c :
  Forall fused_origin (od_values c) ->
  Forall fused_origin (od_values (seed_loop i l c)).
Proof.
  revert i c. induction l as [|x r IH]; intros i c H; simpl; [exact H|].
  apply IH. rewrite seed_step_eq. apply od_set_origin; [|exact H].
  now left.
Qed.

Lemma merge_loop_origin l i c :
  Forall fused_origin (od_values c) ->
  Forall fused_origin (od_values (merge_loop i l c)).
Proof.
  revert i c. induction l as [|x r IH]; intros i c H; simpl; [exact H|].
  apply IH. rewrite merge_step_eq. apply od_set_origin; [|exact H].
  destruct (od_get (id x) c); simpl; [right; now right|right; now left].
Qed.

Lemma slice_to_In (B : Type) (x : B) l k : In x (slice_to l k) -> In x l.
Proof.
  unfold slice_to. destruct (0 <=? k)%Z; apply In_firstn.
Qed.

Lemma combine_results_origin ev kw top_k h :
  In h (_combine_results ev kw top_k) -> fused_origin h.
Proof.
  unfold _combine_results. intro H.
  apply slice_to_In, sort_desc_In in H.
  revert h H. apply Forall_forall.
  apply merge_loop_origin, seed_loop_origin. constructor.
Qed.






(** *** Search with a route *)

Definition _build_route_filters (route_decision : QueryRouter.RouteDecision)
  : Where :=
  let conditions := [WEq (u "source") (u "news")] in
  let conditions :=
    if negb (str_eqb (QueryRouter.search_scope route_decision) (u "global"))
    then conditions ++ [WEq (u "faculty") (QueryRouter.search_scope route_decision)]
    else conditions in
  let conditions :=
    match QueryRouter.target_entity route_decision with
    | Some ((_ :: _) as entity) => conditions ++ [WEq (u "department") entity]
    | _ => conditions
    end in
  let intent_to_category : dict (option str) :=
    [ (u "schedule", Some (u "schedule"));
      (u "news", None);
      (u "events", Some (u "conferences"));
      (u "contacts", Some (u "contacts"));
      (u "info", None) ] in
  let category :=
    match dict_get intent_to_category (QueryRouter.search_intent route_decision) with
    | Some c => c
    | None => None
    end in
  let conditions :=
    match category with
    | Some ((_ :: _) as c) => conditions ++ [WEq (u "category") c]
    | _ => conditions
    end in
  match conditions with
  | [c] => c
  | _ => WAnd conditions
  end.

(** The route bonus of one result in [_rerank_with_route_bonuses]. *)
Definition route_bonus_of (route_decision : QueryRouter.RouteDecision)
    (result : Hit) : Q :=
  let meta := metadata result in
  let bonus := 0 in
  if negb (str_eqb (QueryRouter.search_scope route_decision) (u "global"))
  then
    let bonus :=
      if option_str_eqb (dict_get meta (u "faculty"))
                        (Some (QueryRouter.search_scope route_decision))
      then bonus + 0.1 else bonus in
    if option_str_eqb (dict_get meta (u "department"))
                      (QueryRouter.target_entity route_decision)
    then bonus + 0.1 else bonus
  else bonus.

(** The body of the loop of [_rerank_with_route_bonuses]. *)
Definition rerank_step (route_decision : QueryRouter.RouteDecision)
    (result : Hit) : Hit :=
  let base_score := relevance_score result in
  let bonus := route_bonus_of route_decision result in
  let result := set_relevance_score result (base_score + bonus) in
  set_route_bonus result (Some bonus).

Definition _rerank_with_route_bonuses (results : list Hit)
    (route_decision : QueryRouter.RouteDecision) : list Hit :=
  sort_desc relevance_score (map (rerank_step route_decision) results).

(** *** Properties of the route bonuses *)

Lemma str_eqb_neq (a b : str) : a <> b -> str_eqb a b = false.
Proof.
  intro H. destruct (str_eqb a b) eqn:E; [|reflexivity].
  now apply str_eqb_eq in E.
Qed.

(** The faculty part of the route bonus. *)
Definition faculty_bonus (route_decision : QueryRouter.RouteDecision)
    (result : Hit) : Q :=
  if option_str_eqb (dict_get (metadata result) (u "faculty"))
                    (Some (QueryRouter.search_scope route_decision))
  then 0 + 0.1 else 0.

(** C10: with a scope other than "global" and no target entity, a document
    without department metadata gets the department bonus of 0.1 on top of
    its faculty bonus, a document with a department label does not, and
    of two documents that are level before the department bonus the one
    without a label gets the strictly higher score and stands first after
    the re-ranking. *)
Theorem rerank_absent_department_bonus
    (results : list Hit) (route_decision : QueryRouter.RouteDecision) :
  QueryRouter.search_scope route_decision <> u "global" ->
  QueryRouter.target_entity route_decision = None ->
  (forall h, dict_get (metadata h) (u "department") = None ->
     route_bonus_of route_decision h = faculty_bonus route_decision h + 0.1)
  /\ (forall h d, dict_get (metadata h) (u "department") = Some d ->
        route_bonus_of route_decision h = faculty_bonus route_decision h)
  /\ (forall a b d,
        In a results -> In b results ->
        dict_get (metadata a) (u "department") = None ->
        dict_get (metadata b) (u "department") = Some d ->
        relevance_score a + faculty_bonus route_decision a
        == relevance_score b + faculty_bonus route_decision b ->
        relevance_score (rerank_step route_decision b)
        < relevance_score (rerank_step route_decision a)
        /\ exists l1 l2 l3,
             _rerank_with_route_bonuses results route_decision
             = l1 ++ rerank_step route_decision a
                  :: l2 ++ rerank_step route_decision b :: l3).
Proof.
  intros Hscope Htarget.
  assert (Hnone : forall h, dict_get (metadata h) (u "department") = None ->
            route_bonus_of route_decision h
            = faculty_bonus route_decision h + 0.1).
  { intros h Hd. unfold route_bonus_of, faculty_bonus.
    rewrite (str_eqb_neq Hscope), Hd, Htarget. simpl.
    destruct (option_str_eqb _ _); reflexivity. }
  assert (Hsome : forall h d, dict_get (metadata h) (u "department") = Some d ->
            route_bonus_of route_decision h = faculty_bonus route_decision h).
  { intros h d Hd. unfold route_bonus_of, faculty_bonus.
    rewrite (str_eqb_neq Hscope), Hd, Htarget. simpl.
    destruct (option_str_eqb _ _); reflexivity. }
  split; [exact Hnone|]. split; [exact Hsome|].
  intros a b d Ha Hb Hda Hdb Hlevel.
  assert (Hlt : relevance_score (rerank_step route_decision b)
                < relevance_score (rerank_step route_decision a)).
  { unfold rerank_step. simpl.
    rewrite (Hnone a Hda), (Hsome b d Hdb), Qplus_assoc, Hlevel.
    rewrite <- (Qplus_0_r (relevance_score b + faculty_bonus route_decision b))
      at 1.
    apply Qplus_lt_r. reflexivity. }
  split; [exact Hlt|].
  unfold _rerank_with_route_bonuses.
  apply descending_before with (key := relevance_score).
  - apply sort_desc_descending.
  - apply sort_desc_In. now apply in_map.
  - apply sort_desc_In. now apply in_map.
  - exact Hlt.
Qed.

Section VectorSearch.

Variable lower : str -> str.

(** [self.embedding_model.encode([text], ...)[0].tolist()]: the vector
    encoder on one text. *)
Variable encode : str -> Exc (list Q).

(** [self.collection.query(query_embeddings=[e], n_results=n, where=w)]. *)
Variable collection_query : list Q -> Z -> Where -> Exc QueryResult.

(** The dict [_route_aware_search] appends for position [i]. *)
Definition format_result (results : QueryResult) (i : nat) : Exc Hit :=
  content <~ at0 (documents results) i ;;
  metadata <~ (if filled (metadatas results)
               then at0 (metadatas results) i else Ok []) ;;
  distance <~ (if filled (distances results)
               then at0 (distances results) i else Ok 1) ;;
  d <~ at0 (distances results) i ;;
  let relevance_score := max0 (1 - d / 4) in
  id <~ (if filled (ids results)
         then (x <~ at0 (ids results) i ;; Ok (Some x)) else Ok None) ;;
  Ok (mkHit content metadata distance relevance_score id routed None None None).

(** The [try] block of [_route_aware_search]. *)
Definition route_aware_search_try (query : str) (where_filter : Where)
    (max_results : Z) : Exc (list Hit) :=
  let prefixed_query := u "query: " ++ query in
  query_embedding <~ encode prefixed_query ;;
  results <~ collection_query query_embedding max_results where_filter ;;
  match documents results with
  | Some (((_ :: _) as docs0) :: _) =>
    mapE (format_result results) (seq 0 (List.length docs0))
  | _ => Ok []
  end.

(** [try: ... except Exception: return []]. *)
Definition _route_aware_search (query : str) (where_filter : Where)
    (max_results : Z) : list Hit :=
  match route_aware_search_try query where_filter max_results with
  | Ok formatted => formatted
  | Err _ => []
  end.

(** Step 2 of [search_with_route]: the query with the route's keywords
    that are not among its words. *)
Definition enhanced_query (query : str)
    (route_decision : QueryRouter.RouteDecision) : str :=
  match QueryRouter.enhancement_keywords route_decision with
  | [] => query
  | keywords =>
    let query_words_lower := split (lower query) in
    let new_keywords :=
      filter (fun kw => negb (existsb (str_eqb (lower kw)) query_words_lower))
             keywords in
    match new_keywords with
    | [] => query
    | _ => query ++ u " " ++ join (u " ") new_keywords
    end
  end.

Definition search_with_route (query : str)
    (route_decision : QueryRouter.RouteDecision) (top_k : Z) : list Hit :=
  let where_filter := _build_route_filters route_decision in
  let enhanced_query := enhanced_query query route_decision in
  let results := _route_aware_search enhanced_query where_filter (top_k * 5) in
  let ranked := _rerank_with_route_bonuses results route_decision in
  slice_to ranked top_k.

(** *** Properties of the vector search *)

Lemma mapE_In (B C : Type) (f : B -> Exc C) l ys y :
  mapE f l = Ok ys -> In y ys -> exists x, In x l /\ f x = Ok y.
Proof.
  revert ys. induction l as [|x r IH]; simpl; intros ys H Hy.
  - inversion H; subst. destruct Hy.
  - destruct (f x) as [y0|] eqn:Ex; simpl in H; [|discriminate].
    destruct (mapE f r) as [ys0|]; simpl in H; [|discriminate].
    inversion H; subst. destruct Hy as [<-|Hy].
    + exists x. split; [now left|exact Ex].
    + destruct (IH ys0 eq_refl Hy) as (x' & Hin & Hx').
      exists x'. split; [now right|exact Hx'].
Qed.

Lemma at0_filled (B : Type) (field : option (list (list B))) i x :
  at0 field i = Ok x -> filled field = true.
Proof.
  destruct field as [[|row rest]|]; simpl; try discriminate. reflexivity.
Qed.

Lemma format_result_ok results i hit :
  format_result results i = Ok hit ->
  relevance_score hit = max0 (1 - distance hit / 4)
  /\ at0 (distances results) i = Ok (distance hit)
  /\ search_type hit = routed
  /\ route_bonus hit = None.
Proof.
  unfold format_result.
  destruct (at0 (documents results) i) as [c|]; simpl; [|discriminate].
  destruct (if filled (metadatas results) then _ else _) as [m|];
    simpl; [|discriminate].
  destruct (at0 (distances results) i) as [d|] eqn:D.
  - rewrite (@at0_filled _ _ _ _ D). simpl.
    destruct (if filled (ids results) then _ else _) as [x|];
      simpl; [|discriminate].
    intro H. inversion H; subst. simpl. repeat split.
  - destruct (filled (distances results)); simpl; discriminate.
Qed.

(** C9: the vector search returns a list whatever happens: an exception
    raised in its [try] block, by the encoder, by the store or while the
    reply is read, gives the empty list; and each hit it returns has the
    relevance score [max(0, 1 - distance / 4)] of the distance the store
    gave. *)
Theorem route_aware_search_degrades
    (query : str) (where_filter : Where) (max_results : Z) :
  let out := _route_aware_search query where_filter max_results in
  (forall e, route_aware_search_try query where_filter max_results = Err e ->
     out = [])
  /\ (forall e, encode (u "query: " ++ query) = Err e -> out = [])
  /\ (forall query_embedding e,
        encode (u "query: " ++ query) = Ok query_embedding ->
        collection_query query_embedding max_results where_filter = Err e ->
        out = [])
  /\ (forall hit, In hit out ->
        relevance_score hit = max0 (1 - distance hit / 4)
        /\ exists query_embedding results i,
             encode (u "query: " ++ query) = Ok query_embedding
             /\ collection_query query_embedding max_results where_filter
                = Ok results
             /\ at0 (distances results) i = Ok (distance hit)).
Proof.
  cbv zeta. unfold _route_aware_search, route_aware_search_try.
  split; [|split; [|split]].
  - intros e H. now rewrite H.
  - intros e H. now rewrite H.
  - intros query_embedding e H1 H2. rewrite H1. simpl. now rewrite H2.
  - intros hit Hin.
    destruct (encode (u "query: " ++ query)) as [query_embedding|] eqn:Eenc;
      simpl in Hin; [|destruct Hin].
    destruct (collection_query query_embedding max_results where_filter)
      as [results|] eqn:Eqry; simpl in Hin; [|destruct Hin].
    destruct (documents results) as [[|[|doc docs0] rest]|];
      try (destruct Hin; fail).
    destruct (mapE (format_result results)
                   (seq 0 (List.length (doc :: docs0)))) as [formatted|] eqn:E;
      [|destruct Hin].
    destruct (@mapE_In _ _ _ _ _ _ E Hin) as (i & _ & Hfmt).
    apply format_result_ok in Hfmt. destruct Hfmt as (Hrel & Hd & _).
    split; [exact Hrel|]. now exists query_embedding, results, i.
Qed.

Lemma route_aware_search_hits query where_filter max_results hit :
  In hit (_route_aware_search query where_filter max_results) ->
  relevance_score hit = max0 (1 - distance hit / 4)
  /\ search_type hit = routed.
Proof.
  unfold _route_aware_search, route_aware_search_try. intro Hin.
  destruct (encode (u "query: " ++ query)) as [query_embedding|];
    simpl in Hin; [|destruct Hin].
  destruct (collection_query query_embedding max_results where_filter)
    as [results|]; simpl in Hin; [|destruct Hin].
  destruct (documents results) as [[|[|doc docs0] rest]|];
    try (destruct Hin; fail).
  destruct (mapE (format_result results)
                 (seq 0 (List.length (doc :: docs0)))) as [formatted|] eqn:E;
    [|destruct Hin].
  destruct (@mapE_In _ _ _ _ _ _ E Hin) as (i & _ & Hfmt).
  apply format_result_ok in Hfmt. tauto.
Qed.

Lemma enhanced_query_new_keywords query route_decision :
  exists new_keywords,
    (forall kw, In kw new_keywords <->
                In kw (QueryRouter.enhancement_keywords route_decision)
                /\ ~ In (lower kw) (split (lower query)))
    /\ enhanced_query query route_decision
       = match new_keywords with
         | [] => query
         | _ => query ++ u " " ++ join (u " ") new_keywords
         end.
Proof.
  exists (filter (fun kw => negb (existsb (str_eqb (lower kw))
                                          (split (lower query))))
                 (QueryRouter.enhancement_keywords route_decision)).
  split.
  - intro kw. rewrite filter_In, negb_true_iff.
    split; intros [Hin Hnew]; (split; [exact Hin|]).
    + intro Hword.
      assert (existsb (str_eqb (lower kw)) (split (lower query)) = true).
      { apply existsb_exists. exists (lower kw).
        split; [exact Hword|apply str_eqb_refl]. }
      congruence.
    + destruct (existsb (str_eqb (lower kw)) (split (lower query))) eqn:E;
        [|reflexivity].
      apply existsb_exists in E. destruct E as (w & Hw & Heq).
      apply str_eqb_eq in Heq. subst w. contradiction.
  - unfold enhanced_query.
    destruct (QueryRouter.enhancement_keywords route_decision);
      reflexivity.
Qed.

(** C3, as the code has it: a search step of the retrieval loop queries
    the vector store alone, with the query extended by the route's
    keywords that are not among its words and with the route filter,
    asking for five times [top_k] candidates.  The hits of that search
    are all passed on with their route bonuses, sorted by descending
    score (the stable sort of the code) and cut to [top_k]: the step
    returns as many hits as the vector search found, up to [top_k].
    Every candidate it passes on is a hit of the vector search with the
    same document, has the origin "routed", none of the fuser's origins,
    and the score [max(0, 1 - distance / 4)] plus its route bonus. *)
Theorem search_with_route_vector_only
    (query : str) (route_decision : QueryRouter.RouteDecision) (top_k : Z) :
  let vector_hits :=
    _route_aware_search (enhanced_query query route_decision)
                        (_build_route_filters route_decision) (top_k * 5) in
  let out := search_with_route query route_decision top_k in
  (exists new_keywords,
      (forall kw, In kw new_keywords <->
                  In kw (QueryRouter.enhancement_keywords route_decision)
                  /\ ~ In (lower kw) (split (lower query)))
      /\ enhanced_query query route_decision
         = match new_keywords with
           | [] => query
           | _ => query ++ u " " ++ join (u " ") new_keywords
           end)
  /\ (exists ranked,
        ranked = sort_desc relevance_score
                           (map (rerank_step route_decision) vector_hits)
        /\ Permutation (map (rerank_step route_decision) vector_hits) ranked
        /\ descending relevance_score ranked
        /\ out = slice_to ranked top_k)
  /\ ((0 <= top_k)%Z ->
      List.length out
      = Nat.min (Z.to_nat top_k) (List.length vector_hits))
  /\ (forall hit,
        In hit out ->
        (exists found,
            In found vector_hits
            /\ hit = rerank_step route_decision found
            /\ id hit = id found /\ content hit = content found
            /\ metadata hit = metadata found
            /\ distance hit = distance found)
        /\ search_type hit = routed
        /\ ~ fused_origin hit
        /\ route_bonus hit = Some (route_bonus_of route_decision hit)
        /\ relevance_score hit
           = max0 (1 - distance hit / 4) + route_bonus_of route_decision hit).
Proof.
  cbv zeta. unfold search_with_route, _rerank_with_route_bonuses.
  split; [apply enhanced_query_new_keywords|].
  split.
  { eexists. split; [reflexivity|].
    split; [apply sort_desc_perm|].
    split; [apply sort_desc_descending|reflexivity]. }
  split.
  { intro Hk. unfold slice_to.
    replace (0 <=? top_k)%Z with true by (symmetry; now apply Z.leb_le).
    now rewrite length_firstn, sort_desc_length, length_map. }
  intros hit Hin.
  apply slice_to_In, sort_desc_In, in_map_iff in Hin.
  destruct Hin as (found & <- & Hfound).
  destruct (@route_aware_search_hits _ _ _ _ Hfound) as (Hrel & Htype).
  split; [exists found; repeat split; exact Hfound|].
  unfold rerank_step, fused_origin. simpl. rewrite Htype, Hrel.
  split; [reflexivity|]. split; [|split; reflexivity].
  intros [H|[H|H]]; discriminate H.
Qed.

End VectorSearch.

(** *** Sample data, to run the code *)

Definition sample_hit (name : string) (meta : dict str) (d score : Q)
    (t : SearchType) : Hit :=
  mkHit (u name) meta d score (Some (u name)) t None None None.

Definition sample_vector_hits : list Hit :=
  [sample_hit "a" [] 0.5 0 embedding; sample_hit "b" [] 1 0 embedding].

Definition sample_lexical_hits : list Hit :=
  [sample_hit "b" [] 0.3 7 keyword; sample_hit "c" [] 0 10 keyword].

(** "a" is seeded with 75 + 50, "b" with 50 + 45 and boosted by 2 * 7, "c"
    enters with 3 * 10 and is cut off. *)
Example combine_results_sample :
  map (fun h => (id h, Qred (relevance_score h), search_type h))
      (_combine_results sample_vector_hits sample_lexical_hits 2)
  = [(Some (u "a"), 125, embedding); (Some (u "b"), 109, hybrid)].
Proof. vm_compute. reflexivity. Qed.


Definition sample_route (scope : string) (keywords : list str)
  : QueryRouter.RouteDecision :=
  QueryRouter.mkRouteDecision (u scope) (u "faculty") None (u "info")
    keywords 0.5 (u "Визначено факультет") true.

Definition sample_unlabelled : Hit :=
  sample_hit "u" [(u "faculty", u "ФКНТ")] 2 0.5 routed.

Definition sample_labelled : Hit :=
  sample_hit "l" [(u "faculty", u "ФКНТ"); (u "department", u "ІПЗ")] 2 0.5
             routed.

(** The labelled document comes first in, and second out. *)
Example rerank_sample :
  map (fun h => (id h, Qred (relevance_score h), option_map Qred (route_bonus h)))
      (_rerank_with_route_bonuses [sample_labelled; sample_unlabelled]
                                  (sample_route "ФКНТ" []))
  = [(Some (u "u"), 7 # 10, Some (1 # 5)); (Some (u "l"), 3 # 5, Some (1 # 10))].
Proof. vm_compute. reflexivity. Qed.

Lemma rerank_absent_department_bonus_witness :
  let route := sample_route "ФКНТ" [] in
  QueryRouter.search_scope route <> u "global"
  /\ QueryRouter.target_entity route = None
  /\ exists l1 l2 l3,
       _rerank_with_route_bonuses [sample_labelled; sample_unlabelled] route
       = l1 ++ rerank_step route sample_unlabelled
            :: l2 ++ rerank_step route sample_labelled :: l3.
Proof.
  cbv zeta.
  assert (Hs : QueryRouter.search_scope (sample_route "ФКНТ" []) <> u "global").
  { intro H. vm_compute in H. discriminate H. }
  assert (Ht : QueryRouter.target_entity (sample_route "ФКНТ" []) = None)
    by reflexivity.
  split; [exact Hs|]. split; [exact Ht|].
  destruct (@rerank_absent_department_bonus
              [sample_labelled; sample_unlabelled] _ Hs Ht) as (_ & _ & H).
  apply (H sample_unlabelled sample_labelled (u "ІПЗ")).
  - right; now left.
  - now left.
  - vm_compute. reflexivity.
  - vm_compute. reflexivity.
  - vm_compute. reflexivity.
Defined.

(** Scenario 2 of the specification: the order of scores 10, 30, 5 with a
    bonus for the second is second, first, third. *)
Example rerank_scenario_2 :
  map id (_rerank_with_route_bonuses
            [sample_hit "a" [] 0 10 hybrid;
             sample_hit "b" [(u "faculty", u "ФКНТ")] 0 30 hybrid;
             sample_hit "c" [] 0 5 hybrid]
            (QueryRouter.mkRouteDecision (u "ФКНТ") (u "department")
               (Some (u "ІПЗ")) (u "info") [] 0.5 [] true))
  = [Some (u "b"); Some (u "a"); Some (u "c")].
Proof. vm_compute. reflexivity. Qed.

(** A store with one document, at distance 0.4 of every query, and an
    encoder that works. *)
Definition sample_encode (text : str) : Exc (list Q) := Ok [0.15].

Definition sample_collection_query (e : list Q) (n : Z) (w : Where)
  : Exc QueryResult :=
  Ok (mkQueryResult
        (Some [[u "Кафедра ІПЗ оголошує набір"]])
        (Some [[ [(u "title", u "Кафедра ІПЗ"); (u "faculty", u "ФКНТ")] ]])
        (Some [[0.4]])
        (Some [[u "d1"]])).

(** An encoder that is down. *)
Definition failing_encode (text : str) : Exc (list Q) :=
  Err (ServiceError (u "model not loaded")).

Example route_aware_search_sample :
  map (fun h => (id h, Qred (distance h), Qred (relevance_score h), search_type h))
      (_route_aware_search sample_encode sample_collection_query
         (u "кафедра") (WEq (u "source") (u "news")) 75)
  = [(Some (u "d1"), 2 # 5, 9 # 10, routed)].
Proof. vm_compute. reflexivity. Qed.

Lemma route_aware_search_degrades_witness :
  _route_aware_search failing_encode sample_collection_query
    (u "кафедра") (WEq (u "source") (u "news")) 75 = []
  /\ (forall hit,
        In hit (_route_aware_search sample_encode sample_collection_query
                  (u "кафедра") (WEq (u "source") (u "news")) 75) ->
        relevance_score hit = max0 (1 - distance hit / 4)).
Proof.
  split.
  - destruct (@route_aware_search_degrades failing_encode
                sample_collection_query (u "кафедра")
                (WEq (u "source") (u "news")) 75) as (_ & H & _).
    apply (H (ServiceError (u "model not loaded"))). reflexivity.
  - intros hit Hin.
    destruct (@route_aware_search_degrades sample_encode
                sample_collection_query (u "кафедра")
                (WEq (u "source") (u "news")) 75) as (_ & _ & _ & H).
    now destruct (H hit Hin).
Defined.

Definition sample_search : list Hit :=
  search_with_route Py.lower sample_encode sample_collection_query
    (u "кафедра") (sample_route "ФКНТ" [u "ІПЗ"]) 15.

Example search_with_route_sample :
  map (fun h => (id h, Qred (relevance_score h), search_type h)) sample_search
  = [(Some (u "d1"), 11 # 10, routed)].
Proof. vm_compute. reflexivity. Qed.

Lemma search_with_route_vector_only_witness :
  List.length sample_search = 1%nat
  /\ exists hit, In hit sample_search /\ search_type hit = routed.
Proof.
  pose proof (@search_with_route_vector_only Py.lower sample_encode
                sample_collection_query (u "кафедра")
                (sample_route "ФКНТ" [u "ІПЗ"]) 15) as H.
  cbv zeta in H. destruct H as (_ & _ & Hlen & Hhits).
  split; [exact (Hlen ltac:(discriminate))|].
  assert (Hne : exists hit, In hit sample_search).
  { vm_compute. eexists. left. reflexivity. }
  destruct Hne as (hit & Hin). exists hit. split; [exact Hin|].
  exact (proj1 (proj2 (Hhits hit Hin))).
Defined.

(** C3, as the specification states it, fails: the one candidate of this
    search step has the origin "routed" and the score 0.9 + 0.2, and no
    run of the result fuser, on whatever vector and lexical hits, returns
    such a candidate. *)
Lemma search_with_route_counterexample :
  exists hit,
    In hit sample_search
    /\ search_type hit = routed
    /\ forall embedding_results keyword_results top_k,
         ~ In hit (_combine_results embedding_results keyword_results top_k).
Proof.
  assert (Hne : exists hit, In hit sample_search /\ search_type hit = routed).
  { vm_compute. eexists. split; [left; reflexivity|reflexivity]. }
  destruct Hne as (hit & Hin & Htype). exists hit.
  split; [exact Hin|]. split; [exact Htype|].
  intros ev kw top_k H. apply combine_results_origin in H.
  unfold fused_origin in H. rewrite Htype in H.
  destruct H as [H|[H|H]]; discriminate H.
Qed.

(** *** Further properties of the route search *)

(** The equality conditions of a filter, in order. *)
Fixpoint where_conditions (w : Where) : list (str * str) :=
  match w with
  | WEq field value => [(field, value)]
  | WAnd conditions =>
    (fix all (l : list Where) : list (str * str) :=
       match l with
       | [] => []
       | c :: r => where_conditions c ++ all r
       end) conditions
  end.

(** The store filter of a route and the filters of
    [format_route_for_search] impose the same faculty, department and
    category, on top of the source "news", unless the intent is "news" or
    "events": for "events" the store filter asks for the category
    "conferences" and the other for "events", for "news" the store filter
    has no category and the other asks for "news". *)
Theorem route_filters_agree (route_decision : QueryRouter.RouteDecision) :
  (QueryRouter.search_intent route_decision <> u "news" ->
   QueryRouter.search_intent route_decision <> u "events" ->
   where_conditions (_build_route_filters route_decision)
   = (u "source", u "news")
       :: QueryRouter.format_route_for_search route_decision)
  /\ (QueryRouter.search_intent route_decision = u "events" ->
      In (u "category", u "conferences")
         (where_conditions (_build_route_filters route_decision))
      /\ In (u "category", u "events")
            (QueryRouter.format_route_for_search route_decision))
  /\ (QueryRouter.search_intent route_decision = u "news" ->
      ~ In (u "category")
           (map fst (where_conditions (_build_route_filters route_decision)))
      /\ In (u "category", u "news")
            (QueryRouter.format_route_for_search route_decision)).
Proof.
  unfold _build_route_filters, QueryRouter.format_route_for_search.
  destruct route_decision as [scope level target intent kws conf reas needs].
  cbn [QueryRouter.search_scope QueryRouter.target_entity
       QueryRouter.search_intent].
  assert (Hcat : u "category" <> u "source" /\ u "category" <> u "faculty"
                 /\ u "category" <> u "department").
  { repeat split; intro H; vm_compute in H; discriminate H. }
  destruct Hcat as (Hcs & Hcf & Hcd).
  split; [|split].
  - intros Hnews Hevents. cbn [dict_get].
    rewrite (@str_eqb_neq (u "news") intent (fun E => Hnews (eq_sym E))).
    rewrite (@str_eqb_neq (u "events") intent (fun E => Hevents (eq_sym E))).
    destruct (negb (str_eqb scope (u "global")));
      destruct target as [[|c t]|];
      destruct (str_eqb (u "schedule") intent);
      try reflexivity;
      destruct (str_eqb (u "contacts") intent);
      try reflexivity;
      destruct (str_eqb (u "info") intent); reflexivity.
  - intros ->. cbn [dict_get].
    replace (str_eqb (u "schedule") (u "events")) with false
      by (vm_compute; reflexivity).
    replace (str_eqb (u "news") (u "events")) with false
      by (vm_compute; reflexivity).
    rewrite str_eqb_refl.
    destruct (negb (str_eqb scope (u "global")));
      destruct target as [[|c t]|]; cbn; tauto.
  - intros ->. cbn [dict_get].
    replace (str_eqb (u "schedule") (u "news")) with false
      by (vm_compute; reflexivity).
    rewrite str_eqb_refl.
    destruct (negb (str_eqb scope (u "global")));
      destruct target as [[|c t]|]; cbn; split; try tauto;
      intros H; decompose [or] H; congruence.
Qed.

(** The route bonus lies between 0 and 0.2. *)
Lemma route_bonus_range route_decision h :
  0 <= route_bonus_of route_decision h
  /\ route_bonus_of route_decision h <= 0.2.
Proof.
  unfold route_bonus_of.
  destruct (negb _); [|split; discriminate].
  destruct (option_str_eqb (dict_get (metadata h) (u "faculty")) _);
    destruct (option_str_eqb (dict_get (metadata h) (u "department")) _);
    split; discriminate.
Qed.

(** Re-ranking keeps every hit, in descending order of the new scores;
    it changes score and bonus only, never lowers a score and raises it by
    at most 0.2; under the scope "global" every score stays as it was. *)
Theorem rerank_keeps_hits_and_never_lowers
    (results : list Hit) (route_decision : QueryRouter.RouteDecision) :
  let out := _rerank_with_route_bonuses results route_decision in
  Permutation (map (rerank_step route_decision) results) out
  /\ List.length out = List.length results
  /\ descending relevance_score out
  /\ (forall h,
        let h' := rerank_step route_decision h in
        relevance_score h <= relevance_score h'
        /\ relevance_score h' <= relevance_score h + 0.2
        /\ id h' = id h /\ content h' = content h
        /\ metadata h' = metadata h /\ distance h' = distance h
        /\ search_type h' = search_type h)
  /\ (QueryRouter.search_scope route_decision = u "global" ->
      forall h, relevance_score (rerank_step route_decision h)
                == relevance_score h).
Proof.
  cbv zeta. unfold _rerank_with_route_bonuses.
  split; [apply sort_desc_perm|].
  split; [now rewrite sort_desc_length, length_map|].
  split; [apply sort_desc_descending|].
  split.
  - intro h. unfold rerank_step. cbn.
    destruct (route_bonus_range route_decision h) as [Hlo Hhi].
    split; [|split; [|repeat split]].
    + rewrite <- (Qplus_0_r (relevance_score h)) at 1.
      now apply Qplus_le_r.
    + now apply Qplus_le_r.
  - intros Hglobal h. unfold rerank_step, route_bonus_of. cbn.
    rewrite Hglobal, str_eqb_refl. cbn. ring.
Qed.

Lemma slice_to_length (B : Type) (l : list B) k :
  (List.length (slice_to l k) <= List.length l)%nat
  /\ ((0 <= k)%Z -> (Z.of_nat (List.length (slice_to l k)) <= k)%Z).
Proof.
  unfold slice_to. destruct (0 <=? k)%Z eqn:E; rewrite length_firstn.
  - split; lia.
  - apply Z.leb_gt in E. split; lia.
Qed.

Lemma slice_to_descending (B : Type) (key : B -> Q) l k :
  descending key l -> descending key (slice_to l k).
Proof.
  unfold slice_to. destruct (0 <=? k)%Z; apply descending_firstn.
Qed.

Lemma NoDup_firstn (B : Type) n (l : list B) : NoDup l -> NoDup (firstn n l).
Proof.
  intro H. rewrite <- (firstn_skipn n l) in H.
  now apply NoDup_app_remove_r in H.
Qed.

Lemma od_inv_ids d : od_inv d -> map id (od_values d) = map fst d.
Proof.
  intros [_ Hk]. unfold od_values. rewrite map_map.
  apply map_ext_in. intros [k v] Hin. simpl. now apply Hk.
Qed.

Lemma od_set_length k v d :
  (List.length (od_set k v d) <= S (List.length d))%nat.
Proof.
  induction d as [|[k' v'] r IH]; simpl; [lia|].
  destruct (option_str_eqb k' k); simpl; lia.
Qed.

Lemma seed_loop_keys l i c k :
  In k (map fst (seed_loop i l c)) -> In k (map fst c) \/ In k (map id l).
Proof.
  revert i c. induction l as [|x r IH]; intros i c H; simpl in *; [now left|].
  apply IH in H. destruct H as [H|H]; [|right; now right].
  rewrite seed_step_eq in H. apply od_set_keys in H.
  destruct H as [->|H]; [right; now left|now left].
Qed.

Lemma merge_loop_keys l i c k :
  In k (map fst (merge_loop i l c)) -> In k (map fst c) \/ In k (map id l).
Proof.
  revert i c. induction l as [|x r IH]; intros i c H; simpl in *; [now left|].
  apply IH in H. destruct H as [H|H]; [|right; now right].
  rewrite merge_step_eq in H. apply od_set_keys in H.
  destruct H as [->|H]; [right; now left|now left].
Qed.

Lemma seed_loop_length l i c :
  (List.length (seed_loop i l c) <= List.length c + List.length l)%nat.
Proof.
  revert i c. induction l as [|x r IH]; intros i c; simpl; [lia|].
  specialize (IH (S i) (seed_step i x c)). rewrite seed_step_eq in *.
  pose proof (od_set_length (id x) (seed_hit i x) c). lia.
Qed.

Lemma merge_loop_length l i c :
  (List.length (merge_loop i l c) <= List.length c + List.length l)%nat.
Proof.
  revert i c. induction l as [|x r IH]; intros i c; simpl; [lia|].
  specialize (IH (S i) (merge_step i x c)). rewrite merge_step_eq in *.
  pose proof (od_set_length (id x) (merged_hit i x (od_get (id x) c)) c).
  lia.
Qed.

(** The fused list holds each document id once, every id in it is the id
    of a vector or of a lexical hit, and it is never longer than the two
    lists together. *)
Theorem combine_results_distinct_ids
    (embedding_results keyword_results : list Hit) (top_k : Z) :
  let out := _combine_results embedding_results keyword_results top_k in
  NoDup (map id out)
  /\ (forall h, In h out ->
        In (id h) (map id embedding_results)
        \/ In (id h) (map id keyword_results))
  /\ (List.length out
      <= List.length embedding_results + List.length keyword_results)%nat.
Proof.
  cbv zeta. unfold _combine_results.
  set (fused := merge_loop 0 keyword_results
                           (seed_loop 0 embedding_results [])).
  assert (Hinv : od_inv fused).
  { apply merge_loop_inv, seed_loop_inv. split; [constructor|intros ? ? []]. }
  assert (Hall : NoDup (map id (sort_desc relevance_score (od_values fused)))).
  { eapply Permutation_NoDup;
      [apply Permutation_map, sort_desc_perm|].
    rewrite od_inv_ids by exact Hinv. apply Hinv. }
  split; [|split].
  - unfold slice_to. destruct (0 <=? top_k)%Z;
      rewrite <- firstn_map; now apply NoDup_firstn.
  - intros h Hh. apply slice_to_In, sort_desc_In in Hh.
    assert (Hk : In (id h) (map fst fused)).
    { rewrite <- od_inv_ids by exact Hinv. now apply in_map. }
    apply merge_loop_keys in Hk. destruct Hk as [Hk|Hk]; [|now right].
    apply seed_loop_keys in Hk. destruct Hk as [[]|Hk]. now left.
  - pose proof (proj1 (slice_to_length
                         (sort_desc relevance_score (od_values fused))
                         top_k)) as Hlen.
    rewrite sort_desc_length in Hlen.
    assert (Hval : List.length (od_values fused) = List.length fused)
      by apply length_map.
    pose proof (merge_loop_length keyword_results 0
                  (seed_loop 0 embedding_results [])) as Hm.
    pose proof (seed_loop_length embedding_results 0 []) as Hs.
    fold fused in Hm. simpl in Hs. lia.
Qed.

Section RouteSearchMore.

Variable lower : str -> str.
Variable encode : str -> Exc (list Q).
Variable collection_query : list Q -> Z -> Where -> Exc QueryResult.

(** The hits of a reply whose four rows are [docs], [metas], [dists] and
    [idl], position by position. *)
Fixpoint rows_hits (docs : list str) (metas : list (dict str))
    (dists : list Q) (idl : list str) : list Hit :=
  match docs, metas, dists, idl with
  | c :: docs', m :: metas', d :: dists', x :: idl' =>
    mkHit c m d (max0 (1 - d / 4)) (Some x) routed None None None
    :: rows_hits docs' metas' dists' idl'
  | _, _, _, _ => []
  end.

Lemma rows_hits_nth docs metas dists idl i h :
  nth_error (rows_hits docs metas dists idl) i = Some h ->
  exists c m d x,
    nth_error docs i = Some c /\ nth_error metas i = Some m
    /\ nth_error dists i = Some d /\ nth_error idl i = Some x
    /\ h = mkHit c m d (max0 (1 - d / 4)) (Some x) routed None None None.
Proof.
  revert metas dists idl i.
  induction docs as [|c docs IH]; intros [|m metas] [|d dists] [|x idl] i H;
    try (destruct i; discriminate H).
  destruct i as [|i]; simpl in H.
  - inversion H. now exists c, m, d, x.
  - apply IH in H. exact H.
Qed.

Lemma rows_hits_columns docs metas dists idl :
  List.length metas = List.length docs ->
  List.length dists = List.length docs ->
  List.length idl = List.length docs ->
  let hits := rows_hits docs metas dists idl in
  map content hits = docs /\ map metadata hits = metas
  /\ map distance hits = dists /\ map id hits = map Some idl.
Proof.
  revert metas dists idl.
  induction docs as [|c docs IH]; intros [|m metas] [|d dists] [|x idl];
    simpl; intros H1 H2 H3; try discriminate; [repeat split|].
  destruct (IH metas dists idl) as (Ha & Hb & Hc & Hd); try lia.
  cbv zeta in *. repeat split; f_equal; assumption.
Qed.

Lemma mapE_nth (B : Type) (f : nat -> Exc B) (ys : list B) (s : nat) :
  (forall i y, nth_error ys i = Some y -> f (s + i)%nat = Ok y) ->
  mapE f (seq s (List.length ys)) = Ok ys.
Proof.
  revert s. induction ys as [|y ys IH]; intros s H; simpl; [reflexivity|].
  rewrite <- (Nat.add_0_r s) at 1. rewrite (H 0%nat y eq_refl). simpl.
  rewrite IH; [reflexivity|].
  intros i y' Hi. replace (S s + i)%nat with (s + S i)%nat by lia.
  now apply H.
Qed.

(** A reply of the store with one row of documents, metadata, distances
    and ids of equal length is turned into hits completely and in order:
    no document is dropped, and each hit carries its document, metadata,
    distance and id. *)
Theorem route_aware_search_complete
    (query : str) (where_filter : Where) (max_results : Z)
    (query_embedding : list Q) (results : QueryResult)
    (docs : list str) (metas : list (dict str)) (dists : list Q)
    (idl : list str) :
  encode (u "query: " ++ query) = Ok query_embedding ->
  collection_query query_embedding max_results where_filter = Ok results ->
  documents results = Some [docs] ->
  metadatas results = Some [metas] ->
  distances results = Some [dists] ->
  ids results = Some [idl] ->
  List.length metas = List.length docs ->
  List.length dists = List.length docs ->
  List.length idl = List.length docs ->
  let out := _route_aware_search encode collection_query query where_filter
                                 max_results in
  out = rows_hits docs metas dists idl
  /\ map content out = docs /\ map metadata out = metas
  /\ map distance out = dists /\ map id out = map Some idl.
Proof.
  intros Henc Hqry Hdocs Hmetas Hdists Hids Hl1 Hl2 Hl3 out.
  assert (Hout : out = rows_hits docs metas dists idl).
  { unfold out, _route_aware_search, route_aware_search_try.
    rewrite Henc. cbn [ebind]. rewrite Hqry. cbn [ebind]. rewrite Hdocs.
    destruct docs as [|c docs'].
    - now destruct metas, dists, idl.
    - set (docs := c :: docs') in *.
      assert (Hlen : List.length (rows_hits docs metas dists idl)
                     = List.length docs).
      { pose proof (rows_hits_columns docs metas dists idl Hl1 Hl2 Hl3) as H.
        cbv zeta in H. destruct H as (H & _).
        rewrite <- H at 2. now rewrite length_map. }
      rewrite <- Hlen.
      rewrite (@mapE_nth _ (format_result results)
                 (rows_hits docs metas dists idl) 0); [reflexivity|].
      intros i h Hi. cbn [Nat.add].
      destruct (rows_hits_nth _ _ _ _ _ Hi)
        as (c0 & m & d & x & Hc & Hm & Hd & Hx & ->).
      unfold format_result. rewrite Hdocs, Hmetas, Hdists, Hids.
      cbn [at0 filled index nth_error ebind].
      unfold index. rewrite Hc, Hm, Hd, Hx. reflexivity. }
  split; [exact Hout|]. rewrite Hout.
  apply rows_hits_columns; assumption.
Qed.

(** When the store returns documents without distances, the search
    returns no hit at all: the score is computed from the missing
    distances although the distance itself has the default 1.0. *)
Theorem route_aware_search_without_distances
    (query : str) (where_filter : Where) (max_results : Z)
    (query_embedding : list Q) (results : QueryResult)
    (doc : str) (docs : list str) (rest : list (list str)) :
  encode (u "query: " ++ query) = Ok query_embedding ->
  collection_query query_embedding max_results where_filter = Ok results ->
  documents results = Some ((doc :: docs) :: rest) ->
  filled (distances results) = false ->
  _route_aware_search encode collection_query query where_filter max_results
  = [].
Proof.
  intros Henc Hqry Hdocs Hnone.
  unfold _route_aware_search, route_aware_search_try.
  rewrite Henc. cbn [ebind]. rewrite Hqry. cbn [ebind]. rewrite Hdocs.
  cbn [List.length seq mapE].
  assert (Herr : exists e, format_result results 0 = Err e).
  { unfold format_result. rewrite Hdocs, Hnone.
    cbn [at0 index nth_error ebind].
    destruct (if filled (metadatas results) then _ else _) as [m|e];
      cbn [ebind]; [|now exists e].
    destruct (at0 (distances results) 0) as [d|e] eqn:D;
      cbn [ebind]; [|now exists e].
    apply at0_filled in D. congruence. }
  destruct Herr as [e ->]. reflexivity.
Qed.

(** A search step returns at most as many hits as the store gave, at most
    [top_k] of them when [top_k] is not negative, in descending order of
    score. *)
Theorem search_with_route_bounds
    (query : str) (route_decision : QueryRouter.RouteDecision) (top_k : Z) :
  let out := search_with_route lower encode collection_query query
                               route_decision top_k in
  descending relevance_score out
  /\ (List.length out
      <= List.length (_route_aware_search encode collection_query
                        (enhanced_query lower query route_decision)
                        (_build_route_filters route_decision) (top_k * 5)))%nat
  /\ ((0 <= top_k)%Z -> (Z.of_nat (List.length out) <= top_k)%Z).
Proof.
  cbv zeta. unfold search_with_route, _rerank_with_route_bonuses.
  split; [apply slice_to_descending, sort_desc_descending|].
  split.
  - eapply Nat.le_trans; [apply slice_to_length|].
    now rewrite sort_desc_length, length_map.
  - apply slice_to_length.
Qed.

End RouteSearchMore.

(** *** The hybrid search *)

(** [s.lstrip()] and [s.strip()]. *)
Fixpoint lstrip (s : str) : str :=
  match s with
  | [] => []
  | c :: r => if isspace c then lstrip r else s
  end.

Definition strip (s : str) : str := rev (lstrip (rev (lstrip s))).

Lemma In_lstrip c s : In c (lstrip s) -> In c s.
Proof.
  induction s as [|d r IH]; simpl; [tauto|].
  destruct (isspace d); [right; now apply IH|tauto].
Qed.

Lemma In_strip c s : In c (strip s) -> In c s.
Proof.
  unfold strip. intro H.
  apply in_rev, In_lstrip, in_rev, In_lstrip in H. exact H.
Qed.

(** The words of [split] are made of the characters of the string that
    are no white space. *)
Lemma split_aux_chars (P : N -> Prop) s :
  (forall c, In c s -> isspace c = false -> P c) ->
  forall cur, (forall c, In c cur -> P c) ->
  forall t, In t (split_aux cur s) -> forall c, In c t -> P c.
Proof.
  induction s as [|d r IH]; intros Hs cur Hcur t Ht c Hc; simpl in Ht.
  - destruct cur as [|x cur']; [destruct Ht|].
    destruct Ht as [<-|[]]. apply Hcur. now apply in_rev.
  - assert (Hr : forall c, In c r -> isspace c = false -> P c)
      by (intros c' Hc'; apply Hs; now right).
    destruct (isspace d) eqn:E.
    + destruct cur as [|x cur'].
      * exact (IH Hr [] Hcur t Ht c Hc).
      * destruct Ht as [<-|Ht].
        -- apply Hcur. now apply in_rev.
        -- apply (IH Hr [] (fun c' (H : In c' []) => match H with end)
                     t Ht c Hc).
    + refine (IH Hr (d :: cur) _ t Ht c Hc).
      intros c' [<-|Hc']; [apply Hs; [now left|exact E]|now apply Hcur].
Qed.

Lemma split_chars (P : N -> Prop) s :
  (forall c, In c s -> isspace c = false -> P c) ->
  forall t, In t (split s) -> forall c, In c t -> P c.
Proof.
  intros Hs t Ht c Hc.
  apply (@split_aux_chars P s Hs [] (fun c' (H : In c' []) =>
                                       match H with end) t Ht c Hc).
Qed.

(** The reply of [collection.get]. *)
Record GetResult := mkGetResult {
  g_documents : option (list str);
  g_metadatas : option (list (dict str));
  g_ids : option (list str)
}.

Definition stop_words : list str :=
  [u "як"; u "мені"; u "для"; u "на"; u "в"; u "з"; u "по"; u "і"; u "а";
   u "але"; u "або"; u "те"; u "що"; u "хто"; u "коли"; u "де"; u "чому";
   u "який"; u "яка"; u "яке"; u "чи"; u "є"; u "був"; u "була";
   u "розкажи"; u "скажи"; u "покажи"; u "знайди"; u "дай"; u "такий";
   u "така"; u "таке"].

Section HybridSearch.

Variable lower : str -> str.
Variable ratio : str -> str -> Q.

(** [\w] of [re] on one character: a letter, a digit or the underscore,
    by the Unicode database. *)
Variable isword : N -> bool.

(** [list(set(l))]: the elements of [l] in the iteration order of the
    set. *)
Variable list_of_set : list str -> list str.

Variable encode : str -> Exc (list Q).
Variable collection_query : list Q -> Z -> Where -> Exc QueryResult.
Variable collection_get : Where -> Exc GetResult.

(** [self.embedding_model] and [self.collection] are set. *)
Variable embedding_model_loaded collection_ready : bool.

Definition _extract_keywords (query : str) : list str :=
  let clean_query :=
    map (fun c => if isword c || isspace c then c else 32%N) (lower query) in
  let words :=
    map strip (filter (fun w => (2 <? List.length (strip w))%nat)
                      (split clean_query)) in
  let keywords :=
    filter (fun w => negb (existsb (str_eqb w) stop_words)) words in
  match keywords with
  | [] => keywords
  | _ =>
    if (List.length keywords <=? 2)%nat
    then keywords ++ [join (u " ") keywords] else keywords
  end.

(** [where_clause]: news only, of one category when [category_filter] is
    given and not empty. *)
Definition category_where (category_filter : option str) : Where :=
  match category_filter with
  | Some ((_ :: _) as category) =>
    WAnd [WEq (u "source") (u "news"); WEq (u "category") category]
  | _ => WEq (u "source") (u "news")
  end.

(** The loop of [_keyword_search] over the documents, from index [i]. *)
Fixpoint score_loop (all_docs : GetResult) (keywords : list str) (i : nat)
    (documents : list str) : Exc (list Hit) :=
  match documents with
  | [] => Ok []
  | doc_content :: rest =>
    metadata <~ (match g_metadatas all_docs with
                 | Some ((_ :: _) as metas) => index metas i
                 | _ => Ok []
                 end) ;;
    doc_id <~ (match g_ids all_docs with
               | Some ((_ :: _) as idl) => index idl i
               | _ => Ok (str_of_Z (Z.of_nat i))
               end) ;;
    let score := _calculate_keyword_score lower ratio doc_content keywords
                                          metadata in
    others <~ score_loop all_docs keywords (S i) rest ;;
    Ok (if Qgtb score 0
        then mkHit doc_content metadata (1 - score / 10) score (Some doc_id)
                   keyword None None None :: others
        else others)
  end.

(** The [try] block of [_keyword_search]. *)
Definition keyword_search_try (query : str) (max_results : Z)
    (category_filter : option str) : Exc (list Hit) :=
  let keywords := _extract_keywords query in
  let where_clause := category_where category_filter in
  all_docs <~ collection_get where_clause ;;
  match g_documents all_docs with
  | Some ((_ :: _) as documents) =>
    scored_results <~ score_loop all_docs keywords 0 documents ;;
    let scored_results := sort_desc relevance_score scored_results in
    Ok (slice_to scored_results max_results)
  | _ => Ok []
  end.

Definition _keyword_search (query : str) (max_results : Z)
    (category_filter : option str) : list Hit :=
  match keyword_search_try query max_results category_filter with
  | Ok scored_results => scored_results
  | Err _ => []
  end.

(** *** Properties of the keyword extraction and search *)

Lemma stop_words_without_space sw :
  In sw stop_words -> ~ In 32%N sw.
Proof.
  intros Hsw H32.
  assert (Hall : forallb (fun w => negb (existsb (N.eqb 32) w)) stop_words
                 = true) by (vm_compute; reflexivity).
  rewrite forallb_forall in Hall. specialize (Hall sw Hsw).
  apply negb_true_iff in Hall.
  assert (Hex : existsb (N.eqb 32) sw = true).
  { apply existsb_exists. exists 32%N. split; [exact H32|apply N.eqb_refl]. }
  congruence.
Qed.

Lemma not_stop_word_iff w :
  existsb (str_eqb w) stop_words = false <-> ~ In w stop_words.
Proof.
  split.
  - intros H Hin.
    assert (existsb (str_eqb w) stop_words = true).
    { apply existsb_exists. exists w. split; [exact Hin|apply str_eqb_refl]. }
    congruence.
  - intro H. destruct (existsb (str_eqb w) stop_words) eqn:E; [|reflexivity].
    apply existsb_exists in E. destruct E as (sw & Hsw & Heq).
    apply str_eqb_eq in Heq. subst sw. contradiction.
Qed.

(** Every keyword has more than two characters and is no stop word, and
    no punctuation survives: a keyword consists of word characters, with
    single spaces in the phrase that is appended when the query has one
    or two significant words. *)
Theorem extract_keywords_significant (query : str) (keyword : str) :
  In keyword (_extract_keywords query) ->
  (2 < List.length keyword)%nat
  /\ ~ In keyword stop_words
  /\ (forall c, In c keyword -> isword c = true \/ c = 32%N).
Proof.
  unfold _extract_keywords.
  set (clean_query := map (fun c => if isword c || isspace c then c else 32%N)
                          (lower query)).
  set (words := map strip (filter (fun w => (2 <? List.length (strip w))%nat)
                                  (split clean_query))).
  set (keywords := filter (fun w => negb (existsb (str_eqb w) stop_words))
                          words).
  assert (Hclean : forall c, In c clean_query -> isspace c = false ->
                             isword c = true).
  { intros c Hc Hsp. unfold clean_query in Hc. apply in_map_iff in Hc.
    destruct Hc as (c0 & Hc0 & _).
    destruct (isword c0) eqn:Ew; cbn [orb] in Hc0; [now subst c0|].
    destruct (isspace c0) eqn:Es; subst c; [congruence|].
    vm_compute in Hsp. discriminate Hsp. }
  assert (Hkw : forall w, In w keywords ->
            (2 < List.length w)%nat /\ ~ In w stop_words
            /\ forall c, In c w -> isword c = true).
  { intros w Hw. unfold keywords in Hw. apply filter_In in Hw.
    destruct Hw as [Hw Hstop]. apply negb_true_iff, not_stop_word_iff in Hstop.
    unfold words in Hw. apply in_map_iff in Hw.
    destruct Hw as (w0 & <- & Hw0). apply filter_In in Hw0.
    destruct Hw0 as [Hw0 Hlen]. apply Nat.ltb_lt in Hlen.
    split; [exact Hlen|]. split; [exact Hstop|].
    intros c Hc. apply In_strip in Hc.
    exact (@split_chars (fun c => isword c = true) clean_query Hclean
             w0 Hw0 c Hc). }
  assert (Hplain : In keyword keywords ->
            (2 < List.length keyword)%nat /\ ~ In keyword stop_words
            /\ forall c, In c keyword -> isword c = true \/ c = 32%N).
  { intro Hin. destruct (Hkw _ Hin) as (H1 & H2 & H3).
    split; [exact H1|]. split; [exact H2|]. intros c Hc. left. now apply H3. }
  destruct keywords as [|a [|b [|c rest]]] eqn:Ek.
  - intros [].
  - cbn [List.length Nat.leb]. intro Hin. apply in_app_or in Hin.
    destruct Hin as [Hin|[<-|[]]]; [now apply Hplain|].
    cbn [join]. apply Hplain. now left.
  - cbn [List.length Nat.leb]. intro Hin. apply in_app_or in Hin.
    destruct Hin as [Hin|[<-|[]]]; [now apply Hplain|].
    cbn [join].
    destruct (Hkw a (or_introl eq_refl)) as (Ha1 & _ & Ha3).
    destruct (Hkw b (or_intror (or_introl eq_refl))) as (_ & _ & Hb3).
    split; [rewrite length_app; lia|]. split.
    + intro Hstop. apply (stop_words_without_space Hstop).
      apply in_or_app. right. apply in_or_app. left.
      vm_compute. now left.
    + intros ch Hch. apply in_app_or in Hch. destruct Hch as [Hch|Hch];
        [left; now apply Ha3|].
      apply in_app_or in Hch. destruct Hch as [Hch|Hch];
        [|left; now apply Hb3].
      right. vm_compute in Hch. destruct Hch as [<-|[]]. reflexivity.
  - cbn [List.length Nat.leb]. exact Hplain.
Qed.

Lemma score_loop_hits all_docs keywords i documents scored hit :
  score_loop all_docs keywords i documents = Ok scored ->
  In hit scored ->
  0 < relevance_score hit
  /\ search_type hit = keyword
  /\ distance hit = 1 - relevance_score hit / 10
  /\ relevance_score hit
     = _calculate_keyword_score lower ratio (content hit) keywords
                                (metadata hit)
  /\ In (content hit) documents.
Proof.
  revert i scored.
  induction documents as [|doc rest IH]; intros i scored H Hin; simpl in H.
  - inversion H; subst. destruct Hin.
  - destruct (match g_metadatas all_docs with
              | Some ((_ :: _) as metas) => index metas i
              | _ => Ok []
              end) as [md|]; cbn [ebind] in H; [|discriminate].
    destruct (match g_ids all_docs with
              | Some ((_ :: _) as idl) => index idl i
              | _ => Ok (str_of_Z (Z.of_nat i))
              end) as [doc_id|]; cbn [ebind] in H; [|discriminate].
    destruct (score_loop all_docs keywords (S i) rest) as [others|] eqn:E;
      cbn [ebind] in H; [|discriminate].
    inversion H; subst scored; clear H.
    assert (Hrest : In hit others ->
              0 < relevance_score hit /\ search_type hit = keyword
              /\ distance hit = 1 - relevance_score hit / 10
              /\ relevance_score hit
                 = _calculate_keyword_score lower ratio (content hit)
                                            keywords (metadata hit)
              /\ In (content hit) (doc :: rest)).
    { intro Ho. destruct (IH _ _ E Ho) as (H1 & H2 & H3 & H4 & H5).
      repeat split; try assumption. now right. }
    destruct (Qgtb (_calculate_keyword_score lower ratio doc keywords
                                             md) 0) eqn:Eg;
      [|now apply Hrest].
    destruct Hin as [<-|Hin]; [|now apply Hrest].
    cbn. repeat split; try reflexivity; [|now left].
    unfold Qgtb in Eg. apply negb_true_iff in Eg.
    apply Qnot_le_lt. intro Hle. apply Qle_bool_iff in Hle. congruence.
Qed.

(** The keyword search never raises and returns, in descending order of
    score and at most [max_results] of them, only documents of the store
    with a positive lexical score: each hit has the origin "keyword", the
    score of the lexical scorer for the keywords of the query and the
    distance 1 - score / 10.  It returns nothing when the store raises or
    has no document. *)
Theorem keyword_search_hits
    (query : str) (max_results : Z) (category_filter : option str) :
  let out := _keyword_search query max_results category_filter in
  descending relevance_score out
  /\ ((0 <= max_results)%Z -> (Z.of_nat (List.length out) <= max_results)%Z)
  /\ (forall hit, In hit out ->
        0 < relevance_score hit
        /\ search_type hit = keyword
        /\ distance hit = 1 - relevance_score hit / 10
        /\ relevance_score hit
           = _calculate_keyword_score lower ratio (content hit)
               (_extract_keywords query) (metadata hit))
  /\ (forall e, collection_get (category_where category_filter) = Err e ->
        out = [])
  /\ (forall all_docs,
        collection_get (category_where category_filter) = Ok all_docs ->
        g_documents all_docs = None \/ g_documents all_docs = Some [] ->
        out = []).
Proof.
  cbv zeta. unfold _keyword_search, keyword_search_try.
  destruct (collection_get (category_where category_filter))
    as [all_docs|e0]; cbn [ebind].
  2:{ split; [apply SSorted_nil|]. split; [intros; simpl; lia|].
      split; [intros hit []|]. split; [reflexivity|discriminate]. }
  destruct (g_documents all_docs) as [[|doc documents]|] eqn:Edocs.
  1,3: (split; [apply SSorted_nil|]; split; [intros; simpl; lia|];
        split; [intros hit []|]; split; [discriminate|reflexivity]).
  destruct (score_loop all_docs (_extract_keywords query) 0
                       (doc :: documents)) as [scored|e1] eqn:Es;
    cbn [ebind].
  2:{ split; [apply SSorted_nil|]; split; [intros; simpl; lia|];
        split; [intros hit []|]; split; [discriminate|].
      intros ad Had [H|H]; inversion Had; subst; congruence. }
  split; [apply slice_to_descending, sort_desc_descending|].
  split; [apply slice_to_length|].
  split.
  - intros hit Hin. apply slice_to_In, sort_desc_In in Hin.
    destruct (@score_loop_hits _ _ _ _ _ _ Es Hin) as (H1 & H2 & H3 & H4 & _).
    repeat split; assumption.
  - split; [discriminate|].
    intros ad Had [H|H]; inversion Had; subst; congruence.
Qed.

(** *** The vector search of the hybrid path *)

(** [synonyms], in the order of the dict literal. *)
Definition synonyms : list (str * list str) :=
  [(u "оплат", [u "плат"; u "платіж"; u "платити"; u "заплатити"; u "гроші";
                u "кошт"; u "вартість"; u "реквізит"; u "банк"; u "рахунок";
                u "квитанц"; u "переказ"]);
   (u "плат", [u "оплат"; u "платіж"; u "платити"; u "заплатити"; u "гроші";
               u "кошт"]);
   (u "учёб", [u "навчання"; u "освіт"; u "студент"; u "семестр"; u "курс";
               u "університет"; u "НАУ"]);
   (u "учеб", [u "навчання"; u "освіт"; u "студент"; u "семестр"; u "курс"]);
   (u "реквізит", [u "банківськ"; u "рахунок"; u "код"; u "iban"; u "оплат";
                   u "переказ"; u "квитанц"]);
   (u "реквизит", [u "реквізит"; u "банківськ"; u "рахунок"; u "код";
                   u "оплат"]);
   (u "навчання", [u "освіт"; u "лекці"; u "семінар"; u "заняття"; u "курс";
                   u "студент"]);
   (u "студент", [u "учн"; u "слухач"; u "курсант"; u "груп"; u "факультет"]);
   (u "університет", [u "НАУ"; u "виш"; u "інститут"; u "факультет";
                      u "кафедр"]);
   (u "наук", [u "дослідж"; u "публікац"; u "конференц"; u "симпозіум";
               u "дисертац"]);
   (u "співпрац", [u "партнер"; u "угод"; u "проект"; u "ініціатив";
                   u "договір"]);
   (u "новин", [u "подій"; u "заход"; u "інформац"; u "повідомлен";
                u "оголошен"]);
   (u "вступ", [u "абітурієнт"; u "прийом"; u "документ"; u "конкурс";
                u "зарахуван"]);
   (u "розклад", [u "пар"; u "заняття"; u "час"; u "графік"; u "лекці"])].

(** [for value in values: if value in query_lower: ...; break]: the terms
    added for the first value of [candidates] found in the query. *)
Fixpoint reverse_match (query_lower key : str) (values candidates : list str)
  : list str :=
  match candidates with
  | [] => []
  | value :: rest =>
    if contains value query_lower
    then key :: filter (fun v => negb (str_eqb v value)) (firstn 3 values)
    else reverse_match query_lower key values rest
  end.

(** The body of the loop over [synonyms.items()]. *)
Definition expand_step (query_lower : str) (expanded_terms : list str)
    (item : str * list str) : list str :=
  let (key, values) := item in
  let expanded_terms :=
    if contains key query_lower then expanded_terms ++ firstn 5 values
    else expanded_terms in
  expanded_terms ++ reverse_match query_lower key values values.

Definition _expand_query_improved (query : str) : str :=
  let query_lower := lower query in
  let expanded_terms := fold_left (expand_step query_lower) synonyms [query] in
  let unique_terms := list_of_set expanded_terms in
  join (u " ") (firstn 15 unique_terms).

(** One entry of [formatted_results]. *)
Definition embedding_result (results : QueryResult) (i : nat) : Exc Hit :=
  distance <~ (if filled (distances results)
               then at0 (distances results) i else Ok 1) ;;
  metadata <~ (if filled (metadatas results)
               then at0 (metadatas results) i else Ok []) ;;
  content <~ at0 (documents results) i ;;
  id <~ (if filled (ids results)
         then (x <~ at0 (ids results) i ;; Ok (Some x)) else Ok None) ;;
  Ok (mkHit content metadata distance (max0 (1 - distance / 4)) id embedding
            None None None).

(** The [try] block of [_embedding_search]. *)
Definition embedding_search_try (query : str) (max_results : Z)
    (category_filter : option str) : Exc (list Hit) :=
  let expanded_query := _expand_query_improved query in
  let prefixed_query := u "query: " ++ expanded_query in
  query_embedding <~ encode prefixed_query ;;
  let where_clause := category_where category_filter in
  let search_count := Z.min (max_results * 10) 500 in
  results <~ collection_query query_embedding search_count where_clause ;;
  formatted_results <~
    match documents results with
    | Some (((_ :: _) as docs0) :: _) =>
      mapE (embedding_result results) (seq 0 (List.length docs0))
    | _ => Ok []
    end ;;
  let formatted_results := sort_asc distance formatted_results in
  Ok (slice_to formatted_results max_results).

Definition _embedding_search (query : str) (max_results : Z)
    (category_filter : option str) : list Hit :=
  match embedding_search_try query max_results category_filter with
  | Ok formatted_results => formatted_results
  | Err _ => []
  end.

Definition search_improved (query : str) (top_k : Z)
    (category_filter : option str) : list Hit :=
  if negb embedding_model_loaded || negb collection_ready then []
  else
    let embedding_results :=
      _embedding_search query (top_k * 10) category_filter in
    let keyword_results := _keyword_search query (top_k * 5) category_filter in
    _combine_results embedding_results keyword_results top_k.

(** *** Properties of the query expansion *)

Lemma reverse_match_terms query_lower key values candidates t :
  In t (reverse_match query_lower key values candidates) ->
  t = key \/ In t values.
Proof.
  induction candidates as [|value rest IH]; cbn [reverse_match];
    [intros []|].
  destruct (contains value query_lower); [|exact IH].
  intros [<-|H]; [now left|]. right.
  apply filter_In in H. destruct H as [H _].
  exact (@In_firstn _ _ _ _ H).
Qed.

Lemma expand_step_terms query_lower acc key values t :
  In t (expand_step query_lower acc (key, values)) ->
  In t acc \/ t = key \/ In t values.
Proof.
  unfold expand_step. intro H. apply in_app_or in H.
  destruct H as [H|H]; [|right; exact (@reverse_match_terms _ _ _ _ _ H)].
  destruct (contains key query_lower); [|now left].
  apply in_app_or in H. destruct H as [H|H]; [now left|].
  right. right. exact (@In_firstn _ _ _ _ H).
Qed.

Lemma expand_fold_terms query_lower table acc t :
  In t (fold_left (expand_step query_lower) table acc) ->
  In t acc
  \/ exists key values, In (key, values) table /\ (t = key \/ In t values).
Proof.
  revert acc. induction table as [|[key values] rest IH]; intros acc H;
    simpl in H; [now left|].
  apply IH in H. destruct H as [H|(k & v & Hin & Ht)].
  - apply expand_step_terms in H. destruct H as [H|H]; [now left|].
    right. exists key, values. split; [now left|exact H].
  - right. exists k, v. split; [now right|exact Ht].
Qed.

(** No key and no value of [synonyms] occurs in the lowered query. *)
Definition mentions_no_term (query_lower : str) : bool :=
  forallb (fun item : str * list str =>
             negb (contains (fst item) query_lower)
             && forallb (fun v => negb (contains v query_lower)) (snd item))
          synonyms.

Lemma reverse_match_none query_lower key values candidates :
  forallb (fun v => negb (contains v query_lower)) candidates = true ->
  reverse_match query_lower key values candidates = [].
Proof.
  induction candidates as [|value rest IH]; cbn [reverse_match forallb];
    [reflexivity|].
  intro H. apply andb_prop in H. destruct H as [Hv Hrest].
  apply negb_true_iff in Hv. rewrite Hv. now apply IH.
Qed.

Lemma expand_fold_none query_lower table acc :
  forallb (fun item : str * list str =>
             negb (contains (fst item) query_lower)
             && forallb (fun v => negb (contains v query_lower)) (snd item))
          table = true ->
  fold_left (expand_step query_lower) table acc = acc.
Proof.
  revert acc. induction table as [|[key values] rest IH]; intros acc H;
    simpl in *; [reflexivity|].
  apply andb_prop in H. destruct H as [Hitem Hrest].
  apply andb_prop in Hitem. destruct Hitem as [Hkey Hvalues].
  apply negb_true_iff in Hkey. rewrite Hkey.
  rewrite (@reverse_match_none _ _ _ _ Hvalues), app_nil_r.
  now apply IH.
Qed.

Lemma join_space_one (t : str) : join (u " ") [t] = t.
Proof. reflexivity. Qed.

(** The expanded query joins at most fifteen distinct terms, each the
    query itself or a key or a value of the table of synonyms; a query
    that mentions no term of the table is passed on unchanged. *)
Theorem expand_query_terms (query : str) :
  (forall l, NoDup (list_of_set l)
             /\ forall x, In x (list_of_set l) <-> In x l) ->
  (exists terms,
      _expand_query_improved query = join (u " ") terms
      /\ (List.length terms <= 15)%nat
      /\ NoDup terms
      /\ forall t, In t terms ->
           t = query
           \/ exists key values,
                In (key, values) synonyms /\ (t = key \/ In t values))
  /\ (mentions_no_term (lower query) = true ->
      _expand_query_improved query = query).
Proof.
  intro Hset. split.
  - exists (firstn 15 (list_of_set
       (fold_left (expand_step (lower query)) synonyms [query]))).
    split; [reflexivity|]. split; [rewrite length_firstn; lia|].
    split; [apply NoDup_firstn, Hset|].
    intros t Ht. apply In_firstn in Ht.
    apply (proj1 (proj2 (Hset _) t)) in Ht.
    apply expand_fold_terms in Ht. destruct Ht as [[<-|[]]|Ht];
      [now left|now right].
  - intro Hnone. unfold _expand_query_improved. cbv zeta.
    rewrite (@expand_fold_none _ _ _ Hnone).
    destruct (Hset [query]) as [Hnd Hin].
    destruct (list_of_set [query]) as [|a [|b r]] eqn:E.
    + exfalso. apply (proj2 (Hin query)). now left.
    + assert (Ha : a = query).
      { destruct (proj1 (Hin a) (or_introl eq_refl)) as [H|[]]. now symmetry. }
      subst a. reflexivity.
    + exfalso.
      assert (Ha : a = query).
      { destruct (proj1 (Hin a) (or_introl eq_refl)) as [H|[]]. now symmetry. }
      assert (Hb : b = query).
      { destruct (proj1 (Hin b) (or_intror (or_introl eq_refl))) as [H|[]].
        now symmetry. }
      subst a b. inversion Hnd as [|? ? Hnot _]. apply Hnot. now left.
Qed.

(** *** Properties of the vector search of the hybrid path *)

Lemma embedding_result_hit results i hit :
  embedding_result results i = Ok hit ->
  search_type hit = embedding
  /\ relevance_score hit = max0 (1 - distance hit / 4)
  /\ (filled (distances results) = false -> distance hit = 1).
Proof.
  unfold embedding_result. intro H.
  destruct (filled (distances results)) eqn:Ed.
  - destruct (at0 (distances results) i) as [d|]; cbn [ebind] in H;
      [|discriminate].
    destruct (if filled (metadatas results) then _ else _) as [m|];
      cbn [ebind] in H; [|discriminate].
    destruct (at0 (documents results) i) as [c|]; cbn [ebind] in H;
      [|discriminate].
    destruct (if filled (ids results) then _ else _) as [x|];
      cbn [ebind] in H; [|discriminate].
    inversion H; subst hit. cbn. repeat split. discriminate.
  - cbn [ebind] in H.
    destruct (if filled (metadatas results) then _ else _) as [m|];
      cbn [ebind] in H; [|discriminate].
    destruct (at0 (documents results) i) as [c|]; cbn [ebind] in H;
      [|discriminate].
    destruct (if filled (ids results) then _ else _) as [x|];
      cbn [ebind] in H; [|discriminate].
    inversion H; subst hit. cbn. repeat split.
Qed.

Lemma max0_nonneg x : 0 <= max0 x.
Proof.
  unfold max0, Qgtb. destruct (Qle_bool x 0) eqn:E; cbn [negb].
  - apply Qle_refl.
  - apply Qlt_le_weak, Qnot_le_lt. intro H. apply Qle_bool_iff in H.
    congruence.
Qed.

(** The vector search of the hybrid path never raises.  Its hits come in
    ascending order of distance, at most [max_results] of them, each with
    the origin "embedding" and the score max(0, 1 - distance / 4), which
    is never negative.  It returns nothing when the encoder or the store
    raises; when the store returns no distances, every hit has the
    distance 1 and the score 3/4. *)
Theorem embedding_search_hits
    (query : str) (max_results : Z) (category_filter : option str) :
  let out := _embedding_search query max_results category_filter in
  let prefixed_query := u "query: " ++ _expand_query_improved query in
  ascending distance out
  /\ ((0 <= max_results)%Z -> (Z.of_nat (List.length out) <= max_results)%Z)
  /\ (forall hit, In hit out ->
        search_type hit = embedding
        /\ relevance_score hit = max0 (1 - distance hit / 4)
        /\ 0 <= relevance_score hit)
  /\ (forall e, encode prefixed_query = Err e -> out = [])
  /\ (forall query_embedding e,
        encode prefixed_query = Ok query_embedding ->
        collection_query query_embedding (Z.min (max_results * 10) 500)
                         (category_where category_filter) = Err e ->
        out = [])
  /\ (forall query_embedding results,
        encode prefixed_query = Ok query_embedding ->
        collection_query query_embedding (Z.min (max_results * 10) 500)
                         (category_where category_filter) = Ok results ->
        filled (distances results) = false ->
        forall hit, In hit out ->
          distance hit = 1 /\ relevance_score hit == 3 # 4).
Proof.
  cbv zeta. unfold _embedding_search, embedding_search_try.
  destruct (encode (u "query: " ++ _expand_query_improved query))
    as [query_embedding|e0]; cbn [ebind].
  2:{ split; [apply SSorted_nil|]. split; [intros; simpl; lia|].
      split; [intros hit []|]. split; [reflexivity|].
      split; discriminate. }
  destruct (collection_query query_embedding (Z.min (max_results * 10) 500)
                             (category_where category_filter))
    as [results|e1] eqn:Eq; cbn [ebind].
  2:{ split; [apply SSorted_nil|]. split; [intros; simpl; lia|].
      split; [intros hit []|]. split; [discriminate|].
      split; [reflexivity|]. intros v r Hv. inversion Hv; subst v.
      rewrite Eq. discriminate. }
  destruct (match documents results with
            | Some ((_ :: _) as docs0 :: _) =>
              mapE (embedding_result results) (seq 0 (List.length docs0))
            | _ => Ok []
            end) as [formatted|e2] eqn:Ef; cbn [ebind].
  2:{ split; [apply SSorted_nil|]. split; [intros; simpl; lia|].
      split; [intros hit []|]. split; [discriminate|].
      split; [|intros v r _ _ _ hit []].
      intros v e Hv Hr. reflexivity. }
  assert (Hhit : forall hit, In hit formatted ->
            search_type hit = embedding
            /\ relevance_score hit = max0 (1 - distance hit / 4)
            /\ (filled (distances results) = false -> distance hit = 1)).
  { intros hit Hin.
    destruct (documents results) as [[|[|d0 docs0] rows]|];
      try (inversion Ef; subst formatted; destruct Hin).
    destruct (@mapE_In _ _ _ _ _ _ Ef Hin) as (i & _ & Hi).
    exact (@embedding_result_hit _ _ _ Hi). }
  split.
  { unfold slice_to. destruct (0 <=? max_results)%Z;
      apply ascending_firstn, sort_asc_ascending. }
  split; [apply slice_to_length|].
  split.
  { intros hit Hin. apply slice_to_In, sort_asc_In in Hin.
    destruct (Hhit hit Hin) as (H1 & H2 & _).
    split; [exact H1|]. split; [exact H2|]. rewrite H2. apply max0_nonneg. }
  split; [discriminate|].
  split; [intros v e Hv Hr; inversion Hv; subst v; rewrite Eq in Hr;
          discriminate|].
  intros v r Hv Hr Hnone hit Hin. inversion Hv; subst v.
  rewrite Eq in Hr. inversion Hr; subst r.
  apply slice_to_In, sort_asc_In in Hin.
  destruct (Hhit hit Hin) as (_ & H2 & H3).
  specialize (H3 Hnone). split; [exact H3|].
  rewrite H2, H3. reflexivity.
Qed.

(** *** Properties of the hybrid search *)

Lemma od_get_In k d h : od_get k d = Some h -> In h (od_values d).
Proof.
  induction d as [|[k' v'] r IH]; simpl; [discriminate|].
  destruct (option_str_eqb k' k).
  - intro H. inversion H. now left.
  - intro H. right. now apply IH.
Qed.

Lemma od_set_Forall (P : Hit -> Prop) k v d :
  P v -> Forall P (od_values d) -> Forall P (od_values (od_set k v d)).
Proof.
  intros Hv Hd. rewrite Forall_forall in *. intros h Hh.
  apply in_map_iff in Hh. destruct Hh as ([k0 v0] & <- & Hin).
  apply od_set_In in Hin. destruct Hin as [Heq|Hin].
  - now inversion Heq.
  - apply Hd. apply in_map_iff. now exists (k0, v0).
Qed.

Lemma seed_loop_Forall (P : Hit -> Prop) :
  (forall i x, P (seed_hit i x)) ->
  forall l i c, Forall P (od_values c) ->
                Forall P (od_values (seed_loop i l c)).
Proof.
  intros Hseed l. induction l as [|x r IH]; intros i c H; simpl; [exact H|].
  apply IH. rewrite seed_step_eq. now apply od_set_Forall.
Qed.

Lemma merge_loop_Forall (P R : Hit -> Prop) :
  (forall i x, R x -> P (merged_hit i x None)) ->
  (forall i x e, R x -> P e -> P (merged_hit i x (Some e))) ->
  forall l i c, Forall R l -> Forall P (od_values c) ->
                Forall P (od_values (merge_loop i l c)).
Proof.
  intros Hnew Hold l. induction l as [|x r IH]; intros i c Hl H; simpl;
    [exact H|].
  inversion Hl as [|? ? Hx Hr]; subst.
  apply IH; [exact Hr|]. rewrite merge_step_eq. apply od_set_Forall; [|exact H].
  destruct (od_get (id x) c) as [e|] eqn:E; [|now apply Hnew].
  apply Hold; [exact Hx|].
  rewrite Forall_forall in H. apply H. exact (od_get_In _ _ E).
Qed.

Lemma keyword_search_positive query max_results category_filter :
  Forall (fun hit => 0 < relevance_score hit)
         (_keyword_search query max_results category_filter).
Proof.
  apply Forall_forall. intros hit.
  unfold _keyword_search, keyword_search_try.
  destruct (collection_get (category_where category_filter))
    as [all_docs|]; cbn [ebind]; [|intros []].
  destruct (g_documents all_docs) as [[|doc documents]|]; try (intros []).
  destruct (score_loop all_docs (_extract_keywords query) 0
                       (doc :: documents)) as [scored|] eqn:Es;
    cbn [ebind]; [|intros []].
  intro Hin. apply slice_to_In, sort_desc_In in Hin.
  exact (proj1 (@score_loop_hits _ _ _ _ _ _ Es Hin)).
Qed.

Lemma seed_hit_nonneg i x : 0 <= relevance_score (seed_hit i x).
Proof.
  change (relevance_score (seed_hit i x))
    with (max0 ((2 - distance x) * 50)
          + inject_Z (Z.max 0 ((10 - Z.of_nat i) * 5))).
  pose proof (max0_nonneg ((2 - distance x) * 50)) as H1.
  assert (H2 : 0 <= inject_Z (Z.max 0 ((10 - Z.of_nat i) * 5)))
    by (unfold Qle; simpl; lia).
  set (a := max0 ((2 - distance x) * 50)) in *.
  set (b := inject_Z (Z.max 0 ((10 - Z.of_nat i) * 5))) in *.
  lra.
Qed.

Lemma merged_hit_new_score i x :
  relevance_score (merged_hit i x None) = relevance_score x * 3.
Proof. reflexivity. Qed.

Lemma merged_hit_held_score i x e :
  relevance_score (merged_hit i x (Some e))
  = relevance_score e + relevance_score x * 2.
Proof. reflexivity. Qed.

(** The hybrid search returns nothing when the encoder or the collection
    is missing.  Otherwise it returns at most [top_k] hits in descending
    order of score, one per document id, each with one of the three
    origins, a score that is not negative, and the id of a hit of the
    vector search or of the keyword search.  When the encoder raises, the
    search lives on the keyword search alone: no hit has the origin
    "embedding" and every score is positive. *)
Theorem search_improved_hits
    (query : str) (top_k : Z) (category_filter : option str) :
  let out := search_improved query top_k category_filter in
  (embedding_model_loaded = false \/ collection_ready = false -> out = [])
  /\ descending relevance_score out
  /\ ((0 <= top_k)%Z -> (Z.of_nat (List.length out) <= top_k)%Z)
  /\ NoDup (map id out)
  /\ (forall hit, In hit out ->
        fused_origin hit
        /\ 0 <= relevance_score hit
        /\ (In (id hit)
               (map id (_embedding_search query (top_k * 10) category_filter))
            \/ In (id hit)
                  (map id (_keyword_search query (top_k * 5)
                                           category_filter))))
  /\ (forall e,
        encode (u "query: " ++ _expand_query_improved query) = Err e ->
        forall hit, In hit out ->
          search_type hit <> embedding /\ 0 < relevance_score hit).
Proof.
  cbv zeta. unfold search_improved.
  destruct (negb embedding_model_loaded || negb collection_ready) eqn:Eoff.
  { split; [reflexivity|]. split; [apply SSorted_nil|].
    split; [intros; simpl; lia|]. split; [apply NoDup_nil|].
    split; [intros hit []|intros e _ hit []]. }
  apply orb_false_elim in Eoff. destruct Eoff as [E1 E2].
  apply negb_false_iff in E1, E2.
  set (ev := _embedding_search query (top_k * 10) category_filter).
  set (kw := _keyword_search query (top_k * 5) category_filter).
  unfold _combine_results.
  set (fused := merge_loop 0 kw (seed_loop 0 ev [])).
  assert (Hinv : od_inv fused).
  { apply merge_loop_inv, seed_loop_inv. split; [constructor|intros ? ? []]. }
  assert (Hpos : Forall (fun hit => 0 < relevance_score hit) kw)
    by apply keyword_search_positive.
  split; [intros [H|H]; congruence|].
  split; [apply slice_to_descending, sort_desc_descending|].
  split; [apply slice_to_length|].
  split.
  { assert (Hall : NoDup (map id (sort_desc relevance_score
                                            (od_values fused)))).
    { eapply Permutation_NoDup; [apply Permutation_map, sort_desc_perm|].
      rewrite od_inv_ids by exact Hinv. apply Hinv. }
    unfold slice_to. destruct (0 <=? top_k)%Z;
      rewrite <- firstn_map; now apply NoDup_firstn. }
  split.
  - intros hit Hin. apply slice_to_In, sort_desc_In in Hin.
    split; [|split].
    + revert hit Hin. apply Forall_forall.
      apply merge_loop_origin, seed_loop_origin. constructor.
    + revert hit Hin. apply Forall_forall.
      apply (@merge_loop_Forall (fun h => 0 <= relevance_score h)
                                (fun h => 0 < relevance_score h)).
      * intros i x Hx. rewrite merged_hit_new_score. lra.
      * intros i x e Hx He. rewrite merged_hit_held_score. lra.
      * exact Hpos.
      * apply seed_loop_Forall; [apply seed_hit_nonneg|constructor].
    + assert (Hk : In (id hit) (map fst fused)).
      { rewrite <- od_inv_ids by exact Hinv. now apply in_map. }
      apply merge_loop_keys in Hk. destruct Hk as [Hk|Hk]; [|now right].
      apply seed_loop_keys in Hk. destruct Hk as [[]|Hk]. now left.
  - intros e Henc hit Hin. apply slice_to_In, sort_desc_In in Hin.
    assert (Hev : ev = []).
    { unfold ev, _embedding_search, embedding_search_try.
      rewrite Henc. reflexivity. }
    unfold fused in Hin. rewrite Hev in Hin. cbn [seed_loop] in Hin.
    revert hit Hin. apply Forall_forall.
    apply (@merge_loop_Forall
             (fun h => search_type h <> embedding /\ 0 < relevance_score h)
             (fun h => 0 < relevance_score h)).
    + intros i x Hx. rewrite merged_hit_new_score.
      split; [discriminate|lra].
    + intros i x e0 Hx [_ He]. rewrite merged_hit_held_score.
      split; [discriminate|lra].
    + exact Hpos.
    + constructor.
Qed.

End HybridSearch.

(** *** Sample runs of the searches *)

(** A store that returns a document without distances. *)
Definition sample_collection_no_distances (e : list Q) (n : Z) (w : Where)
  : Exc QueryResult :=
  Ok (mkQueryResult
        (Some [[u "Кафедра ІПЗ оголошує набір"]])
        (Some [[ [(u "title", u "Кафедра ІПЗ"); (u "faculty", u "ФКНТ")] ]])
        None
        (Some [[u "d1"]])).

Lemma route_aware_search_complete_witness :
  map id (_route_aware_search sample_encode sample_collection_query
            (u "кафедра") (WEq (u "source") (u "news")) 75)
  = [Some (u "d1")].
Proof.
  exact (proj2 (proj2 (proj2 (proj2
    (@route_aware_search_complete sample_encode sample_collection_query
       (u "кафедра") (WEq (u "source") (u "news")) 75 [0.15]
       (mkQueryResult
          (Some [[u "Кафедра ІПЗ оголошує набір"]])
          (Some [[ [(u "title", u "Кафедра ІПЗ"); (u "faculty", u "ФКНТ")] ]])
          (Some [[0.4]])
          (Some [[u "d1"]]))
       [u "Кафедра ІПЗ оголошує набір"]
       [[(u "title", u "Кафедра ІПЗ"); (u "faculty", u "ФКНТ")]]
       [0.4] [u "d1"]
       eq_refl eq_refl eq_refl eq_refl eq_refl eq_refl
       eq_refl eq_refl eq_refl))))).
Defined.

Lemma route_aware_search_without_distances_witness :
  _route_aware_search sample_encode sample_collection_no_distances
    (u "кафедра") (WEq (u "source") (u "news")) 75 = [].
Proof.
  exact (@route_aware_search_without_distances sample_encode
           sample_collection_no_distances
           (u "кафедра") (WEq (u "source") (u "news")) 75 [0.15]
           (mkQueryResult
              (Some [[u "Кафедра ІПЗ оголошує набір"]])
              (Some [[ [(u "title", u "Кафедра ІПЗ");
                        (u "faculty", u "ФКНТ")] ]])
              None
              (Some [[u "d1"]]))
           (u "Кафедра ІПЗ оголошує набір") [] []
           eq_refl eq_refl eq_refl eq_refl).
Defined.

(** Word characters of the samples: digits, the underscore, Latin and
    Cyrillic letters. *)
Definition sample_isword (c : N) : bool :=
  ((48 <=? c) && (c <=? 57) || (65 <=? c) && (c <=? 90) || (c =? 95)
   || (97 <=? c) && (c <=? 122) || (1024 <=? c) && (c <=? 1279))%N.

(** [list(set(l))] keeping one copy of each element. *)
Definition sample_list_of_set (l : list str) : list str :=
  nodup (list_eq_dec N.eq_dec) l.

(** "коли" is a stop word; the one keyword left is repeated as the
    phrase of the significant words. *)
Example extract_keywords_sample :
  _extract_keywords Py.lower sample_isword (u "Коли вступ?")
  = [u "вступ"; u "вступ"].
Proof. vm_compute. reflexivity. Qed.

Lemma extract_keywords_significant_witness :
  In (u "вступ") (_extract_keywords Py.lower sample_isword (u "Коли вступ?"))
  /\ (2 < List.length (u "вступ"))%nat
  /\ ~ In (u "вступ") stop_words.
Proof.
  assert (H : In (u "вступ")
                 (_extract_keywords Py.lower sample_isword (u "Коли вступ?")))
    by (vm_compute; left; reflexivity).
  split; [exact H|].
  destruct (@extract_keywords_significant Py.lower sample_isword
              (u "Коли вступ?") (u "вступ") H) as (H1 & H2 & _).
  split; [exact H1|exact H2].
Defined.

Lemma expand_query_terms_witness :
  mentions_no_term (Py.lower (u "Hello")) = true
  /\ _expand_query_improved Py.lower sample_list_of_set (u "Hello")
     = u "Hello".
Proof.
  assert (Hset : forall l,
            NoDup (sample_list_of_set l)
            /\ forall x, In x (sample_list_of_set l) <-> In x l).
  { intro l. split; [apply NoDup_nodup|intro x; apply nodup_In]. }
  assert (Hnone : mentions_no_term (Py.lower (u "Hello")) = true)
    by (vm_compute; reflexivity).
  split; [exact Hnone|].
  exact (proj2 (@expand_query_terms Py.lower sample_list_of_set (u "Hello")
                  Hset) Hnone).
Defined.

End Database.

(* ===================================================================== *)
(** ** result_validator.py *)
(* ===================================================================== *)

Module ResultValidator.

Import QueryRouter(Step, Return, Continue).
Import Database(Hit).

Local Open Scope Q_scope.

(** [class ValidationDecision]: a dataclass, so its fields hold whatever
    the parsed reply holds. *)
Record ValidationDecision := mkValidationDecision {
  is_relevant : JValue;
  selected_indices : JValue;
  confidence : JValue;
  reasoning : JValue;
  needs_reformulation : JValue;
  reformulated_query : JValue;
  reformulation_strategy : JValue
}.

(** One entry of [_summarize_results]. *)
Record Summary := mkSummary {
  s_index : nat;
  s_title : str;
  s_content_preview : str;
  s_faculty : option str;
  s_department : option str;
  s_category : option str;
  s_news_type : option str;
  s_relevance_score : Q;
  s_search_type : Database.SearchType
}.

(** [self.max_retries] of the validator. *)
Definition max_retries : nat := 2.

Fixpoint summarize_from (i : nat) (max_chars : nat) (results : list Hit)
  : list Summary :=
  match results with
  | [] => []
  | result :: rest =>
    let content := Database.content result in
    let metadata := Database.metadata result in
    let short_content :=
      if (max_chars <? List.length content)%nat
      then firstn max_chars content ++ u "..." else content in
    mkSummary i
      (match dict_get metadata (u "title") with
       | Some t => t
       | None => u "Без заголовка"
       end)
      short_content
      (dict_get metadata (u "faculty"))
      (dict_get metadata (u "department"))
      (dict_get metadata (u "category"))
      (dict_get metadata (u "news_type"))
      (Database.relevance_score result)
      (Database.search_type result)
    :: summarize_from (S i) max_chars rest
  end.

Definition _summarize_results (results : list Hit) : list Summary :=
  summarize_from 1 150 results.

(** [for i in v]: the items of an iterable value. *)
Definition iterate (v : JValue) : Exc (list JValue) :=
  match v with
  | JList l => Ok l
  | JStr s => Ok (map (fun c => JStr [c]) s)
  | JDict d => Ok (map (fun kv => JStr (fst kv)) d)
  | _ => Err TypeError
  end.

(** One item [i] of the comprehension
    [[search_results[i-1] for i in ... if 1 <= i <= len(search_results)]]:
    the result it selects, none if the test fails, or the [TypeError] of a
    comparison with a value that is no number or of a list index that is
    no integer. *)
Definition select_one (search_results : list Hit) (i : JValue)
  : Exc (option Hit) :=
  let by_int (z : Z) :=
    if ((1 <=? z) && (z <=? Z.of_nat (List.length search_results)))%Z
    then (h <~ index search_results (Z.to_nat (z - 1)) ;; Ok (Some h))
    else Ok None in
  match i with
  | JInt z => by_int z
  | JBool b => by_int (if b then 1 else 0)%Z
  | JFloat q =>
    if Qle_bool 1 q
       && Qle_bool q (inject_Z (Z.of_nat (List.length search_results)))
    then Err TypeError else Ok None
  | _ => Err TypeError
  end.

Fixpoint select_all (search_results : list Hit) (items : list JValue)
  : Exc (list Hit) :=
  match items with
  | [] => Ok []
  | i :: rest =>
    picked <~ select_one search_results i ;;
    others <~ select_all search_results rest ;;
    Ok (match picked with Some h => h :: others | None => others end)
  end.

Definition select_results (search_results : list Hit) (indices : JValue)
  : Exc (list Hit) :=
  items <~ iterate indices ;; select_all search_results items.

Section Validator.

(** [settings.USE_GEMINI]. *)
Variable USE_GEMINI : bool.

(** The reasoning service: its reply to the call of retry [r] during the
    validation of attempt [a].  The prompt it is sent is fixed by the
    question, the results and [a]. *)
Variable llm : nat -> nat -> Reply.

(** [_extract_json_from_llm], built from [re.search], [re.sub] and
    [json.loads]: the parsed object, or [None]. *)
Variable _extract_json_from_llm : str -> option (dict JValue).

(** [ValidationDecision(...)] from the parsed reply. *)
Definition decision_of (parsed : dict JValue) : ValidationDecision :=
  {| is_relevant := get_default parsed "is_relevant" (JBool false);
     selected_indices := get_default parsed "selected_indices" (JList []);
     confidence := get_default parsed "confidence" (JFloat 0);
     reasoning := get_default parsed "reasoning" (JStr []);
     needs_reformulation := get_default parsed "needs_reformulation" (JBool false);
     reformulated_query := get_default parsed "reformulated_query" JNull;
     reformulation_strategy := get_default parsed "reformulation_strategy" JNull |}.

(** The decision returned when the last reply does not parse. *)
Definition fallback_unparsed (summarized_results : list Summary)
  : ValidationDecision :=
  {| is_relevant := JBool (0 <? List.length summarized_results)%nat;
     selected_indices :=
       if (3 <=? List.length summarized_results)%nat
       then JList [JInt 1; JInt 2; JInt 3]
       else JList (map (fun i => JInt (Z.of_nat i))
                       (seq 1 (List.length summarized_results)));
     confidence := JFloat 0.3;
     reasoning :=
       JStr (u "Fallback: LLM не зміг розпарсити JSON після всіх спроб");
     needs_reformulation := JBool false;
     reformulated_query := JNull;
     reformulation_strategy := JNull |}.

(** The decision returned after an error on the last retry. *)
Definition fallback_error (why : str) : ValidationDecision :=
  {| is_relevant := JBool false;
     selected_indices := JList [];
     confidence := JFloat 0;
     reasoning := JStr why;
     needs_reformulation := JBool false;
     reformulated_query := JNull;
     reformulation_strategy := JNull |}.

(** The body of the retry loop of [_llm_validation] at one
    [retry_attempt]; the [except Exception] branch is [on_exception]. *)
Definition validation_attempt (summarized_results : list Summary)
    (attempt max_retries retry_attempt : nat) : Step ValidationDecision :=
  let on_exception (e : Exn) :=
    if (retry_attempt <? max_retries)%nat then Continue
    else Return (fallback_error (u "Exception: " ++ exn_str e)) in
  let on_text (text : Exc str) :=
    match text with
    | Err e => on_exception e
    | Ok llm_response =>
      match _extract_json_from_llm llm_response with
      | Some ((_ :: _) as parsed) => Return (decision_of parsed)
      | _ =>
        if (retry_attempt <? max_retries)%nat then Continue
        else Return (fallback_unparsed summarized_results)
      end
    end in
  match llm attempt retry_attempt with
  | CallRaises e => on_exception e
  | Replied status text =>
    if USE_GEMINI then on_text text
    else if (status =? 200)%Z then on_text text
    else if (retry_attempt <? max_retries)%nat then Continue
    else Return (fallback_error (u "HTTP error " ++ str_of_Z status))
  end.

(** [for retry_attempt in range(1, max_retries + 1)] of
    [_llm_validation]. *)
Fixpoint validation_loop (summarized_results : list Summary)
    (attempt max_retries : nat) (retries : list nat) : M ValidationDecision :=
  match retries with
  | [] => ret (fallback_error (u "Unknown error in retry loop"))
  | retry_attempt :: rest =>
    emit (EvValidateLLM attempt retry_attempt) ;;;
    match validation_attempt summarized_results attempt max_retries
                             retry_attempt with
    | Return decision => ret decision
    | Continue => validation_loop summarized_results attempt max_retries rest
    end
  end.

Definition _llm_validation (original_query : str)
    (summarized_results : list Summary) (route_reasoning : str)
    (attempt : nat) (max_retries : nat) : M ValidationDecision :=
  validation_loop summarized_results attempt max_retries (seq 1 max_retries).

Definition validate_and_select (original_query : str)
    (search_results : list Hit) (route_reasoning : str) (attempt : nat)
  : M (ValidationDecision * list Hit) :=
  emit (EvValidate attempt) ;;;
  let summarized_results := _summarize_results search_results in
  decision <- _llm_validation original_query summarized_results
                              route_reasoning attempt 3 ;;
  if truthy (needs_reformulation decision) && (attempt <? max_retries)%nat
  then ret (decision, [])
  else if truthy (is_relevant decision) && truthy (selected_indices decision)
  then
    selected_results <- lift (select_results search_results
                                             (selected_indices decision)) ;;
    ret (decision, selected_results)
  else ret (decision, []).

(** *** Properties of the validator *)

Lemma summarize_from_length i max_chars results :
  List.length (summarize_from i max_chars results) = List.length results.
Proof.
  revert i. induction results as [|r rest IH]; intro i; simpl; [reflexivity|].
  now rewrite IH.
Qed.

Lemma summarize_results_length results :
  List.length (_summarize_results results) = List.length results.
Proof. apply summarize_from_length. Qed.

(** The retry loop calls the service at most once for each retry left and
    always returns a decision. *)
Lemma validation_loop_bounded summarized attempt max_r retries :
  bounded is_validate_llm (List.length retries)
          (validation_loop summarized attempt max_r retries)
  /\ bounded is_validate 0 (validation_loop summarized attempt max_r retries)
  /\ bounded is_search 0 (validation_loop summarized attempt max_r retries)
  /\ exists d,
       outcome (validation_loop summarized attempt max_r retries) = Ok d.
Proof.
  induction retries as [|retry rest IH]; cbn [validation_loop List.length].
  - split; [|split; [|split]]; try apply bounded_ret. now eexists.
  - destruct IH as (IH1 & IH2 & IH3 & d & IH4).
    destruct (validation_attempt summarized attempt max_r retry) as [d'|].
    + split; [|split; [|split]];
        try (unfold bounded, count_events; simpl; lia).
      now exists d'.
    + split; [|split; [|split]].
      * apply (@bounded_bind _ _ is_validate_llm 1 (List.length rest));
          [apply (bounded_emit is_validate_llm)|intros _; exact IH1].
      * apply (@bounded_bind _ _ is_validate 0 0);
          [apply (bounded_emit is_validate)|intros _; exact IH2].
      * apply (@bounded_bind _ _ is_search 0 0);
          [apply (bounded_emit is_search)|intros _; exact IH3].
      * exists d. rewrite outcome_bind. simpl. exact IH4.
Qed.

Lemma llm_validation_bounded original_query summarized route_reasoning
    attempt max_r :
  let m := _llm_validation original_query summarized route_reasoning
                           attempt max_r in
  bounded is_validate_llm max_r m
  /\ bounded is_validate 0 m
  /\ bounded is_search 0 m
  /\ exists d, outcome m = Ok d.
Proof.
  cbv zeta. unfold _llm_validation.
  pose proof (validation_loop_bounded summarized attempt max_r
                                      (seq 1 max_r)) as H.
  now rewrite length_seq in H.
Qed.

(** One validation pass logs itself once, calls the service at most three
    times and does no search. *)
Lemma validate_and_select_bounded original_query search_results
    route_reasoning attempt :
  let m := validate_and_select original_query search_results route_reasoning
                               attempt in
  bounded is_validate 1 m
  /\ bounded is_validate_llm 3 m
  /\ bounded is_search 0 m.
Proof.
  cbv zeta. unfold validate_and_select.
  destruct (llm_validation_bounded original_query
              (_summarize_results search_results) route_reasoning attempt 3)
    as (H1 & H2 & H3 & _).
  assert (Htail : forall p d, bounded p 0
    (if truthy (needs_reformulation d) && (attempt <? max_retries)%nat
     then ret (d, [])
     else if truthy (is_relevant d) && truthy (selected_indices d)
     then selected_results <- lift (select_results search_results
                                                   (selected_indices d)) ;;
          ret (d, selected_results)
     else ret (d, []))).
  { intros p d.
    destruct (truthy (needs_reformulation d) && (attempt <? max_retries)%nat);
      [apply bounded_ret|].
    destruct (truthy (is_relevant d) && truthy (selected_indices d));
      [|apply bounded_ret].
    apply (@bounded_bind _ _ p 0 0); [apply bounded_lift|].
    intro a. apply bounded_ret. }
  split; [|split].
  - apply (@bounded_bind _ _ is_validate 1 0);
      [apply (bounded_emit is_validate)|intros _].
    apply (@bounded_bind _ _ is_validate 0 0); [exact H2|]. intro d. apply Htail.
  - apply (@bounded_bind _ _ is_validate_llm 0 3);
      [apply (bounded_emit is_validate_llm)|intros _].
    apply (@bounded_bind _ _ is_validate_llm 3 0); [exact H1|].
    intro d. apply Htail.
  - apply (@bounded_bind _ _ is_search 0 0);
      [apply (bounded_emit is_search)|intros _].
    apply (@bounded_bind _ _ is_search 0 0); [exact H3|]. intro d. apply Htail.
Qed.

Lemma select_one_in_range search_results i h :
  nth_error search_results i = Some h ->
  select_one search_results (JInt (Z.of_nat (S i))) = Ok (Some h).
Proof.
  intro H. unfold select_one.
  assert (Hlen : (i < List.length search_results)%nat)
    by (apply nth_error_Some; congruence).
  replace ((1 <=? Z.of_nat (S i))
           && (Z.of_nat (S i) <=? Z.of_nat (List.length search_results)))%Z
    with true.
  - replace (Z.to_nat (Z.of_nat (S i) - 1)) with i by lia.
    unfold index. now rewrite H.
  - symmetry. apply andb_true_iff. split; apply Z.leb_le; lia.
Qed.

(** Selecting the positions 1, 2, ..., taken while they exist, gives the
    first results. *)
Lemma select_first search_results :
  select_results search_results
    (JList (map (fun i => JInt (Z.of_nat i))
                (seq 1 (Nat.min 3 (List.length search_results)))))
  = Ok (firstn 3 search_results).
Proof.
  unfold select_results. cbn [iterate ebind].
  destruct search_results as [|a [|b [|c rest]]]; try reflexivity.
  change (Nat.min 3 (List.length (a :: b :: c :: rest))) with 3%nat.
  set (l := a :: b :: c :: rest).
  assert (H1 : select_one l (JInt 1) = Ok (Some a))
    by exact (@select_one_in_range l 0 a eq_refl).
  assert (H2 : select_one l (JInt 2) = Ok (Some b))
    by exact (@select_one_in_range l 1 b eq_refl).
  assert (H3 : select_one l (JInt 3) = Ok (Some c))
    by exact (@select_one_in_range l 2 c eq_refl).
  cbn [seq map select_all Z.of_nat Pos.of_succ_nat Pos.succ].
  rewrite H1, H2, H3. reflexivity.
Qed.

(** A reply whose text the parser gives up on, or reads as an empty
    object. *)
Definition malformed_reply (r : Reply) : Prop :=
  exists status text,
    r = Replied status (Ok text)
    /\ (USE_GEMINI = true \/ status = 200%Z)
    /\ match _extract_json_from_llm text with
       | Some (_ :: _) => False
       | _ => True
       end.

Lemma validation_attempt_malformed summarized attempt max_r retry :
  malformed_reply (llm attempt retry) ->
  validation_attempt summarized attempt max_r retry
  = if (retry <? max_r)%nat then Continue
    else Return (fallback_unparsed summarized).
Proof.
  intros (status & text & Hr & Hs & Hp).
  unfold validation_attempt. rewrite Hr.
  assert (Hparse : forall X (a : dict JValue -> X) (b : X),
    match _extract_json_from_llm text with
    | Some ((_ :: _) as parsed) => a parsed
    | _ => b
    end = b).
  { intros X a b. destruct (_extract_json_from_llm text) as [[|? ?]|];
      try reflexivity. destruct Hp. }
  destruct USE_GEMINI.
  - apply Hparse.
  - destruct Hs as [Hs|Hs]; [discriminate|]. subst status. simpl.
    apply Hparse.
Qed.

(** C8: when each of the three replies of the reasoning service is
    malformed, [_llm_validation] returns, after exactly three calls, the
    permissive default: relevant exactly when there are hits, the
    positions 1 to min(3, number of hits), confidence 0.3 and no
    reformulation; the validation pass then selects the first hits. *)
Theorem malformed_replies_permissive_default
    (original_query : str) (search_results : list Hit)
    (route_reasoning : str) (attempt : nat) :
  (forall retry, (1 <= retry <= 3)%nat -> malformed_reply (llm attempt retry)) ->
  let n := List.length search_results in
  let m := _llm_validation original_query (_summarize_results search_results)
                           route_reasoning attempt 3 in
  exists d,
    outcome m = Ok d
    /\ trace m = [EvValidateLLM attempt 1; EvValidateLLM attempt 2;
                  EvValidateLLM attempt 3]
    /\ is_relevant d = JBool (0 <? n)%nat
    /\ selected_indices d
       = JList (map (fun i => JInt (Z.of_nat i)) (seq 1 (Nat.min 3 n)))
    /\ confidence d = JFloat 0.3
    /\ needs_reformulation d = JBool false
    /\ reformulated_query d = JNull
    /\ outcome (validate_and_select original_query search_results
                                    route_reasoning attempt)
       = Ok (d, firstn 3 search_results).
Proof.
  intros Hmal n m.
  assert (Hm : m = ([EvValidateLLM attempt 1; EvValidateLLM attempt 2;
                     EvValidateLLM attempt 3],
                    Ok (fallback_unparsed (_summarize_results search_results)))).
  { unfold m, _llm_validation. simpl.
    rewrite !validation_attempt_malformed by (apply Hmal; lia).
    reflexivity. }
  assert (Hsel : selected_indices
                   (fallback_unparsed (_summarize_results search_results))
                 = JList (map (fun i => JInt (Z.of_nat i))
                              (seq 1 (Nat.min 3 n)))).
  { unfold fallback_unparsed. cbn [selected_indices].
    rewrite !summarize_results_length. fold n.
    destruct (3 <=? n)%nat eqn:E.
    - apply Nat.leb_le in E. now replace (Nat.min 3 n) with 3%nat by lia.
    - apply Nat.leb_gt in E. now replace (Nat.min 3 n) with n by lia. }
  exists (fallback_unparsed (_summarize_results search_results)).
  split; [now rewrite Hm|]. split; [now rewrite Hm|].
  split; [simpl; now rewrite summarize_results_length|].
  split; [exact Hsel|]. split; [reflexivity|]. split; [reflexivity|].
  split; [reflexivity|].
  unfold validate_and_select. fold m. rewrite Hm.
  cbn [bind emit app]. rewrite Hsel.
  cbn [needs_reformulation is_relevant fallback_unparsed truthy andb].
  rewrite summarize_results_length. fold n.
  destruct search_results as [|a rest]; [reflexivity|].
  subst n. rewrite select_first.
  destruct rest as [|b [|c r]]; reflexivity.
Qed.

(** *** The summaries, the selection and the fallbacks *)

Lemma summarize_from_nth start max_chars results i result :
  nth_error results i = Some result ->
  exists s,
    nth_error (summarize_from start max_chars results) i = Some s
    /\ s_index s = (start + i)%nat
    /\ s_content_preview s
       = (if (max_chars <? List.length (Database.content result))%nat
          then firstn max_chars (Database.content result) ++ u "..."
          else Database.content result)
    /\ s_relevance_score s = Database.relevance_score result.
Proof.
  revert start i.
  induction results as [|r rest IH]; intros start i H.
  - destruct i; discriminate H.
  - destruct i as [|i]; cbn [summarize_from nth_error] in *.
    + inversion H; subst r. eexists. split; [reflexivity|].
      cbn. rewrite Nat.add_0_r. repeat split.
    + destruct (IH (S start) i H) as (s & Hs & Hi & Hrest).
      exists s. split; [exact Hs|]. split; [rewrite Hi; lia|exact Hrest].
Qed.

(** The summaries are numbered from 1 in the order of the hits, and the
    number of a summary is the position the selection resolves to the hit
    it summarises; a preview holds the content, cut to 150 characters
    and three dots when it is longer. *)
Theorem summary_index_selects_its_hit
    (search_results : list Hit) (i : nat) (hit : Hit) :
  nth_error search_results i = Some hit ->
  exists s,
    nth_error (_summarize_results search_results) i = Some s
    /\ s_index s = S i
    /\ select_one search_results (JInt (Z.of_nat (s_index s))) = Ok (Some hit)
    /\ (List.length (s_content_preview s) <= 153)%nat
    /\ ((List.length (Database.content hit) <= 150)%nat ->
        s_content_preview s = Database.content hit)
    /\ s_relevance_score s = Database.relevance_score hit.
Proof.
  intro H. unfold _summarize_results.
  destruct (summarize_from_nth 1 150 search_results i H)
    as (s & Hs & Hi & Hp & Hr).
  exists s. split; [exact Hs|]. split; [exact Hi|].
  split; [rewrite Hi; now apply select_one_in_range|].
  split; [|split; [|exact Hr]]; rewrite Hp.
  - destruct (150 <? List.length (Database.content hit))%nat eqn:E.
    + rewrite length_app, length_firstn.
      change (List.length (u "...")) with 3%nat. lia.
    + apply Nat.ltb_ge in E. lia.
  - intro Hle. apply Nat.ltb_ge in Hle. now rewrite Hle.
Qed.

Lemma select_one_In search_results i h :
  select_one search_results i = Ok (Some h) -> In h search_results.
Proof.
  assert (Hint : forall z,
    (if ((1 <=? z) && (z <=? Z.of_nat (List.length search_results)))%Z
     then (x <~ index search_results (Z.to_nat (z - 1)) ;; Ok (Some x))
     else Ok None) = Ok (Some h) -> In h search_results).
  { intro z. destruct ((1 <=? z) && _)%Z; [|discriminate].
    unfold index.
    destruct (nth_error search_results (Z.to_nat (z - 1))) as [x|] eqn:E;
      cbn [ebind]; [|discriminate].
    intro H. inversion H; subst x. exact (nth_error_In _ _ E). }
  unfold select_one. destruct i; try discriminate; try apply Hint.
  destruct (Qle_bool 1 _ && _); discriminate.
Qed.

Lemma select_all_In search_results items selected :
  select_all search_results items = Ok selected ->
  (forall h, In h selected -> In h search_results)
  /\ (List.length selected <= List.length items)%nat.
Proof.
  revert selected.
  induction items as [|i rest IH]; intros selected H; cbn [select_all] in H.
  - inversion H; subst. split; [intros h []|reflexivity].
  - destruct (select_one search_results i) as [picked|] eqn:E;
      cbn [ebind] in H; [|discriminate].
    destruct (select_all search_results rest) as [others|];
      cbn [ebind] in H; [|discriminate].
    destruct (IH others eq_refl) as [Hin Hlen].
    inversion H; subst selected. destruct picked as [h0|].
    + split; [|simpl; lia].
      intros h [<-|Hh]; [exact (select_one_In _ _ E)|now apply Hin].
    + split; [exact Hin|simpl; lia].
Qed.

Lemma select_results_In search_results indices selected h :
  select_results search_results indices = Ok selected ->
  In h selected -> In h search_results.
Proof.
  unfold select_results.
  destruct (iterate indices) as [items|]; cbn [ebind]; [|discriminate].
  intros H. now apply (select_all_In _ _ H).
Qed.

Lemma validate_and_select_outcome original_query search_results
    route_reasoning attempt :
  outcome (validate_and_select original_query search_results route_reasoning
                               attempt)
  = (d <~ outcome (_llm_validation original_query
                     (_summarize_results search_results) route_reasoning
                     attempt 3) ;;
     if truthy (needs_reformulation d) && (attempt <? max_retries)%nat
     then Ok (d, [])
     else if truthy (is_relevant d) && truthy (selected_indices d)
     then (s <~ select_results search_results (selected_indices d) ;;
           Ok (d, s))
     else Ok (d, [])).
Proof.
  unfold validate_and_select.
  rewrite outcome_bind. cbn [outcome emit snd]. rewrite outcome_bind.
  destruct (outcome (_llm_validation _ _ _ _ _)) as [d|]; cbn [ebind];
    [|reflexivity].
  destruct (truthy (needs_reformulation d) && (attempt <? max_retries)%nat);
    [reflexivity|].
  destruct (truthy (is_relevant d) && truthy (selected_indices d));
    [|reflexivity].
  rewrite outcome_bind. cbn [outcome lift snd].
  destruct (select_results search_results (selected_indices d)); reflexivity.
Qed.

Lemma validate_and_select_In original_query search_results route_reasoning
    attempt d selected h :
  outcome (validate_and_select original_query search_results route_reasoning
                               attempt) = Ok (d, selected) ->
  In h selected -> In h search_results.
Proof.
  unfold validate_and_select.
  rewrite outcome_bind. cbn [outcome emit snd].
  rewrite outcome_bind.
  destruct (outcome (_llm_validation _ _ _ _ _)) as [d'|]; [|discriminate].
  destruct (truthy (needs_reformulation d') && (attempt <? max_retries)%nat).
  - intro H. inversion H; subst. intros [].
  - destruct (truthy (is_relevant d') && truthy (selected_indices d')).
    + rewrite outcome_bind. cbn [outcome lift snd].
      destruct (select_results search_results (selected_indices d'))
        as [sel|] eqn:E; [|discriminate].
      intro H. inversion H; subst. exact (select_results_In _ _ _ E).
    + intro H. inversion H; subst. intros [].
Qed.

(** A validation pass that returns hands back the decision of the
    reasoning step and hits of the search it was given, never others.  It
    selects something only when the decision is relevant with a
    selection, and on the first attempt only when no reformulation is
    asked for: there a request for reformulation discards the
    selection. *)
Theorem validation_selects_among_the_hits
    (original_query : str) (search_results : list Hit)
    (route_reasoning : str) (attempt : nat)
    (d : ValidationDecision) (selected : list Hit) :
  outcome (validate_and_select original_query search_results route_reasoning
                               attempt) = Ok (d, selected) ->
  outcome (_llm_validation original_query (_summarize_results search_results)
                           route_reasoning attempt 3) = Ok d
  /\ (forall h, In h selected -> In h search_results)
  /\ (selected <> [] ->
      truthy (is_relevant d) = true
      /\ truthy (selected_indices d) = true
      /\ (truthy (needs_reformulation d) = false \/ (2 <= attempt)%nat))
  /\ ((attempt < 2)%nat -> truthy (needs_reformulation d) = true ->
      selected = []).
Proof.
  intro H.
  split; [|split; [intro h; exact (@validate_and_select_In _ _ _ _ _ _ h H)|]];
    revert H; rewrite validate_and_select_outcome;
    destruct (outcome (_llm_validation _ _ _ _ _)) as [d'|];
    cbn [ebind]; try discriminate.
  - destruct (truthy (needs_reformulation d') && (attempt <? max_retries)%nat).
    + intro H. now inversion H.
    + destruct (truthy (is_relevant d') && truthy (selected_indices d')).
      * destruct (select_results search_results (selected_indices d'));
          cbn [ebind]; [|discriminate].
        intro H. now inversion H.
      * intro H. now inversion H.
  - assert (Htail :
      (if truthy (is_relevant d') && truthy (selected_indices d')
       then (s <~ select_results search_results (selected_indices d') ;;
             Ok (d', s))
       else Ok (d', [])) = Ok (d, selected) ->
      d' = d
      /\ (selected <> [] ->
          truthy (is_relevant d) = true
          /\ truthy (selected_indices d) = true)).
    { destruct (truthy (is_relevant d')) eqn:Hrel;
        destruct (truthy (selected_indices d')) eqn:Hsel; cbn [andb].
      - destruct (select_results search_results (selected_indices d'));
          cbn [ebind]; [|discriminate].
        intro H. inversion H; subst. now repeat split.
      - intro H. inversion H; subst. split; [reflexivity|].
        intro Hne. now destruct Hne.
      - intro H. inversion H; subst. split; [reflexivity|].
        intro Hne. now destruct Hne.
      - intro H. inversion H; subst. split; [reflexivity|].
        intro Hne. now destruct Hne. }
    destruct (truthy (needs_reformulation d')) eqn:Hnr;
      destruct (attempt <? max_retries)%nat eqn:Hlt; cbn [andb].
    + intro H. inversion H; subst. split; [|reflexivity].
      intro Hne. now destruct Hne.
    + intro H. destruct (Htail H) as [-> Hsel].
      apply Nat.ltb_ge in Hlt. unfold max_retries in Hlt. split.
      * intro Hne. destruct (Hsel Hne) as [H1 H2]. repeat split; try assumption.
        now right.
      * intros Hlow _. lia.
    + intro H. destruct (Htail H) as [-> Hsel]. split.
      * intro Hne. destruct (Hsel Hne) as [H1 H2]. repeat split; try assumption.
        now left.
      * intros _ Htrue. congruence.
    + intro H. destruct (Htail H) as [-> Hsel]. split.
      * intro Hne. destruct (Hsel Hne) as [H1 H2]. repeat split; try assumption.
        now left.
      * intros _ Htrue. congruence.
Qed.

(** What one reply of the reasoning service amounts to: a parsed object
    that is not empty, a text the parser gives up on (or reads as an empty
    object), or a failure with its message. *)
Inductive ReplyKind :=
| Parsed (parsed : dict JValue)
| Unparsed
| Failed (why : str).

Definition reply_kind (r : Reply) : ReplyKind :=
  let of_text (text : Exc str) :=
    match text with
    | Err e => Failed (u "Exception: " ++ exn_str e)
    | Ok llm_response =>
      match _extract_json_from_llm llm_response with
      | Some ((_ :: _) as parsed) => Parsed parsed
      | _ => Unparsed
      end
    end in
  match r with
  | CallRaises e => Failed (u "Exception: " ++ exn_str e)
  | Replied status text =>
    if USE_GEMINI then of_text text
    else if (status =? 200)%Z then of_text text
    else Failed (u "HTTP error " ++ str_of_Z status)
  end.

Lemma validation_attempt_kind summarized attempt max_r retry :
  validation_attempt summarized attempt max_r retry
  = match reply_kind (llm attempt retry) with
    | Parsed parsed => Return (decision_of parsed)
    | Unparsed => if (retry <? max_r)%nat then Continue
                  else Return (fallback_unparsed summarized)
    | Failed why => if (retry <? max_r)%nat then Continue
                    else Return (fallback_error why)
    end.
Proof.
  unfold validation_attempt, reply_kind.
  destruct (llm attempt retry) as [e|status [text|e]]; [reflexivity| |].
  - destruct USE_GEMINI; [|destruct (status =? 200)%Z]; try reflexivity;
      destruct (_extract_json_from_llm text) as [[|? ?]|]; reflexivity.
  - destruct USE_GEMINI; [|destruct (status =? 200)%Z]; reflexivity.
Qed.

Lemma validation_attempt_not_parsed summarized attempt max_r retry :
  (forall parsed, reply_kind (llm attempt retry) <> Parsed parsed) ->
  (retry < max_r)%nat ->
  validation_attempt summarized attempt max_r retry = Continue.
Proof.
  intros Hk Hlt. rewrite validation_attempt_kind.
  apply Nat.ltb_lt in Hlt. rewrite Hlt.
  destruct (reply_kind (llm attempt retry)) as [p| |]; try reflexivity.
  now destruct (Hk p).
Qed.

(** The first reply that parses decides: the decision is read from it and
    the reasoning service is not called again. *)
Theorem first_parsed_reply_decides
    (original_query : str) (summarized_results : list Summary)
    (route_reasoning : str) (attempt : nat) (k : nat)
    (parsed : dict JValue) :
  (1 <= k <= 3)%nat ->
  (forall retry, (1 <= retry < k)%nat ->
     forall p, reply_kind (llm attempt retry) <> Parsed p) ->
  reply_kind (llm attempt k) = Parsed parsed ->
  _llm_validation original_query summarized_results route_reasoning attempt 3
  = (map (EvValidateLLM attempt) (seq 1 k), Ok (decision_of parsed)).
Proof.
  intros Hk Hbefore Hparsed. unfold _llm_validation.
  cbn [seq validation_loop].
  assert (Hcase : (k = 1 \/ k = 2 \/ k = 3)%nat) by lia.
  destruct Hcase as [-> | [-> | ->]].
  - rewrite validation_attempt_kind, Hparsed. reflexivity.
  - rewrite (@validation_attempt_not_parsed _ attempt 3 1)
      by (try apply Hbefore; lia).
    rewrite validation_attempt_kind, Hparsed. reflexivity.
  - rewrite (@validation_attempt_not_parsed _ attempt 3 1)
      by (try apply Hbefore; lia).
    rewrite (@validation_attempt_not_parsed _ attempt 3 2)
      by (try apply Hbefore; lia).
    rewrite validation_attempt_kind, Hparsed. reflexivity.
Qed.

Lemma failed_validation summarized attempt why :
  (forall retry, (1 <= retry < 3)%nat ->
     forall p, reply_kind (llm attempt retry) <> Parsed p) ->
  reply_kind (llm attempt 3) = Failed why ->
  validation_loop summarized attempt 3 [1; 2; 3]%nat
  = ([EvValidateLLM attempt 1; EvValidateLLM attempt 2;
      EvValidateLLM attempt 3], Ok (fallback_error why)).
Proof.
  intros Hbefore Hlast. cbn [validation_loop].
  rewrite (@validation_attempt_not_parsed _ attempt 3 1)
    by (try apply Hbefore; lia).
  rewrite (@validation_attempt_not_parsed _ attempt 3 2)
    by (try apply Hbefore; lia).
  rewrite validation_attempt_kind, Hlast. reflexivity.
Qed.

(** When no reply parses and the third call fails (an exception or a
    status other than 200), the decision is the strict one: not relevant,
    no selection, confidence 0, no reformulation, the failure as its
    reasoning; the validation pass then returns no hit, whatever the
    search found. *)
Theorem failed_validation_selects_nothing
    (original_query : str) (search_results : list Hit)
    (route_reasoning : str) (attempt : nat) (why : str) :
  (forall retry, (1 <= retry < 3)%nat ->
     forall p, reply_kind (llm attempt retry) <> Parsed p) ->
  reply_kind (llm attempt 3) = Failed why ->
  _llm_validation original_query (_summarize_results search_results)
                  route_reasoning attempt 3
  = ([EvValidateLLM attempt 1; EvValidateLLM attempt 2;
      EvValidateLLM attempt 3], Ok (fallback_error why))
  /\ validate_and_select original_query search_results route_reasoning attempt
     = ([EvValidate attempt; EvValidateLLM attempt 1; EvValidateLLM attempt 2;
         EvValidateLLM attempt 3], Ok (fallback_error why, []))
  /\ is_relevant (fallback_error why) = JBool false
  /\ selected_indices (fallback_error why) = JList []
  /\ confidence (fallback_error why) = JFloat 0
  /\ needs_reformulation (fallback_error why) = JBool false
  /\ reasoning (fallback_error why) = JStr why.
Proof.
  intros Hbefore Hlast.
  pose proof (@failed_validation (_summarize_results search_results)
                attempt why Hbefore Hlast) as Hloop.
  split; [exact Hloop|]. split; [|repeat split].
  unfold validate_and_select, _llm_validation. cbn [seq].
  rewrite Hloop. reflexivity.
Qed.

Lemma validate_and_select_malformed original_query search_results
    route_reasoning attempt hit raw :
  search_results = hit :: raw ->
  (forall retry, (1 <= retry <= 3)%nat ->
     malformed_reply (llm attempt retry)) ->
  validate_and_select original_query search_results route_reasoning attempt
  = ([EvValidate attempt; EvValidateLLM attempt 1; EvValidateLLM attempt 2;
      EvValidateLLM attempt 3],
     Ok (fallback_unparsed (_summarize_results search_results),
         firstn 3 search_results)).
Proof.
  intros Hne Hmal.
  set (n := List.length search_results).
  assert (Hm : _llm_validation original_query
                 (_summarize_results search_results) route_reasoning attempt 3
               = ([EvValidateLLM attempt 1; EvValidateLLM attempt 2;
                   EvValidateLLM attempt 3],
                  Ok (fallback_unparsed (_summarize_results search_results)))).
  { unfold _llm_validation. simpl.
    rewrite !validation_attempt_malformed by (apply Hmal; lia).
    reflexivity. }
  assert (Hsel : selected_indices
                   (fallback_unparsed (_summarize_results search_results))
                 = JList (map (fun i => JInt (Z.of_nat i))
                              (seq 1 (Nat.min 3 n)))).
  { unfold fallback_unparsed. cbn [selected_indices].
    rewrite !summarize_results_length. fold n.
    destruct (3 <=? n)%nat eqn:E.
    - apply Nat.leb_le in E. now replace (Nat.min 3 n) with 3%nat by lia.
    - apply Nat.leb_gt in E. now replace (Nat.min 3 n) with n by lia. }
  unfold validate_and_select. rewrite Hm.
  cbn [bind emit app]. rewrite Hsel.
  cbn [needs_reformulation is_relevant fallback_unparsed truthy andb].
  rewrite summarize_results_length. fold n.
  subst n search_results. rewrite select_first.
  destruct raw as [|b [|c r]]; reflexivity.
Qed.

End Validator.

(** *** A sample run of the validator *)

(** A reasoning service that answers in prose, and the parser giving up
    on it. *)
Definition sample_llm_prose (attempt retry : nat) : Reply :=
  Replied 200 (Ok (u "На жаль, я не можу відповісти у форматі JSON"))%Z.

Definition sample_parse_none (text : str) : option (dict JValue) := None.

Lemma malformed_replies_permissive_default_witness :
  let results := [Database.sample_labelled; Database.sample_unlabelled] in
  (forall retry, (1 <= retry <= 3)%nat ->
     malformed_reply false sample_parse_none (sample_llm_prose 1 retry))
  /\ exists d,
       outcome (_llm_validation false sample_llm_prose sample_parse_none
                  (u "Хто завідувач ІПЗ?") (_summarize_results results)
                  (u "Загальний запит про НАУ") 1 3) = Ok d
       /\ is_relevant d = JBool true
       /\ selected_indices d = JList [JInt 1; JInt 2]
       /\ confidence d = JFloat 0.3
       /\ needs_reformulation d = JBool false.
Proof.
  cbv zeta.
  assert (H : forall retry, (1 <= retry <= 3)%nat ->
            malformed_reply false sample_parse_none (sample_llm_prose 1 retry)).
  { intros retry _. eexists _, _. split; [reflexivity|].
    split; [now right|exact I]. }
  split; [exact H|].
  destruct (@malformed_replies_permissive_default false sample_llm_prose
              sample_parse_none (u "Хто завідувач ІПЗ?")
              [Database.sample_labelled; Database.sample_unlabelled]
              (u "Загальний запит про НАУ") 1 H)
    as (d & Hd & _ & Hrel & Hsel & Hconf & Hnr & _).
  exists d. repeat split; assumption.
Defined.

(** The reply read as: relevant, the second hit selected. *)
Definition sample_parse_select (text : str) : option (dict JValue) :=
  Some [(u "is_relevant", JBool true);
        (u "selected_indices", JList [JInt 2]);
        (u "confidence", JFloat 0.9)].

(** A reasoning service whose first call raises and whose second call
    answers. *)
Definition sample_llm_second (attempt retry : nat) : Reply :=
  if (retry =? 1)%nat then CallRaises (ServiceError (u "timeout"))
  else Replied 200 (Ok (u "(the reply of the reasoning service)"))%Z.

(** A reasoning service that is down. *)
Definition sample_llm_down (attempt retry : nat) : Reply :=
  CallRaises (ServiceError (u "connection refused")).

Lemma summary_index_selects_its_hit_witness :
  let results := [Database.sample_labelled; Database.sample_unlabelled] in
  nth_error results 1 = Some Database.sample_unlabelled
  /\ exists s,
       nth_error (_summarize_results results) 1 = Some s
       /\ s_index s = 2%nat
       /\ select_one results (JInt (Z.of_nat (s_index s)))
          = Ok (Some Database.sample_unlabelled).
Proof.
  cbv zeta. split; [reflexivity|].
  destruct (@summary_index_selects_its_hit
              [Database.sample_labelled; Database.sample_unlabelled] 1
              Database.sample_unlabelled eq_refl)
    as (s & Hs & Hi & Hsel & _).
  exists s. split; [exact Hs|]. split; [exact Hi|exact Hsel].
Defined.

Lemma validation_selects_among_the_hits_witness :
  let results := [Database.sample_labelled; Database.sample_unlabelled] in
  outcome (validate_and_select false sample_llm_prose sample_parse_select
             (u "Хто завідувач ІПЗ?") results
             (u "Загальний запит про НАУ") 1)
  = Ok (decision_of [(u "is_relevant", JBool true);
                     (u "selected_indices", JList [JInt 2]);
                     (u "confidence", JFloat 0.9)],
        [Database.sample_unlabelled])
  /\ (forall h, In h [Database.sample_unlabelled] -> In h results).
Proof.
  cbv zeta.
  assert (H : outcome (validate_and_select false sample_llm_prose
                         sample_parse_select (u "Хто завідувач ІПЗ?")
                         [Database.sample_labelled; Database.sample_unlabelled]
                         (u "Загальний запит про НАУ") 1)
              = Ok (decision_of [(u "is_relevant", JBool true);
                                 (u "selected_indices", JList [JInt 2]);
                                 (u "confidence", JFloat 0.9)],
                    [Database.sample_unlabelled]))
    by (vm_compute; reflexivity).
  split; [exact H|].
  exact (proj1 (proj2 (@validation_selects_among_the_hits false
                         sample_llm_prose sample_parse_select
                         (u "Хто завідувач ІПЗ?")
                         [Database.sample_labelled; Database.sample_unlabelled]
                         (u "Загальний запит про НАУ") 1 _ _ H))).
Defined.

Lemma first_parsed_reply_decides_witness :
  _llm_validation false sample_llm_second sample_parse_select
    (u "Хто завідувач ІПЗ?") [] (u "Загальний запит про НАУ") 1 3
  = ([EvValidateLLM 1 1; EvValidateLLM 1 2],
     Ok (decision_of [(u "is_relevant", JBool true);
                      (u "selected_indices", JList [JInt 2]);
                      (u "confidence", JFloat 0.9)])).
Proof.
  assert (Hk : (1 <= 2 <= 3)%nat) by lia.
  assert (Hbefore : forall retry, (1 <= retry < 2)%nat ->
            forall p, reply_kind false sample_parse_select
                        (sample_llm_second 1 retry) <> Parsed p).
  { intros retry Hr p. assert (E : retry = 1%nat) by lia. subst retry.
    discriminate. }
  exact (@first_parsed_reply_decides false sample_llm_second
           sample_parse_select (u "Хто завідувач ІПЗ?") []
           (u "Загальний запит про НАУ") 1 2 _ Hk Hbefore eq_refl).
Defined.

Lemma failed_validation_selects_nothing_witness :
  outcome (validate_and_select false sample_llm_down sample_parse_select
             (u "Хто завідувач ІПЗ?")
             [Database.sample_labelled; Database.sample_unlabelled]
             (u "Загальний запит про НАУ") 1)
  = Ok (fallback_error (u "Exception: " ++ exn_str
                          (ServiceError (u "connection refused"))), []).
Proof.
  assert (Hbefore : forall retry, (1 <= retry < 3)%nat ->
            forall p, reply_kind false sample_parse_select
                        (sample_llm_down 1 retry) <> Parsed p)
    by (intros retry _ p; discriminate).
  exact (f_equal snd
           (proj1 (proj2 (@failed_validation_selects_nothing false
                            sample_llm_down sample_parse_select
                            (u "Хто завідувач ІПЗ?")
                            [Database.sample_labelled;
                             Database.sample_unlabelled]
                            (u "Загальний запит про НАУ") 1 _
                            Hbefore eq_refl)))).
Defined.

End ResultValidator.

(* ===================================================================== *)
(** ** utils.py: the history of the dialogue *)
(* ===================================================================== *)

Module Utils.

Import QueryRouter(Message, mkMessage, role, content).

(** [ContextUtils.count_tokens]: [len(text) // 4]. *)
Definition count_tokens (text : str) : Z := (Z.of_nat (List.length text) / 4)%Z.

(** The loop of [truncate_messages] over [reversed(messages)]. *)
Fixpoint truncate_loop (reversed : list Message) (max_tokens total_tokens : Z)
    (result : list Message) : list Message :=
  match reversed with
  | [] => result
  | message :: rest =>
    let message_tokens := count_tokens (content message) in
    if (total_tokens + message_tokens <=? max_tokens)%Z
    then truncate_loop rest max_tokens (total_tokens + message_tokens)
                       (message :: result)
    else result
  end.

Definition truncate_messages (messages : list Message) (max_tokens : Z)
  : list Message :=
  match messages with
  | [] => []
  | _ => truncate_loop (rev messages) max_tokens 0 []
  end.

(** [sum(count_tokens(msg["content"]) for msg in messages)]. *)
Definition total_tokens (messages : list Message) : Z :=
  fold_right (fun message acc => (count_tokens (content message) + acc)%Z)
             0%Z messages.


(** *** Properties of the truncation *)

Lemma count_tokens_nonneg text : (0 <= count_tokens text)%Z.
Proof. unfold count_tokens. apply Z.div_pos; lia. Qed.

Lemma total_tokens_nonneg messages : (0 <= total_tokens messages)%Z.
Proof.
  induction messages as [|m r IH]; simpl; [lia|].
  pose proof (count_tokens_nonneg (content m)). lia.
Qed.


(** The invariant of the loop: [result] is the end of the history already
    accepted, [total] its estimate. *)
Lemma truncate_loop_spec reversed max_tokens result :
  (total_tokens result <= max_tokens)%Z ->
  let out := truncate_loop reversed max_tokens (total_tokens result) result in
  exists dropped,
    rev reversed ++ result = dropped ++ out
    /\ (total_tokens out <= max_tokens)%Z
    /\ (forall before last, dropped = before ++ [last] ->
          (max_tokens < count_tokens (content last) + total_tokens out)%Z).
Proof.
  revert result.
  induction reversed as [|message rest IH]; intros result Hfit;
    cbn [truncate_loop rev].
  - exists []. split; [reflexivity|]. split; [exact Hfit|].
    intros before last H. now destruct before.
  - destruct (total_tokens result + count_tokens (content message)
              <=? max_tokens)%Z eqn:E.
    + apply Z.leb_le in E.
      assert (Hfit' : (total_tokens (message :: result) <= max_tokens)%Z)
        by (simpl; lia).
      specialize (IH (message :: result) Hfit').
      replace (total_tokens result + count_tokens (content message))%Z
        with (total_tokens (message :: result)) by (simpl; lia).
      destruct IH as (dropped & Heq & Hle & Hmax).
      exists dropped. split; [|split; assumption].
      rewrite <- app_assoc. exact Heq.
    + apply Z.leb_gt in E.
      exists (rev rest ++ [message]). split; [reflexivity|].
      split; [exact Hfit|].
      intros before last H. apply app_inj_tail in H. destruct H as [_ <-].
      lia.
Qed.


(** The truncated history is an end of the history: no message is
    reordered, changed or skipped.  Its estimate does not exceed the
    budget, and it is as long as the budget allows: the last message left
    out does not fit with the ones kept. *)
Theorem truncate_messages_keeps_the_last
    (messages : list Message) (max_tokens : Z) :
  (0 <= max_tokens)%Z ->
  let kept := truncate_messages messages max_tokens in
  exists dropped,
    messages = dropped ++ kept
    /\ (total_tokens kept <= max_tokens)%Z
    /\ (forall before last, dropped = before ++ [last] ->
          (max_tokens < count_tokens (content last) + total_tokens kept)%Z).
Proof.
  intros Hmax kept. unfold kept, truncate_messages.
  destruct messages as [|m r].
  - exists []. split; [reflexivity|]. split; [exact Hmax|].
    intros before last H. now destruct before.
  - destruct (@truncate_loop_spec (rev (m :: r)) max_tokens [] Hmax)
      as (dropped & Heq & Hle & Hlast).
    exists dropped. rewrite rev_involutive, app_nil_r in Heq.
    split; [exact Heq|]. split; [exact Hle|exact Hlast].
Qed.


(** *** A sample history *)

Definition sample_history : list Message :=
  map (fun i => mkMessage (u "user") (u "Message " ++ str_of_Z (Z.of_nat i)))
      (seq 0 10).

(** Each message counts two tokens: with five tokens the last two are
    kept. *)
Example truncate_messages_sample :
  map content (truncate_messages sample_history 5)
  = [u "Message 8"; u "Message 9"]
  /\ truncate_messages sample_history 50 = sample_history
  /\ truncate_messages sample_history 1 = [].
Proof. vm_compute. repeat split. Qed.

Lemma truncate_messages_keeps_the_last_witness :
  (0 <= 5)%Z
  /\ exists dropped,
       sample_history = dropped ++ truncate_messages sample_history 5
       /\ (total_tokens (truncate_messages sample_history 5) <= 5)%Z.
Proof.
  assert (H : (0 <= 5)%Z) by lia.
  split; [exact H|].
  destruct (@truncate_messages_keeps_the_last sample_history 5 H)
    as (dropped & Heq & Hle & _).
  exists dropped. split; [exact Heq|exact Hle].
Defined.

End Utils.

(* ===================================================================== *)
(** ** assistant.py *)
(* ===================================================================== *)

Module Assistant.

Import Database(Hit).

Section Orchestrator.

Variable USE_GEMINI : bool.
Variable llm : nat -> nat -> Reply.
Variable _extract_json_from_llm : str -> option (dict JValue).

(** [self.db.search_with_route(query, route_decision, top_k)]: the reply
    of the injected database to the search of one attempt.  The query is
    the router's or, after a reformulation, the value the parsed reply of
    the validator held. *)
Variable db_search_with_route :
  nat -> JValue -> QueryRouter.RouteDecision -> Z -> Exc (list Hit).

Definition MAX_ATTEMPTS : nat := 3.

(** [current_query.split()[0] if len(current_query.split()) > 1
    else current_query]. *)
Definition first_token (current_query : str) : str :=
  match split current_query with
  | first :: _ :: _ => first
  | _ => current_query
  end.

Definition simplify_query (current_query : JValue) : Exc JValue :=
  match current_query with
  | JStr s => Ok (JStr (first_token s))
  | _ => Err AttributeError
  end.

(** The query of the first attempt. *)
Definition initial_query (message : str)
    (route_decision : QueryRouter.RouteDecision) : JValue :=
  match QueryRouter.enhancement_keywords route_decision with
  | [] => JStr message
  | keywords => JStr (join (u " ") keywords)
  end.

(** [for attempt in range(1, MAX_ATTEMPTS + 1)] of
    [_search_with_validation], from the attempts still to run. *)
Fixpoint attempts_loop (message : str)
    (route_decision : QueryRouter.RouteDecision)
    (attempts : list nat) (current_query : JValue) : M (list Hit) :=
  match attempts with
  | [] => ret []
  | attempt :: rest =>
    emit (EvSearch attempt current_query) ;;;
    raw_results <- lift (db_search_with_route attempt current_query
                                              route_decision 15) ;;
    match raw_results with
    | [] =>
      if (attempt =? MAX_ATTEMPTS)%nat then ret []
      else
        current_query <- lift (simplify_query current_query) ;;
        attempts_loop message route_decision rest current_query
    | _ :: _ =>
      vs <- ResultValidator.validate_and_select USE_GEMINI llm
              _extract_json_from_llm message raw_results
              (QueryRouter.reasoning route_decision) attempt ;;
      let '(validation_decision, selected_results) := vs in
      if truthy (ResultValidator.is_relevant validation_decision)
         && (match selected_results with [] => false | _ => true end)
      then ret selected_results
      else if truthy (ResultValidator.needs_reformulation validation_decision)
              && truthy (ResultValidator.reformulated_query validation_decision)
      then
        let current_query :=
          ResultValidator.reformulated_query validation_decision in
        if (attempt =? MAX_ATTEMPTS)%nat then ret []
        else attempts_loop message route_decision rest current_query
      else ret selected_results
    end
  end.

Definition _search_with_validation (message : str)
    (route_decision : QueryRouter.RouteDecision) : M (list Hit) :=
  attempts_loop message route_decision (seq 1 MAX_ATTEMPTS)
                (initial_query message route_decision).

(** *** Properties of the retrieval loop *)

Local Abbreviation run_validation :=
  (ResultValidator.validate_and_select USE_GEMINI llm _extract_json_from_llm).

(** Each attempt left logs at most [e] events of a kind for its search and
    [v] for its validation pass. *)
Lemma attempts_loop_bounded_by p e v message route_decision :
  (forall attempt q, bounded p e (emit (EvSearch attempt q))) ->
  (forall raw attempt,
      bounded p v (run_validation message raw
                     (QueryRouter.reasoning route_decision) attempt)) ->
  forall attempts current_query,
    bounded p ((e + v) * List.length attempts)
            (attempts_loop message route_decision attempts current_query).
Proof.
  intros He Hv.
  induction attempts as [|attempt rest IH]; intro current_query;
    cbn [attempts_loop List.length].
  - eapply bounded_weaken; [|apply bounded_ret]. lia.
  - apply (@bounded_weaken _ p
             (e + (0 + (v + (e + v) * List.length rest)))); [lia|].
    apply bounded_bind; [apply He|intros _].
    apply bounded_bind; [apply bounded_lift|intros raw].
    destruct raw as [|hit raw].
    + destruct (attempt =? MAX_ATTEMPTS)%nat.
      * eapply bounded_weaken; [|apply bounded_ret]. lia.
      * apply (@bounded_weaken _ p (0 + (e + v) * List.length rest)); [lia|].
        apply bounded_bind; [apply bounded_lift|intro q]. apply IH.
    + apply bounded_bind; [apply Hv|intros [decision selected]].
      destruct (truthy (ResultValidator.is_relevant decision)
                && match selected with [] => false | _ => true end).
      * eapply bounded_weaken; [|apply bounded_ret]. lia.
      * destruct (truthy (ResultValidator.needs_reformulation decision)
                  && truthy (ResultValidator.reformulated_query decision)).
        -- destruct (attempt =? MAX_ATTEMPTS)%nat.
           ++ eapply bounded_weaken; [|apply bounded_ret]. lia.
           ++ apply IH.
        -- eapply bounded_weaken; [|apply bounded_ret]. lia.
Qed.

(** The loop is bounded: at most three searches, three validation passes
    and nine calls of the reasoning service. *)
Lemma search_with_validation_bounded message route_decision :
  let m := _search_with_validation message route_decision in
  bounded is_search 3 m
  /\ bounded is_validate 3 m
  /\ bounded is_validate_llm 9 m
  /\ List.length (trace m) <= 15.
Proof.
  cbv zeta. unfold _search_with_validation.
  set (q := initial_query message route_decision).
  assert (Hs : bounded is_search 3
                 (attempts_loop message route_decision (seq 1 MAX_ATTEMPTS) q)).
  { apply (@attempts_loop_bounded_by is_search 1 0).
    - intros attempt q'. apply (bounded_emit is_search).
    - intros raw attempt.
      apply (ResultValidator.validate_and_select_bounded USE_GEMINI llm
               _extract_json_from_llm message raw
               (QueryRouter.reasoning route_decision) attempt). }
  assert (Hv : bounded is_validate 3
                 (attempts_loop message route_decision (seq 1 MAX_ATTEMPTS) q)).
  { apply (@attempts_loop_bounded_by is_validate 0 1).
    - intros attempt q'. apply (bounded_emit is_validate).
    - intros raw attempt.
      apply (ResultValidator.validate_and_select_bounded USE_GEMINI llm
               _extract_json_from_llm message raw
               (QueryRouter.reasoning route_decision) attempt). }
  assert (Hl : bounded is_validate_llm 9
                 (attempts_loop message route_decision (seq 1 MAX_ATTEMPTS) q)).
  { apply (@attempts_loop_bounded_by is_validate_llm 0 3).
    - intros attempt q'. apply (bounded_emit is_validate_llm).
    - intros raw attempt.
      apply (ResultValidator.validate_and_select_bounded USE_GEMINI llm
               _extract_json_from_llm message raw
               (QueryRouter.reasoning route_decision) attempt). }
  assert (Hr : bounded is_route_llm 0
                 (attempts_loop message route_decision (seq 1 MAX_ATTEMPTS) q)).
  { apply (@attempts_loop_bounded_by is_route_llm 0 0).
    - intros attempt q'. apply (bounded_emit is_route_llm).
    - intros raw attempt. unfold bounded, count_events.
      assert (H : forall l, Forall (fun ev => is_route_llm ev = false) l ->
                            List.length (filter is_route_llm l) = 0).
      { induction l as [|ev l IHl]; intro Hall; [reflexivity|].
        inversion Hall as [|? ? Hev Hrest]; subst. simpl. rewrite Hev.
        now apply IHl. }
      rewrite H; [lia|].
      unfold ResultValidator.validate_and_select.
      rewrite trace_bind. simpl.
      constructor; [reflexivity|].
      rewrite trace_bind.
      assert (Hloop : forall mr retries,
        Forall (fun ev => is_route_llm ev = false)
          (trace (ResultValidator.validation_loop USE_GEMINI llm
                    _extract_json_from_llm
                    (ResultValidator._summarize_results raw)
                    attempt mr retries))).
      { intros mr retries. induction retries as [|r rs IHr]; simpl.
        - constructor.
        - destruct (ResultValidator.validation_attempt _ _ _ _ _ _ _);
            simpl.
          + constructor; [reflexivity|constructor].
          + destruct (ResultValidator.validation_loop _ _ _ _ _ _ _)
              as [log res]. simpl in *.
            constructor; [reflexivity|exact IHr]. }
      unfold ResultValidator._llm_validation.
      destruct (outcome _) as [d|]; [|apply Hloop].
      apply Forall_app. split; [apply Hloop|].
      destruct (truthy (ResultValidator.needs_reformulation d)
                && (attempt <? ResultValidator.max_retries)%nat);
        [constructor|].
      destruct (truthy (ResultValidator.is_relevant d)
                && truthy (ResultValidator.selected_indices d));
        [|constructor].
      destruct (ResultValidator.select_results raw
                  (ResultValidator.selected_indices d)); constructor. }
  split; [exact Hs|]. split; [exact Hv|]. split; [exact Hl|].
  unfold bounded, count_events in *.
  set (l := trace (attempts_loop message route_decision
                                 (seq 1 MAX_ATTEMPTS) q)) in *.
  assert (Hsum : forall l',
    List.length l' = List.length (filter is_search l')
                     + List.length (filter is_validate l')
                     + List.length (filter is_validate_llm l')
                     + List.length (filter is_route_llm l')).
  { induction l' as [|ev l' IHl']; [reflexivity|].
    destruct ev; simpl; lia. }
  rewrite (Hsum l). lia.
Qed.

(** C4: whatever the database and the reasoning service do, one question
    makes the orchestrator run at most three validation passes. *)
Theorem at_most_three_validation_passes
    (message : str) (route_decision : QueryRouter.RouteDecision) :
  count_events is_validate
    (trace (_search_with_validation message route_decision)) <= 3.
Proof.
  unfold _search_with_validation.
  apply (@attempts_loop_bounded_by is_validate 0 1).
  - intros attempt q. apply (bounded_emit is_validate).
  - intros raw attempt.
    apply (ResultValidator.validate_and_select_bounded USE_GEMINI llm
             _extract_json_from_llm message raw
             (QueryRouter.reasoning route_decision) attempt).
Qed.

(** C2, as the code has it: a search without hits ends its attempt.  On
    the last attempt the loop stops with no evidence; before, the query is
    cut to its first token (and kept if it has at most one) and the search
    is repeated as the next attempt: the retry takes an attempt of the
    budget, and no validation pass, so that at most as many validation
    passes can follow as attempts are left. *)
Theorem zero_hits_use_next_attempt
    (message : str) (route_decision : QueryRouter.RouteDecision)
    (attempt : nat) (rest : list nat) (query : str) :
  db_search_with_route attempt (JStr query) route_decision 15 = Ok [] ->
  let next := attempts_loop message route_decision rest
                            (JStr (first_token query)) in
  let this := attempts_loop message route_decision (attempt :: rest)
                            (JStr query) in
  this = (if (attempt =? MAX_ATTEMPTS)%nat
          then ([EvSearch attempt (JStr query)], Ok [])
          else (EvSearch attempt (JStr query) :: trace next, outcome next))
  /\ count_events is_validate (trace this) <= List.length rest.
Proof.
  intros Hdb next this.
  assert (Heq : this = (if (attempt =? MAX_ATTEMPTS)%nat
                        then ([EvSearch attempt (JStr query)], Ok [])
                        else (EvSearch attempt (JStr query) :: trace next,
                              outcome next))).
  { unfold this. cbn [attempts_loop]. rewrite Hdb.
    destruct (attempt =? MAX_ATTEMPTS)%nat; [reflexivity|].
    cbn. fold next. destruct next as [log r]. reflexivity. }
  split; [exact Heq|]. rewrite Heq.
  destruct (attempt =? MAX_ATTEMPTS)%nat.
  - unfold count_events. simpl. lia.
  - assert (Hnext : bounded is_validate ((0 + 1) * List.length rest) next).
    { apply attempts_loop_bounded_by.
      - intros a q. apply (bounded_emit is_validate).
      - intros raw a.
        apply (ResultValidator.validate_and_select_bounded USE_GEMINI llm
                 _extract_json_from_llm message raw
                 (QueryRouter.reasoning route_decision) a). }
    unfold bounded, count_events in *. simpl in *. lia.
Qed.

(** A validation pass that selects something reports relevance. *)
Lemma validate_and_select_selected message raw route_reasoning attempt d sel :
  outcome (run_validation message raw route_reasoning attempt) = Ok (d, sel) ->
  sel <> [] ->
  truthy (ResultValidator.is_relevant d) = true.
Proof.
  unfold ResultValidator.validate_and_select.
  rewrite outcome_bind. cbn [outcome emit snd].
  rewrite outcome_bind.
  destruct (outcome (ResultValidator._llm_validation _ _ _ _ _ _ _ _))
    as [d'|]; [|discriminate].
  destruct (truthy (ResultValidator.needs_reformulation d')
            && (attempt <? ResultValidator.max_retries)%nat).
  - intros H Hne. inversion H; subst. now destruct Hne.
  - destruct (truthy (ResultValidator.is_relevant d')) eqn:Hrel;
      cbn [andb].
    + destruct (truthy (ResultValidator.selected_indices d')).
      * rewrite outcome_bind. cbn [outcome lift snd].
        destruct (ResultValidator.select_results raw _); [|discriminate].
        intros H _. inversion H; subst. exact Hrel.
      * intros H Hne. inversion H; subst. now destruct Hne.
    + intros H Hne. inversion H; subst. now destruct Hne.
Qed.

(** When the loop returns, it returns no evidence or the selection of a
    validation pass that judged the hits of its attempt relevant. *)
Lemma attempts_loop_returns message route_decision attempts current_query hits :
  outcome (attempts_loop message route_decision attempts current_query)
  = Ok hits ->
  hits = []
  \/ exists attempt query raw decision,
       In attempt attempts
       /\ db_search_with_route attempt query route_decision 15 = Ok raw
       /\ outcome (run_validation message raw
                     (QueryRouter.reasoning route_decision) attempt)
          = Ok (decision, hits)
       /\ truthy (ResultValidator.is_relevant decision) = true
       /\ hits <> [].
Proof.
  revert current_query.
  induction attempts as [|attempt rest IH]; intro current_query;
    cbn [attempts_loop].
  - intro H. inversion H. now left.
  - assert (Hrest : forall q,
      outcome (attempts_loop message route_decision rest q) = Ok hits ->
      hits = []
      \/ exists a query raw decision,
           In a (attempt :: rest)
           /\ db_search_with_route a query route_decision 15 = Ok raw
           /\ outcome (run_validation message raw
                         (QueryRouter.reasoning route_decision) a)
              = Ok (decision, hits)
           /\ truthy (ResultValidator.is_relevant decision) = true
           /\ hits <> []).
    { intros q Hq. destruct (IH q Hq) as [->|(a & qq & raw & d & Ha & Hx)];
        [now left|right].
      exists a, qq, raw, d. split; [now right|exact Hx]. }
    rewrite outcome_bind. cbn [outcome emit snd].
    rewrite outcome_bind. cbn [outcome lift snd].
    destruct (db_search_with_route attempt current_query route_decision 15)
      as [[|hit raw]|] eqn:Hdb; [| |discriminate].
    + destruct (attempt =? MAX_ATTEMPTS)%nat.
      * intro H. inversion H. now left.
      * rewrite outcome_bind. cbn [outcome lift snd].
        destruct (simplify_query current_query); [|discriminate].
        apply Hrest.
    + rewrite outcome_bind.
      destruct (outcome (run_validation message (hit :: raw)
                           (QueryRouter.reasoning route_decision) attempt))
        as [[decision selected]|] eqn:Hval; [|discriminate].
      destruct (truthy (ResultValidator.is_relevant decision)) eqn:Hrel;
        cbn [andb].
      * destruct selected as [|s0 sel].
        -- destruct (truthy (ResultValidator.needs_reformulation decision)
                     && truthy (ResultValidator.reformulated_query decision)).
           ++ destruct (attempt =? MAX_ATTEMPTS)%nat.
              ** intro H. inversion H. now left.
              ** apply Hrest.
           ++ intro H. inversion H. now left.
        -- intro H. inversion H; subst. right.
           exists attempt, current_query, (hit :: raw), decision.
           split; [now left|]. split; [exact Hdb|]. split; [exact Hval|].
           split; [exact Hrel|discriminate].
      * assert (Hsel : selected = []).
        { destruct selected as [|s0 sel]; [reflexivity|].
          assert (Hne : s0 :: sel <> []) by discriminate.
          pose proof (validate_and_select_selected _ _ _ _ Hval Hne) as Ht.
          congruence. }
        subst selected.
        destruct (truthy (ResultValidator.needs_reformulation decision)
                  && truthy (ResultValidator.reformulated_query decision)).
        -- destruct (attempt =? MAX_ATTEMPTS)%nat.
           ++ intro H. inversion H. now left.
           ++ apply Hrest.
        -- intro H. inversion H. now left.
Qed.

(** C5, where the code departs from it: the reply of the reasoning
    service parses, says the hits are relevant and gives the selected
    indices as strings; the comparison [1 <= i] of the validation pass
    raises [TypeError], nothing catches it, and the loop ends with
    neither a selection nor an empty list. *)
Theorem untyped_indices_escape_the_loop
    (message : str) (route_decision : QueryRouter.RouteDecision)
    (hit : Hit) (raw : list Hit) (status : Z) (text : str) :
  db_search_with_route 1 (initial_query message route_decision)
                       route_decision 15 = Ok (hit :: raw) ->
  llm 1 1 = Replied status (Ok text) ->
  USE_GEMINI = true \/ status = 200%Z ->
  _extract_json_from_llm text
  = Some [(u "is_relevant", JBool true);
          (u "selected_indices", JList [JStr (u "1")])] ->
  _search_with_validation message route_decision
  = ([EvSearch 1 (initial_query message route_decision);
      EvValidate 1; EvValidateLLM 1 1], Err TypeError).
Proof.
  intros Hdb Hllm Hstatus Hjson.
  unfold _search_with_validation. cbn [seq MAX_ATTEMPTS attempts_loop].
  rewrite Hdb. cbn [bind emit lift app].
  unfold ResultValidator.validate_and_select,
    ResultValidator._llm_validation.
  cbn [seq ResultValidator.validation_loop].
  unfold ResultValidator.validation_attempt at 1. rewrite Hllm.
  assert (Hbranch :
    (if USE_GEMINI
     then match Ok text with
          | Ok llm_response =>
            match _extract_json_from_llm llm_response with
            | Some ((_ :: _) as parsed) =>
              QueryRouter.Return (ResultValidator.decision_of parsed)
            | _ => QueryRouter.Continue
            end
          | Err e => QueryRouter.Continue
          end
     else if (status =? 200)%Z
     then match Ok text with
          | Ok llm_response =>
            match _extract_json_from_llm llm_response with
            | Some ((_ :: _) as parsed) =>
              QueryRouter.Return (ResultValidator.decision_of parsed)
            | _ => QueryRouter.Continue
            end
          | Err e => QueryRouter.Continue
          end
     else QueryRouter.Continue)
    = QueryRouter.Return (ResultValidator.decision_of
        [(u "is_relevant", JBool true);
         (u "selected_indices", JList [JStr (u "1")])])).
  { rewrite Hjson. destruct USE_GEMINI; [reflexivity|].
    destruct Hstatus as [H|H]; [discriminate|]. now rewrite H. }
  cbn [Nat.ltb Nat.leb] in *. rewrite Hbranch.
  vm_compute. reflexivity.
Qed.

(** *** What the loop returns, and how it ends *)

Lemma split_aux_nonempty cur s t : In t (split_aux cur s) -> t <> [].
Proof.
  revert cur. induction s as [|c r IH]; intros cur H; cbn [split_aux] in H.
  - destruct cur as [|x cur']; [destruct H|].
    destruct H as [<-|[]]. cbn [rev]. intro E.
    now apply app_eq_nil in E.
  - destruct (isspace c).
    + destruct cur as [|x cur']; [exact (IH [] H)|].
      destruct H as [<-|H]; [|exact (IH [] H)].
      cbn [rev]. intro E. now apply app_eq_nil in E.
    + exact (IH (c :: cur) H).
Qed.

Lemma split_aux_word cur w :
  (forall c, In c w -> isspace c = false) ->
  split_aux cur w = match rev cur ++ w with [] => [] | t => [t] end.
Proof.
  revert cur. induction w as [|c r IH]; intros cur H; cbn [split_aux].
  - rewrite app_nil_r. destruct cur as [|x cur']; [reflexivity|].
    cbn [rev]. destruct (rev cur' ++ [x]) eqn:E; [|reflexivity].
    now apply app_eq_nil in E.
  - rewrite (H c (or_introl eq_refl)).
    rewrite IH by (intros c' Hc'; apply H; now right).
    cbn [rev]. now rewrite <- app_assoc.
Qed.

(** Cutting a query to its first token a second time changes nothing. *)
Lemma first_token_idempotent query :
  first_token (first_token query) = first_token query.
Proof.
  unfold first_token at 2 3.
  destruct (split query) as [|first [|second rest]] eqn:E.
  - unfold first_token. now rewrite E.
  - unfold first_token. now rewrite E.
  - assert (Hin : In first (split query)) by (rewrite E; now left).
    assert (Hne : first <> []) by exact (@split_aux_nonempty _ _ _ Hin).
    assert (Hns : forall c, In c first -> isspace c = false).
    { exact (@Database.split_chars (fun c => isspace c = false) query
               (fun c _ H => H) first Hin). }
    unfold first_token, split. rewrite (@split_aux_word [] first Hns).
    cbn [rev app]. destruct first; [now destruct Hne|reflexivity].
Qed.

(** When every search comes back empty, the loop gives up after three
    searches without consulting the validator; the second search uses the
    first token of the query and the third repeats the query of the
    second. *)
Theorem empty_searches_repeat_the_query
    (message : str) (route_decision : QueryRouter.RouteDecision)
    (query : str) :
  initial_query message route_decision = JStr query ->
  db_search_with_route 1 (JStr query) route_decision 15 = Ok [] ->
  db_search_with_route 2 (JStr (first_token query)) route_decision 15
  = Ok [] ->
  db_search_with_route 3 (JStr (first_token query)) route_decision 15
  = Ok [] ->
  _search_with_validation message route_decision
  = ([EvSearch 1 (JStr query); EvSearch 2 (JStr (first_token query));
      EvSearch 3 (JStr (first_token query))], Ok []).
Proof.
  intros Hq H1 H2 H3. unfold _search_with_validation. rewrite Hq.
  cbn [seq MAX_ATTEMPTS attempts_loop]. rewrite H1.
  cbn [bind emit lift ret app Nat.eqb simplify_query].
  rewrite H2. cbn [bind emit lift ret app Nat.eqb simplify_query].
  rewrite first_token_idempotent, H3. reflexivity.
Qed.

(** Whatever the loop returns was found by one of its at most three
    searches and selected by the validation pass of that attempt, which
    judged the hits relevant: the orchestrator never hands on a document
    that the database did not return for this question. *)
Theorem returned_hits_come_from_a_search
    (message : str) (route_decision : QueryRouter.RouteDecision)
    (hits : list Hit) :
  outcome (_search_with_validation message route_decision) = Ok hits ->
  hits = []
  \/ exists attempt query raw decision,
       (1 <= attempt <= 3)%nat
       /\ db_search_with_route attempt query route_decision 15 = Ok raw
       /\ outcome (run_validation message raw
                     (QueryRouter.reasoning route_decision) attempt)
          = Ok (decision, hits)
       /\ truthy (ResultValidator.is_relevant decision) = true
       /\ (forall h, In h hits -> In h raw).
Proof.
  intro H. unfold _search_with_validation in H.
  destruct (@attempts_loop_returns _ _ _ _ _ H)
    as [->|(attempt & query & raw & decision & Hin & Hdb & Hval & Hrel & _)];
    [now left|right].
  exists attempt, query, raw, decision.
  split; [apply in_seq in Hin; unfold MAX_ATTEMPTS in Hin; lia|].
  split; [exact Hdb|]. split; [exact Hval|]. split; [exact Hrel|].
  intros h Hh.
  exact (@ResultValidator.validate_and_select_In USE_GEMINI llm
           _extract_json_from_llm _ _ _ _ _ _ h Hval Hh).
Qed.

(** When the search finds documents but the reasoning service of the
    validator fails (no reply parses and the third call raises or has a
    status other than 200), the loop ends at once with no evidence: the
    hits are dropped and the attempts left are not used. *)
Theorem failed_validation_ends_the_search
    (message : str) (route_decision : QueryRouter.RouteDecision)
    (attempt : nat) (rest : list nat) (current_query : JValue)
    (hit : Hit) (raw : list Hit) (why : str) :
  db_search_with_route attempt current_query route_decision 15
  = Ok (hit :: raw) ->
  (forall retry, (1 <= retry < 3)%nat ->
     forall p, ResultValidator.reply_kind USE_GEMINI _extract_json_from_llm
                 (llm attempt retry) <> ResultValidator.Parsed p) ->
  ResultValidator.reply_kind USE_GEMINI _extract_json_from_llm (llm attempt 3)
  = ResultValidator.Failed why ->
  attempts_loop message route_decision (attempt :: rest) current_query
  = ([EvSearch attempt current_query; EvValidate attempt;
      EvValidateLLM attempt 1; EvValidateLLM attempt 2;
      EvValidateLLM attempt 3], Ok []).
Proof.
  intros Hdb Hbefore Hlast. cbn [attempts_loop]. rewrite Hdb.
  cbn [bind emit lift app].
  unfold ResultValidator.validate_and_select, ResultValidator._llm_validation.
  cbn [seq].
  rewrite (@ResultValidator.failed_validation USE_GEMINI llm
             _extract_json_from_llm _ attempt why Hbefore Hlast).
  reflexivity.
Qed.

(** When the search finds documents and all three replies of the
    validator's reasoning service are malformed, the loop returns the
    first three hits of the search as its evidence, unjudged. *)
Theorem malformed_validation_passes_first_hits
    (message : str) (route_decision : QueryRouter.RouteDecision)
    (attempt : nat) (rest : list nat) (current_query : JValue)
    (hit : Hit) (raw : list Hit) :
  db_search_with_route attempt current_query route_decision 15
  = Ok (hit :: raw) ->
  (forall retry, (1 <= retry <= 3)%nat ->
     ResultValidator.malformed_reply USE_GEMINI _extract_json_from_llm
       (llm attempt retry)) ->
  attempts_loop message route_decision (attempt :: rest) current_query
  = ([EvSearch attempt current_query; EvValidate attempt;
      EvValidateLLM attempt 1; EvValidateLLM attempt 2;
      EvValidateLLM attempt 3], Ok (firstn 3 (hit :: raw))).
Proof.
  intros Hdb Hmal. cbn [attempts_loop]. rewrite Hdb.
  cbn [bind emit lift app].
  rewrite (@ResultValidator.validate_and_select_malformed USE_GEMINI llm
             _extract_json_from_llm message (hit :: raw)
             (QueryRouter.reasoning route_decision) attempt hit raw
             eq_refl Hmal).
  reflexivity.
Qed.

(** A reformulated query is taken from the parsed reply as it is.  When
    the validator of the first attempt asks for a reformulation and gives
    a query that is no string, and the second search finds nothing, the
    simplification of the query raises [AttributeError], which nothing
    catches. *)
Theorem reformulated_query_must_be_a_string
    (message : str) (route_decision : QueryRouter.RouteDecision)
    (hit : Hit) (raw : list Hit)
    (decision : ResultValidator.ValidationDecision) (selected : list Hit) :
  db_search_with_route 1 (initial_query message route_decision)
                       route_decision 15 = Ok (hit :: raw) ->
  outcome (run_validation message (hit :: raw)
             (QueryRouter.reasoning route_decision) 1)
  = Ok (decision, selected) ->
  truthy (ResultValidator.needs_reformulation decision) = true ->
  truthy (ResultValidator.reformulated_query decision) = true ->
  (forall s, ResultValidator.reformulated_query decision <> JStr s) ->
  db_search_with_route 2 (ResultValidator.reformulated_query decision)
                       route_decision 15 = Ok [] ->
  outcome (_search_with_validation message route_decision)
  = Err AttributeError.
Proof.
  intros Hdb Hval Hnr Hrq Hnostr Hdb2.
  assert (Hsel : selected = []).
  { pose proof Hval as H.
    rewrite ResultValidator.validate_and_select_outcome in H.
    destruct (outcome (ResultValidator._llm_validation _ _ _ _ _ _ _ _))
      as [d|]; cbn [ebind] in H; [|discriminate].
    destruct (truthy (ResultValidator.needs_reformulation d)) eqn:E;
      cbn [andb Nat.ltb Nat.leb ResultValidator.max_retries] in H.
    - now inversion H.
    - destruct (truthy (ResultValidator.is_relevant d)
                && truthy (ResultValidator.selected_indices d)).
      + destruct (ResultValidator.select_results _ _); cbn [ebind] in H;
          [|discriminate].
        inversion H; subst. congruence.
      + inversion H; subst. congruence. }
  subst selected.
  unfold _search_with_validation. cbn [seq MAX_ATTEMPTS attempts_loop].
  unfold MAX_ATTEMPTS.
  rewrite outcome_bind. cbn [outcome emit snd].
  rewrite outcome_bind. cbn [outcome lift snd]. rewrite Hdb.
  rewrite outcome_bind. rewrite Hval.
  rewrite andb_false_r, Hnr, Hrq. cbn [andb Nat.eqb].
  rewrite outcome_bind. cbn [outcome emit snd].
  rewrite outcome_bind. cbn [outcome lift snd]. rewrite Hdb2.
  cbn [Nat.eqb]. rewrite outcome_bind. cbn [outcome lift snd].
  destruct (ResultValidator.reformulated_query decision) as [| | | |s| |];
    try reflexivity.
  now destruct (Hnostr s).
Qed.

End Orchestrator.

(** *** Sample runs of the loop *)

(** A database that finds nothing on the first two attempts and one
    document on the third. *)
Definition sample_db (attempt : nat) (query : JValue)
    (route_decision : QueryRouter.RouteDecision) (top_k : Z)
  : Exc (list Hit) :=
  if (attempt <? 3)%nat then Ok [] else Ok [Database.sample_unlabelled].

(** A database that finds one document at once. *)
Definition sample_db_hit (attempt : nat) (query : JValue)
    (route_decision : QueryRouter.RouteDecision) (top_k : Z)
  : Exc (list Hit) :=
  Ok [Database.sample_unlabelled].

Definition sample_llm (attempt retry : nat) : Reply :=
  Replied 200 (Ok (u "(the reply of the reasoning service)")).

(** The reply read as: not relevant, reformulate. *)
Definition sample_parse_reformulate (text : str) : option (dict JValue) :=
  Some [(u "is_relevant", JBool false);
        (u "selected_indices", JList []);
        (u "needs_reformulation", JBool true);
        (u "reformulated_query", JStr (u "кафедра контакти"))].

(** The reply read as: relevant, with the selected indices as strings. *)
Definition sample_parse_untyped (text : str) : option (dict JValue) :=
  Some [(u "is_relevant", JBool true);
        (u "selected_indices", JList [JStr (u "1")])].

Definition scenario_4_message : str :=
  u "кафедра інформаційних технологій бюджет".

Definition global_route : QueryRouter.RouteDecision :=
  QueryRouter.mkRouteDecision (u "global") (u "general") None (u "info")
    [] 0.5%Q (u "Загальний запит про НАУ") true.

Lemma zero_hits_use_next_attempt_witness :
  let run := _search_with_validation false sample_llm sample_parse_reformulate
               sample_db scenario_4_message global_route in
  sample_db 1 (JStr scenario_4_message) global_route 15 = Ok []
  /\ count_events is_validate (trace run) <= 2.
Proof.
  cbv zeta.
  assert (H : sample_db 1 (JStr scenario_4_message) global_route 15 = Ok [])
    by reflexivity.
  split; [exact H|].
  exact (proj2 (@zero_hits_use_next_attempt false sample_llm
                  sample_parse_reformulate sample_db scenario_4_message
                  global_route 1 [2; 3] scenario_4_message H)).
Defined.

(** C2, as the specification states it, fails on its own scenario 4: the
    search of attempt 1 finds nothing, the retry with "кафедра" is the
    search of attempt 2 and not a second search of attempt 1, a further
    retry is attempt 3, and when the validator then asks for a
    reformulation the budget is spent after one validation pass. *)
Lemma zero_hit_retry_counterexample :
  let run := _search_with_validation false sample_llm sample_parse_reformulate
               sample_db scenario_4_message global_route in
  run = ([EvSearch 1 (JStr scenario_4_message);
          EvSearch 2 (JStr (u "кафедра"));
          EvSearch 3 (JStr (u "кафедра"));
          EvValidate 3; EvValidateLLM 3 1], Ok [])
  /\ ~ In (EvSearch 1 (JStr (u "кафедра"))) (trace run)
  /\ count_events is_validate (trace run) = 1.
Proof.
  vm_compute. split; [reflexivity|]. split; [|reflexivity].
  intros [H|[H|[H|[H|[H|[]]]]]]; discriminate H.
Qed.

Lemma untyped_indices_escape_the_loop_witness :
  _search_with_validation false sample_llm sample_parse_untyped
    sample_db_hit scenario_4_message global_route
  = ([EvSearch 1 (JStr scenario_4_message); EvValidate 1; EvValidateLLM 1 1],
     Err TypeError).
Proof.
  exact (@untyped_indices_escape_the_loop false sample_llm sample_parse_untyped
           sample_db_hit scenario_4_message global_route
           Database.sample_unlabelled [] 200
           (u "(the reply of the reasoning service)")
           eq_refl eq_refl (or_intror eq_refl) eq_refl).
Defined.

(** A database that finds nothing. *)
Definition sample_db_empty (attempt : nat) (query : JValue)
    (route_decision : QueryRouter.RouteDecision) (top_k : Z)
  : Exc (list Hit) :=
  Ok [].

(** A database that finds one document on the first attempt only. *)
Definition sample_db_first (attempt : nat) (query : JValue)
    (route_decision : QueryRouter.RouteDecision) (top_k : Z)
  : Exc (list Hit) :=
  if (attempt =? 1)%nat then Ok [Database.sample_unlabelled] else Ok [].

(** The reply read as: reformulate, with the new query as a list of
    words. *)
Definition sample_parse_word_list (text : str) : option (dict JValue) :=
  Some [(u "is_relevant", JBool false);
        (u "selected_indices", JList []);
        (u "needs_reformulation", JBool true);
        (u "reformulated_query",
         JList [JStr (u "кафедра"); JStr (u "контакти")])].

(** The reply read as: relevant, the first hit selected. *)
Definition sample_parse_first (text : str) : option (dict JValue) :=
  Some [(u "is_relevant", JBool true);
        (u "selected_indices", JList [JInt 1])].

Lemma empty_searches_repeat_the_query_witness :
  _search_with_validation false sample_llm sample_parse_reformulate
    sample_db_empty scenario_4_message global_route
  = ([EvSearch 1 (JStr scenario_4_message);
      EvSearch 2 (JStr (first_token scenario_4_message));
      EvSearch 3 (JStr (first_token scenario_4_message))], Ok []).
Proof.
  exact (@empty_searches_repeat_the_query false sample_llm
           sample_parse_reformulate sample_db_empty scenario_4_message
           global_route scenario_4_message eq_refl eq_refl eq_refl eq_refl).
Defined.

Lemma returned_hits_come_from_a_search_witness :
  outcome (_search_with_validation false sample_llm sample_parse_first
             sample_db_hit scenario_4_message global_route)
  = Ok [Database.sample_unlabelled]
  /\ ([Database.sample_unlabelled] = []
      \/ exists attempt query raw decision,
           (1 <= attempt <= 3)%nat
           /\ sample_db_hit attempt query global_route 15 = Ok raw
           /\ outcome (ResultValidator.validate_and_select false sample_llm
                         sample_parse_first scenario_4_message raw
                         (QueryRouter.reasoning global_route) attempt)
              = Ok (decision, [Database.sample_unlabelled])
           /\ truthy (ResultValidator.is_relevant decision) = true
           /\ (forall h, In h [Database.sample_unlabelled] -> In h raw)).
Proof.
  assert (H : outcome (_search_with_validation false sample_llm
                         sample_parse_first sample_db_hit scenario_4_message
                         global_route)
              = Ok [Database.sample_unlabelled])
    by (vm_compute; reflexivity).
  split; [exact H|].
  exact (@returned_hits_come_from_a_search false sample_llm sample_parse_first
           sample_db_hit scenario_4_message global_route _ H).
Defined.

Lemma failed_validation_ends_the_search_witness :
  _search_with_validation false ResultValidator.sample_llm_down
    sample_parse_first sample_db_hit scenario_4_message global_route
  = ([EvSearch 1 (JStr scenario_4_message); EvValidate 1;
      EvValidateLLM 1 1; EvValidateLLM 1 2; EvValidateLLM 1 3], Ok []).
Proof.
  assert (Hbefore : forall retry, (1 <= retry < 3)%nat ->
            forall p, ResultValidator.reply_kind false sample_parse_first
                        (ResultValidator.sample_llm_down 1 retry)
                      <> ResultValidator.Parsed p)
    by (intros retry _ p; discriminate).
  exact (@failed_validation_ends_the_search false
           ResultValidator.sample_llm_down sample_parse_first sample_db_hit
           scenario_4_message global_route 1 [2; 3]%nat
           (JStr scenario_4_message) Database.sample_unlabelled [] _
           eq_refl Hbefore eq_refl).
Defined.

Lemma malformed_validation_passes_first_hits_witness :
  _search_with_validation false ResultValidator.sample_llm_prose
    ResultValidator.sample_parse_none sample_db_hit scenario_4_message
    global_route
  = ([EvSearch 1 (JStr scenario_4_message); EvValidate 1;
      EvValidateLLM 1 1; EvValidateLLM 1 2; EvValidateLLM 1 3],
     Ok [Database.sample_unlabelled]).
Proof.
  assert (Hmal : forall retry, (1 <= retry <= 3)%nat ->
            ResultValidator.malformed_reply false
              ResultValidator.sample_parse_none
              (ResultValidator.sample_llm_prose 1 retry)).
  { intros retry _. eexists _, _. split; [reflexivity|].
    split; [now right|exact I]. }
  exact (@malformed_validation_passes_first_hits false
           ResultValidator.sample_llm_prose ResultValidator.sample_parse_none
           sample_db_hit scenario_4_message global_route 1 [2; 3]%nat
           (JStr scenario_4_message) Database.sample_unlabelled []
           eq_refl Hmal).
Defined.

Lemma reformulated_query_must_be_a_string_witness :
  outcome (_search_with_validation false sample_llm sample_parse_word_list
             sample_db_first scenario_4_message global_route)
  = Err AttributeError.
Proof.
  assert (Hnostr : forall s,
            JList [JStr (u "кафедра"); JStr (u "контакти")] <> JStr s)
    by (intros s; discriminate).
  exact (@reformulated_query_must_be_a_string false sample_llm
           sample_parse_word_list sample_db_first scenario_4_message
           global_route Database.sample_unlabelled []
           (ResultValidator.decision_of
              [(u "is_relevant", JBool false);
               (u "selected_indices", JList []);
               (u "needs_reformulation", JBool true);
               (u "reformulated_query",
                JList [JStr (u "кафедра"); JStr (u "контакти")])])
           [] eq_refl eq_refl eq_refl eq_refl Hnostr eq_refl).
Defined.

(** *** The context handed to the answering model *)

Section Context.

(** [f"{x:.2f}"]. *)
Variable format_2f : Q -> str.

Definition MAX_TOTAL_CHARS : nat := 4500.

Definition nl : str := [10%N].

(** [content[:chars_per_result] + "..."] for a content that is longer. *)
Definition cut_content (chars_per_result : nat) (content : str) : str :=
  if (chars_per_result <? List.length content)%nat
  then firstn chars_per_result content ++ u "..." else content.

(** The header of result [i]. *)
Definition context_header (i : nat) (result : Hit) : str :=
  let metadata := Database.metadata result in
  let relevance := Database.relevance_score result in
  let header :=
    u "Інформація " ++ str_of_Z (Z.of_nat i) ++ u " (релевантність: "
      ++ format_2f relevance ++ u ")" in
  let header :=
    match dict_get metadata (u "title") with
    | Some ((_ :: _) as title) => header ++ nl ++ u "Заголовок: " ++ title
    | _ => header
    end in
  let header :=
    match dict_get metadata (u "url") with
    | Some ((_ :: _) as url) => header ++ nl ++ u "Посилання: " ++ url
    | _ => header
    end in
  let header :=
    match dict_get metadata (u "news_type") with
    | Some ((_ :: _) as news_type) => header ++ nl ++ u "Тип: " ++ news_type
    | _ => header
    end in
  match dict_get metadata (u "date") with
  | Some ((_ :: _) as date) => header ++ u ", дата: " ++ date
  | _ => header
  end.

(** [for i, result in enumerate(context_results, 1)], from index [i]. *)
Fixpoint context_parts (chars_per_result i : nat) (context_results : list Hit)
  : list str :=
  match context_results with
  | [] => []
  | result :: rest =>
    (context_header i result ++ nl
       ++ cut_content chars_per_result (Database.content result))
    :: context_parts chars_per_result (S i) rest
  end.

Definition _format_context_for_llm_improved (context_results : list Hit)
  : str :=
  match context_results with
  | [] => []
  | _ =>
    let chars_per_result :=
      (MAX_TOTAL_CHARS / List.length context_results)%nat in
    nl ++ nl ++ repeat 61%N 50
       ++ join (nl ++ nl) (context_parts chars_per_result 1 context_results)
  end.

(** The characters of the documents' text in the context. *)
Definition text_chars (chars_per_result : nat) (context_results : list Hit)
  : nat :=
  fold_right (fun result acc =>
                (List.length (cut_content chars_per_result
                                          (Database.content result)) + acc)%nat)
             0%nat context_results.

Lemma cut_content_length chars_per_result content :
  (List.length (cut_content chars_per_result content) <= chars_per_result + 3)%nat
  /\ (List.length (cut_content chars_per_result content)
      <= List.length content + 3)%nat.
Proof.
  unfold cut_content.
  destruct (chars_per_result <? List.length content)%nat eqn:E.
  - apply Nat.ltb_lt in E. rewrite length_app, length_firstn.
    change (List.length (u "...")) with 3%nat. lia.
  - apply Nat.ltb_ge in E. lia.
Qed.

Lemma text_chars_bound chars_per_result context_results :
  (text_chars chars_per_result context_results
   <= List.length context_results * (chars_per_result + 3))%nat.
Proof.
  induction context_results as [|r rest IH]; simpl; [lia|].
  pose proof (proj1 (cut_content_length chars_per_result
                                        (Database.content r))). lia.
Qed.

Lemma context_parts_nth chars_per_result context_results start i result :
  nth_error context_results i = Some result ->
  nth_error (context_parts chars_per_result start context_results) i
  = Some (context_header (start + i) result ++ nl
            ++ cut_content chars_per_result (Database.content result)).
Proof.
  revert start i.
  induction context_results as [|r rest IH]; intros start i H.
  - destruct i; discriminate H.
  - destruct i as [|i]; cbn [context_parts nth_error] in *.
    + inversion H; subst. now rewrite Nat.add_0_r.
    + rewrite (IH (S start) i H). now rewrite Nat.add_succ_r.
Qed.

(** The limit of 4500 characters is shared out evenly and holds for the
    text of the documents up to the three dots of each cut: every
    document gets at most 4500 // n characters of its text, and all
    texts together at most 4500 + 3 n.  The headers are not counted. *)
Theorem context_text_within_budget (context_results : list Hit) :
  context_results <> [] ->
  let n := List.length context_results in
  let chars_per_result := (MAX_TOTAL_CHARS / n)%nat in
  _format_context_for_llm_improved context_results
  = nl ++ nl ++ repeat 61%N 50
       ++ join (nl ++ nl) (context_parts chars_per_result 1 context_results)
  /\ (forall i result,
        nth_error context_results i = Some result ->
        nth_error (context_parts chars_per_result 1 context_results) i
        = Some (context_header (S i) result ++ nl
                  ++ cut_content chars_per_result (Database.content result))
        /\ (List.length (cut_content chars_per_result
                                     (Database.content result))
            <= chars_per_result + 3)%nat)
  /\ (text_chars chars_per_result context_results
      <= MAX_TOTAL_CHARS + 3 * n)%nat.
Proof.
  intros Hne n chars_per_result.
  split; [destruct context_results; [now destruct Hne|reflexivity]|].
  split.
  - intros i result H.
    split; [exact (@context_parts_nth chars_per_result context_results 1 i
                     result H)|].
    apply cut_content_length.
  - pose proof (text_chars_bound chars_per_result context_results) as Hb.
    fold n in Hb.
    assert (Hn : n <> 0%nat).
    { unfold n. destruct context_results; [now destruct Hne|discriminate]. }
    pose proof (Nat.Div0.mul_div_le MAX_TOTAL_CHARS n) as Hdiv.
    fold chars_per_result in Hdiv.
    nia.
Qed.

End Context.

Lemma context_text_within_budget_witness :
  let results := [Database.sample_labelled; Database.sample_unlabelled] in
  results <> []
  /\ (text_chars 2250 results <= 4506)%nat.
Proof.
  cbv zeta.
  assert (H : [Database.sample_labelled; Database.sample_unlabelled] <> [])
    by discriminate.
  split; [exact H|].
  exact (proj2 (proj2 (@context_text_within_budget (fun _ => u "0.50")
                         [Database.sample_labelled; Database.sample_unlabelled]
                         H))).
Defined.

End Assistant.
